(** * SoundWaveFactory: a shallow embedding of [solution.py]

    The development follows the Python class [SoundWaveFactory]:
    the note table, the sine generator, wave-shape conversion, the ADSR
    envelope, normalisation and the melody string grammar.

    Numeric model.  The sample values of [float64] arrays are idealised as
    exact numbers: rational numbers ([Q]) wherever the code only adds,
    multiplies, divides, compares or takes absolute values, and real numbers
    ([R]) for the one transcendental step, [np.sin].  Where a float decides
    an integer, in [int(total_length * attack)] and its two siblings, the
    float is a binary64 value and the product is rounded as IEEE 754 rounds
    it.  [int16] arrays are lists of [Z] with the wrap-around written out.
    Python exceptions are the left summand of a [result]. *)

From stdpp Require Import base option list strings gmap.
From Stdlib Require Import Ascii ZArith QArith Qpower Qround Qabs Qminmax Psatz.
From Stdlib Require Import Reals Qreals SpecFloat.

Local Open Scope Z_scope.

(** ** Exceptions and results *)

Inductive exn : Type :=
  | ValueError (msg : string)
  | KeyError (key : string)
  | OverflowError (msg : string).

Definition result (A : Type) : Type := sum exn A.

Definition ok {A} (a : A) : result A := inr a.
Definition raise {A} (e : exn) : result A := inl e.

Definition bind {A B} (m : result A) (k : A -> result B) : result B :=
  match m with
  | inl e => inl e
  | inr a => k a
  end.

Notation "'let*' x ':=' m 'in' k" := (bind m (fun x => k))
  (at level 10, x pattern, m at level 100, k at level 200).

Definition is_ok {A} (m : result A) : Prop := exists a, m = inr a.
Definition raises {A} (m : result A) : Prop := exists e, m = inl e.

(** ** Python and numpy primitives *)

(** A Python [float] is a binary64 number: [spec_float] with a mantissa of
    53 bits and the exponent range of the format, under the operations of the
    IEEE 754 specification (round to nearest, ties to even). *)
Definition float64 : Type := spec_float.
Definition prec : Z := 53.
Definition emax : Z := 1024.

Definition float_finite (x : float64) : bool :=
  match x with
  | S754_zero _ | S754_finite _ _ _ => true
  | S754_infinity _ | S754_nan => false
  end.

(** The float nearest to an integer, and the float nearest to the quotient
    of two integers below 2^53: the value of the decimal literal that writes
    the fraction [q], as in [0.1] or [0.58]. *)
Definition float_of_Z (n : Z) : float64 := binary_normalize prec emax n 0 false.

Definition float_of_Q (q : Q) : float64 :=
  SFdiv prec emax (float_of_Z (Qnum q)) (float_of_Z (Z.pos (Qden q))).

(** [float(n)] on an int, as the mixed product [n * x] applies it: an int
    beyond the range of the format raises [OverflowError]. *)
Definition float_of_int (n : Z) : result float64 :=
  let x := float_of_Z n in
  if float_finite x then ok x
  else raise (OverflowError "int too large to convert to float").

(** [int(x)] on a float: truncation towards zero; an infinity raises
    [OverflowError] and a NaN [ValueError]. *)
Definition py_int (x : float64) : result Z :=
  match x with
  | S754_zero _ => ok 0
  | S754_finite s m e => ok (cond_Zopp s (Z.shiftl (Z.pos m) e))
  | S754_infinity _ =>
      raise (OverflowError "cannot convert float infinity to integer")
  | S754_nan => raise (ValueError "cannot convert float NaN to integer")
  end.

(** [int(n * x)] for an int [n] and a float [x]: the int is converted, the
    product is rounded to binary64, and the rounded product is truncated. *)
Definition int_of_product (n : Z) (x : float64) : result Z :=
  let* f := float_of_int n in
  py_int (SFmul prec emax f x).

(** [np.sign] on one sample. *)
Definition np_sign (x : Q) : Q := inject_Z (Z.sgn (Qnum x)).

(** [np.linspace(start, stop, num)] with the default [endpoint=True]:
    [arange(0, num) * step + start] with [step = (stop - start) / (num - 1)],
    the last sample overwritten by [stop] when [num > 1]; a negative [num]
    raises [ValueError]. *)
Definition linspace_at (start stop : Q) (num i : Z) : Q :=
  let div := num - 1 in
  let delta := (stop - start)%Q in
  if (1 <? num) && (i =? div) then stop
  else if 0 <? div then (inject_Z i * (delta / inject_Z div) + start)%Q
  else (inject_Z i * delta + start)%Q.

Definition linspace_samples (start stop : Q) (num : Z) : list Q :=
  linspace_at start stop num <$> seqZ 0 num.

Definition linspace (start stop : Q) (num : Z) : result (list Q) :=
  if num <? 0 then raise (ValueError "Number of samples must be non-negative.")
  else ok (linspace_samples start stop num).

(** [np.zeros(n)]. *)
Definition zeros (n : Z) : list Q := replicate (Z.to_nat n) 0%Q.

(** A slice bound of [a[start:stop]] on an array of length [len]: negative
    bounds count from the end, and every bound is clamped to [0..len]. *)
Definition slice_index (len i : Z) : Z :=
  if i <? 0 then Z.max (i + len) 0 else Z.min i len.

Definition slice_bounds (len : Z) (start stop : option Z) : Z * Z :=
  let lo := from_option (slice_index len) 0 start in
  let hi := from_option (slice_index len) len stop in
  (lo, Z.max lo hi).

(** [a[start:stop] = v]: the value must have the slice's length, or length 1
    (it is then broadcast); anything else raises [ValueError]. *)
Definition setitem_slice (a : list Q) (start stop : option Z) (v : list Q)
  : result (list Q) :=
  let '(lo, hi) := slice_bounds (Z.of_nat (length a)) start stop in
  let n := Z.to_nat (hi - lo) in
  let write (w : list Q) := take (Z.to_nat lo) a ++ w ++ drop (Z.to_nat hi) a in
  if decide (length v = n) then ok (write v)
  else match v with
       | [x] => ok (write (replicate n x))
       | _ => raise (ValueError "could not broadcast input array")
       end.

(** [a[:stop]] read as a copy. *)
Definition getitem_slice {A} (a : list A) (start stop : option Z) : list A :=
  let '(lo, hi) := slice_bounds (Z.of_nat (length a)) start stop in
  take (Z.to_nat (hi - lo)) (drop (Z.to_nat lo) a).

(** [np.max(np.abs(wave))] on a float64 array; the reduction of an empty
    array raises. *)
Definition np_max_abs (wave : list Q) : result Q :=
  match wave with
  | [] => raise (ValueError "zero-size array to reduction operation maximum")
  | x :: rest => ok (foldl (fun m y => Qmax m (Qabs y)) (Qabs x) rest)
  end.

(** [astype(np.int16)] on one float: truncation towards zero, then the
    16-bit two's complement wrap-around. *)
Definition wrap16 (z : Z) : Z := (z + 32768) mod 65536 - 32768.

Definition R_trunc (x : R) : Z :=
  if Rle_dec 0 x then Int_part x else - Int_part (- x).

Definition astype_int16 (x : R) : Z := wrap16 (R_trunc x).

(** [a + b] on two [int16] arrays of one length. *)
Definition int16_add (a b : list Z) : list Z :=
  zip_with (fun x y => wrap16 (x + y)) a b.

(** [np.abs] on an [int16] sample stays in [int16]: the absolute value of
    -32768 wraps around to -32768. *)
Definition int16_abs (z : Z) : Z := wrap16 (Z.abs z).

(** [np.max(np.abs(wave))] on an [int16] array: an [int16] scalar. *)
Definition np_max_abs_int16 (wave : list Z) : result Z :=
  match wave with
  | [] => raise (ValueError "zero-size array to reduction operation maximum")
  | x :: rest =>
      ok (foldl (fun m y => Z.max m (int16_abs y)) (int16_abs x) rest)
  end.

(** ** Strings, [float()] and the [re] module

    The text that [re] and [float] read is a Python [str]: a sequence of
    Unicode code points, modelled as a list of numbers.  [\d] matches the
    decimal digits of every script (the characters of category Nd, which
    come ten in a row from each script's zero), and [\s] the characters that
    [str.isspace] accepts.  The two tables are those of Unicode 14.0, the
    data of Python 3.11.  Dictionary keys, shape names and messages, which
    the code only compares, are [string]s: byte strings that hold the UTF-8
    encoding of the text. *)

Definition unicode : Type := list N.

(** A literal of ASCII characters as text. *)
Fixpoint str (s : string) : unicode :=
  match s with
  | String c s' => N_of_ascii c :: str s'
  | EmptyString => []
  end.

(** The UTF-8 encoding of a text. *)
Definition utf8_char (c : N) : string :=
  let byte (n : N) := ascii_of_N n in
  let tail (n : N) := byte (128 + n mod 64)%N in
  if (c <? 128)%N then String (byte c) EmptyString
  else if (c <? 2048)%N then
    String (byte (192 + c / 64)%N) (String (tail c) EmptyString)
  else if (c <? 65536)%N then
    String (byte (224 + c / 4096)%N)
      (String (tail (c / 64)%N) (String (tail c) EmptyString))
  else
    String (byte (240 + c / 262144)%N)
      (String (tail (c / 4096)%N)
         (String (tail (c / 64)%N) (String (tail c) EmptyString))).

Fixpoint utf8 (s : unicode) : string :=
  match s with
  | c :: s' => (utf8_char c ++ utf8 s')%string
  | [] => EmptyString
  end.

Definition char_in (lo hi : N) (c : N) : bool := ((lo <=? c) && (c <=? hi))%N.

(** The zero of every run of decimal digits: the ASCII digits, then
    Arabic-Indic, Devanagari, ... up to the segmented digits at 1FBF0. *)
Definition decimal_zeros : list N :=
  [ 48; 1632; 1776; 1984; 2406; 2534; 2662; 2790; 2918; 3046; 3174; 3302;
    3430; 3558; 3664; 3792; 3872; 4160; 4240; 6112; 6160; 6470; 6608; 6784;
    6800; 6992; 7088; 7232; 7248; 42528; 43216; 43264; 43472; 43504; 43600;
    44016; 65296; 66720; 68912; 69734; 69872; 69942; 70096; 70384; 70736;
    70864; 71248; 71360; 71472; 71904; 72016; 72784; 73040; 73120; 92768;
    92864; 93008; 120782; 120792; 120802; 120812; 120822; 123200; 123632;
    125264; 130032 ]%N.

(** [\d]. *)
Definition class_digit (c : N) : bool :=
  existsb (fun zero => char_in zero (zero + 9) c) decimal_zeros.

(** The value of a decimal digit: its distance from the zero of its run. *)
Definition digit_value (c : N) : Z :=
  match List.find (fun zero => char_in zero (zero + 9) c) decimal_zeros with
  | Some zero => Z.of_N (c - zero)
  | None => 0
  end.

(** [\s]: tab to carriage return, the separators 28 to 31, space, NEL,
    no-break space, and the space characters beyond Latin-1. *)
Definition space_points : list N :=
  [ 9; 10; 11; 12; 13; 28; 29; 30; 31; 32; 133; 160; 5760; 8192; 8193; 8194;
    8195; 8196; 8197; 8198; 8199; 8200; 8201; 8202; 8232; 8233; 8239; 8287;
    12288 ]%N.

Definition class_space (c : N) : bool := existsb (N.eqb c) space_points.

Definition class_lit (x : ascii) (c : N) : bool := (N_of_ascii x =? c)%N.

(** The whitespace [float()] strips: [\s] without the separators 28 to
    31. *)
Definition float_space (c : N) : bool := class_space c && negb (char_in 28 31 c).

Fixpoint lstrip (s : unicode) : unicode :=
  match s with
  | c :: s' => if float_space c then lstrip s' else s
  | [] => []
  end.

(** Leading decimal digits of [s]: their value on top of [acc], how many
    there are, and the rest of the text. *)
Fixpoint read_digits (acc : Z) (n : nat) (s : unicode) : Z * nat * unicode :=
  match s with
  | c :: s' =>
      if class_digit c
      then read_digits (10 * acc + digit_value c) (S n) s'
      else (acc, n, s)
  | [] => (acc, n, s)
  end.

(** [float(s)] on the unsigned decimal literals the melody grammar can hand
    to it: optional surrounding whitespace, digits, an optional point, digits,
    with at least one digit.  The value is the exact decimal. *)
Definition py_float (s : unicode) : result Q :=
  let '(int_part, n1, s1) := read_digits 0 0 (lstrip s) in
  let '(mantissa, n2, s3) :=
    match s1 with
    | c :: s2 =>
        if class_lit "." c then read_digits int_part 0 s2
        else (int_part, 0%nat, s1)
    | [] => (int_part, 0%nat, s1)
    end in
  match lstrip s3, (n1 + n2)%nat with
  | [], S _ => ok (Qred (inject_Z mantissa / inject_Z (10 ^ Z.of_nat n2)))
  | _, _ => raise (ValueError "could not convert string to float")
  end.

(** [s[:-1]]. *)
Fixpoint drop_last (s : unicode) : unicode :=
  match s with
  | [c] => []
  | c :: s' => c :: drop_last s'
  | [] => []
  end.

(** A backtracking matcher in continuation-passing style: a piece of a
    pattern takes what to do with the text it matched and the rest of the
    input, and gives back the first success in the order Python's [re] tries
    the alternatives (greedy first). *)
Module Re.

Definition cont (A : Type) : Type := unicode -> option A.

(** One character of a class. *)
Definition one {A} (p : N -> bool) (k : N -> cont A) : cont A :=
  fun s =>
    match s with
    | c :: s' => if p c then k c s' else None
    | [] => None
    end.

(** [x?] on a class: with the character first, then without it. *)
Definition opt {A} (p : N -> bool) (k : unicode -> cont A) : cont A :=
  fun s =>
    match one p (fun c => k [c]) s with
    | Some r => Some r
    | None => k [] s
    end.

(** [x*] on a class: the longest run first, then shorter ones. *)
Fixpoint star {A} (p : N -> bool) (k : unicode -> cont A) (s : unicode)
  : option A :=
  match s with
  | c :: s' =>
      if p c then
        match star p (fun m => k (c :: m)) s' with
        | Some r => Some r
        | None => k [] s
        end
      else k [] s
  | [] => k [] s
  end.

(** [(g)?] on a group: an unmatched group is reported as the empty string,
    as [findall] does. *)
Definition opt_group {A} (g : (unicode -> cont A) -> cont A)
    (k : unicode -> cont A) : cont A :=
  fun s =>
    match g k s with
    | Some r => Some r
    | None => k [] s
    end.

End Re.

(** ** Class constants *)

Module SoundWaveFactory.

Definition SAMPLING_RATE : Z := 44100.
Definition DURATION_SECONDS : Z := 5.
Definition SOUND_ARRAY_LEN : Z := SAMPLING_RATE * DURATION_SECONDS.
Definition MAX_AMPLITUDE : Z := 2 ^ 13.

(** The dict literal [NOTES], in source order. *)
Definition NOTES_items : list (string * Q) :=
  [ ("0", 0%Q); ("e0", 20.60172%Q); ("f0", 21.82676%Q); ("f#0", 23.12465%Q);
    ("g0", 24.49971%Q); ("g#0", 25.95654%Q); ("a0", 27.50000%Q);
    ("a#0", 29.13524%Q);
    ("b0", 30.86771%Q); ("c0", 32.70320%Q); ("c#0", 34.64783%Q);
    ("d0", 36.70810%Q); ("d#0", 38.89087%Q);
    ("e1", 41.20344%Q); ("f1", 43.65353%Q); ("f#1", 46.24930%Q);
    ("g1", 48.99943%Q); ("g#1", 51.91309%Q); ("a1", 55.00000%Q);
    ("a#1", 58.27047%Q);
    ("b1", 61.73541%Q); ("c1", 65.40639%Q); ("c#1", 69.29566%Q);
    ("d1", 73.41619%Q); ("d#1", 77.78175%Q);
    ("e2", 82.40689%Q); ("f2", 87.30706%Q); ("f#2", 92.49861%Q);
    ("g2", 97.99886%Q); ("g#2", 103.8262%Q); ("a2", 110.0000%Q);
    ("a#2", 116.5409%Q);
    ("b2", 123.4708%Q); ("c2", 130.8128%Q); ("c#2", 138.5913%Q);
    ("d2", 146.8324%Q); ("d#2", 155.5635%Q);
    ("e3", 164.8138%Q); ("f3", 174.6141%Q); ("f#3", 184.9972%Q);
    ("g3", 195.9977%Q); ("g#3", 207.6523%Q); ("a3", 220.0000%Q);
    ("a#3", 233.0819%Q);
    ("b3", 246.9417%Q); ("c3", 261.6256%Q); ("c#3", 277.1826%Q);
    ("d3", 293.6648%Q); ("d#3", 311.1270%Q);
    ("e4", 329.6276%Q); ("f4", 349.2282%Q); ("f#4", 369.9944%Q);
    ("g4", 391.9954%Q); ("g#4", 415.3047%Q); ("a4", 440.0000%Q);
    ("a#4", 466.1638%Q);
    ("b4", 493.8833%Q); ("c4", 523.2511%Q); ("c#4", 554.3653%Q);
    ("d4", 587.3295%Q); ("d#4", 622.2540%Q);
    ("e5", 659.2551%Q); ("f5", 698.4565%Q); ("f#5", 739.9888%Q);
    ("g5", 783.9909%Q); ("g#5", 830.6094%Q); ("a5", 880.0000%Q);
    ("a#5", 932.3275%Q);
    ("b5", 987.7666%Q); ("c5", 1046.502%Q); ("c#5", 1108.731%Q);
    ("d5", 1174.659%Q); ("d#5", 1244.508%Q);
    ("e6", 1318.510%Q); ("f6", 1396.913%Q); ("f#6", 1479.978%Q);
    ("g6", 1567.982%Q); ("g#6", 1661.219%Q); ("a6", 1760.000%Q);
    ("a#6", 1864.655%Q);
    ("b6", 1975.533%Q); ("c6", 2093.005%Q); ("c#6", 2217.461%Q);
    ("d6", 2349.318%Q); ("d#6", 2489.016%Q);
    ("e7", 2637.020%Q); ("f7", 2793.826%Q); ("f#7", 2959.955%Q);
    ("g7", 3135.963%Q); ("g#7", 3322.438%Q); ("a7", 3520.000%Q);
    ("a#7", 3729.310%Q);
    ("b7", 3951.066%Q); ("c7", 4186.009%Q); ("c#7", 4434.922%Q);
    ("d7", 4698.636%Q); ("d#7", 4978.032%Q) ].

Definition NOTES : gmap string Q := list_to_map NOTES_items.

(** [get_normed_sin(timeline, frequency)]:
    [MAX_AMPLITUDE * np.sin(2 * np.pi * frequency * timeline)]. *)
Definition get_normed_sin (timeline : list Q) (frequency : Q) : list R :=
  (fun t => (IZR MAX_AMPLITUDE * sin (2 * PI * Q2R frequency * Q2R t))%R)
    <$> timeline.

(** [get_soundwave(timeline, note)]; [NOTES[note]] raises [KeyError] on a
    name that is not in the table. *)
Definition get_soundwave (timeline : list Q) (note : string)
  : result (list R) :=
  match NOTES !! note with
  | Some frequency => ok (get_normed_sin timeline frequency)
  | None => raise (KeyError note)
  end.

(** [create_note(note, duration)]. *)
Definition create_note (note : string) (duration : Q) : result (list Z) :=
  let* timeline := linspace 0 duration SOUND_ARRAY_LEN in
  let* sound_wave := get_soundwave timeline note in
  ok (astype_int16 <$> sound_wave).

(** [normalize_sound_waves(waves)].  [min] of an empty list raises; each
    wave is cut to [min_length] and divided by the peak of the whole wave.
    (numpy divides by a zero peak into nan or inf; [Q] has no such values,
    and the statements below keep to waves with a nonzero peak.)  The
    Python function is written here once for each kind of array the class
    passes around: [normalize_sound_waves] is the function on float64 waves
    (what [apply_adsr], [convert_wave_type] and [read_wave_from_txt]
    return), and [normalize_sound_waves_int16] the function on int16 waves
    (what [create_note] and [generate_melody] return), where [np.abs] and
    [np.max] stay in int16 and the division gives floats. *)
Definition min_length_of {A} (waves : list (list A)) : result Z :=
  match waves with
  | [] => raise (ValueError "min() arg is an empty sequence")
  | wave :: rest =>
      ok (foldl (fun m w => Z.min m (Z.of_nat (length w)))
                (Z.of_nat (length wave)) rest)
  end.

Fixpoint normalize_loop (min_length : Z) (waves : list (list Q))
  : result (list (list Q)) :=
  match waves with
  | [] => ok []
  | wave :: rest =>
      let cut := getitem_slice wave None (Some min_length) in
      let* peak := np_max_abs wave in
      let normalized_wave := (fun x => x / peak)%Q <$> cut in
      let* normalized_waves := normalize_loop min_length rest in
      ok (normalized_wave :: normalized_waves)
  end.

Definition normalize_sound_waves (waves : list (list Q))
  : result (list (list Q)) :=
  let* min_length := min_length_of waves in
  normalize_loop min_length waves.

Fixpoint normalize_loop_int16 (min_length : Z) (waves : list (list Z))
  : result (list (list Q)) :=
  match waves with
  | [] => ok []
  | wave :: rest =>
      let cut := getitem_slice wave None (Some min_length) in
      let* peak := np_max_abs_int16 wave in
      let normalized_wave := (fun x => inject_Z x / inject_Z peak)%Q <$> cut in
      let* normalized_waves := normalize_loop_int16 min_length rest in
      ok (normalized_wave :: normalized_waves)
  end.

Definition normalize_sound_waves_int16 (waves : list (list Z))
  : result (list (list Q)) :=
  let* min_length := min_length_of waves in
  normalize_loop_int16 min_length waves.

(** [convert_wave_type(wave, wave_type)]. *)
Definition triangular_sample (x : Q) : Q :=
  ((2 * Qabs (2 * (x - inject_Z (Qfloor (x + 0.5)))) - 1)
   * inject_Z MAX_AMPLITUDE)%Q.

Definition square_sample (x : Q) : Q :=
  (np_sign x * inject_Z MAX_AMPLITUDE)%Q.

Definition unsupported_wave_type : exn :=
  ValueError "Unsupported wave type. Choose 'triangular' or 'square'.".

Definition convert_wave_type (wave : list Q) (wave_type : string)
  : result (list Q) :=
  let* x := linspace 0 1 (Z.of_nat (length wave)) in
  if decide (wave_type = "triangular") then ok (triangular_sample <$> x)
  else if decide (wave_type = "square") then ok (square_sample <$> wave)
  else raise unsupported_wave_type.

(** [apply_adsr(wave, attack, decay, sustain, release)].  The three
    fractions are floats, as the docstring has them, whose rounded products
    with the length are truncated (the ints 0 and 1 give the lengths of 0.0
    and 1.0); [sustain] only scales sample values.  Every right-hand side is
    evaluated before its slice assignment, as in Python. *)
Definition apply_adsr (wave : list Q) (attack decay : float64) (sustain : Q)
    (release : float64) : result (list Q) :=
  let total_length := Z.of_nat (length wave) in
  let* attack_length := int_of_product total_length attack in
  let* decay_length := int_of_product total_length decay in
  let* release_length := int_of_product total_length release in
  let envelope := zeros total_length in
  let* ramp := linspace 0 1 attack_length in
  let* envelope := setitem_slice envelope None (Some attack_length) ramp in
  let* ramp := linspace 1 sustain decay_length in
  let* envelope :=
    setitem_slice envelope (Some attack_length)
                  (Some (attack_length + decay_length)) ramp in
  let* ramp := linspace sustain 0 release_length in
  let* envelope := setitem_slice envelope (Some (- release_length)) None ramp in
  ok (zip_with Qmult wave envelope).

(** The keyword defaults of [apply_adsr]. *)
Definition default_attack : float64 := float_of_Q 0.1.
Definition default_decay : float64 := float_of_Q 0.1.
Definition default_sustain : Q := 0.7.
Definition default_release : float64 := float_of_Q 0.1.

(** The pattern of [generate_melody]:
    [([a-g][#]?\d)(\s\d*\.?\d*s)?]. *)
Definition class_a_g (c : N) : bool := char_in 97 103 c.

Definition group1 {A} (k : unicode -> Re.cont A) : Re.cont A :=
  Re.one class_a_g (fun c =>
  Re.opt (class_lit "#") (fun sharp =>
  Re.one class_digit (fun d =>
  k (c :: sharp ++ [d])))).

Definition group2 {A} (k : unicode -> Re.cont A) : Re.cont A :=
  Re.one class_space (fun w =>
  Re.star class_digit (fun d1 =>
  Re.opt (class_lit ".") (fun dot =>
  Re.star class_digit (fun d2 =>
  Re.one (class_lit "s") (fun s =>
  k (w :: d1 ++ dot ++ d2 ++ [s])))))).

(** A match at the start of the input: both groups and the unread rest. *)
Definition pattern : Re.cont (unicode * unicode * unicode) :=
  group1 (fun g1 =>
  Re.opt_group group2 (fun g2 rest => Some (g1, g2, rest))).

(** [re.findall(pattern, s)]: scan from the left; after a match go on
    behind it, otherwise one character further.  A match is never empty, so
    [S (length s)] steps are enough. *)
Fixpoint findall_fuel (fuel : nat) (s : unicode) : list (unicode * unicode) :=
  match fuel with
  | O => []
  | S fuel' =>
      match pattern s with
      | Some (g1, g2, rest) => (g1, g2) :: findall_fuel fuel' rest
      | None =>
          match s with
          | _ :: s' => findall_fuel fuel' s'
          | [] => []
          end
      end
  end.

Definition findall (s : unicode) : list (unicode * unicode) :=
  findall_fuel (S (length s)) s.

(** Line 202:
    [float(duration[:-1]) if duration else DURATION_SECONDS]. *)
Definition note_duration (duration : unicode) : result Q :=
  match duration with
  | [] => ok (inject_Z DURATION_SECONDS)
  | _ => py_float (drop_last duration)
  end.

(** The loop of [generate_melody] over the matches, [combined_wave]
    threaded through.  Every wave has [SOUND_ARRAY_LEN] samples, so the sum
    is elementwise.  The note is looked up under its UTF-8 encoding. *)
Fixpoint melody_loop (notes_with_duration : list (unicode * unicode))
    (combined_wave : option (list Z)) : result (option (list Z)) :=
  match notes_with_duration with
  | [] => ok combined_wave
  | (note, duration) :: rest =>
      let* duration := note_duration duration in
      let* wave := create_note (utf8 note) duration in
      melody_loop rest
        (Some match combined_wave with
              | None => wave
              | Some c => int16_add c wave
              end)
  end.

(** [generate_melody(melody_str)]; [inr None] is Python's [None]. *)
Definition generate_melody (melody_str : unicode)
  : result (option (list Z)) :=
  melody_loop (findall melody_str) None.

(** The (note, duration) pairs the loop works on: the matches of line 199
    with the conversion of line 202 applied to each. *)
Fixpoint melody_pairs (notes_with_duration : list (unicode * unicode))
  : result (list (unicode * Q)) :=
  match notes_with_duration with
  | [] => ok []
  | (note, duration) :: rest =>
      let* duration := note_duration duration in
      let* pairs := melody_pairs rest in
      ok ((note, duration) :: pairs)
  end.

Definition parse_melody (melody_str : unicode) : result (list (unicode * Q)) :=
  melody_pairs (findall melody_str).

(** The waves the loop of [generate_melody] creates, one per match (line
    203), in order. *)
Fixpoint note_waves (notes_with_duration : list (unicode * unicode))
  : result (list (list Z)) :=
  match notes_with_duration with
  | [] => ok []
  | (note, duration) :: rest =>
      let* duration := note_duration duration in
      let* wave := create_note (utf8 note) duration in
      let* waves := note_waves rest in
      ok (wave :: waves)
  end.

(** [combine_waves(waves)]: [np.sum(waves, axis=0)] on a list of int16
    waves.  numpy adds integer arrays narrower than the platform integer in
    the platform integer (64 bits), so sums of int16 samples are exact.  The
    empty list sums to the scalar 0.0; waves of different lengths do not form
    an array and raise ValueError (numpy 1.24 and later). *)
Inductive summed : Type :=
  | Scalar (x : Q)
  | Samples (a : list Z).

Definition combine_waves (waves : list (list Z)) : result summed :=
  match waves with
  | [] => ok (Scalar 0)
  | wave :: rest =>
      if forallb (fun w => Nat.eqb (length w) (length wave)) rest
      then ok (Samples (foldl (zip_with Z.add) wave rest))
      else raise (ValueError "inhomogeneous shape")
  end.

End SoundWaveFactory.

Import SoundWaveFactory.

(** A note name read as a pitch (a letter with an optional sharp) and an
    octave digit; used to compare table entries of one pitch. *)
Definition note_parts (name : string) : option (string * N) :=
  match name with
  | String c (String d EmptyString) =>
      if class_a_g (N_of_ascii c) && class_digit (N_of_ascii d)
      then Some (String c EmptyString, (N_of_ascii d - 48)%N) else None
  | String c (String "#" (String d EmptyString)) =>
      if class_a_g (N_of_ascii c) && class_digit (N_of_ascii d)
      then Some (String c "#", (N_of_ascii d - 48)%N) else None
  | _ => None
  end.

Definition Qltb (x y : Q) : bool := Qnum x * QDen y <? Qnum y * QDen x.

(** The check behind the octave ordering, run over all pairs of entries. *)
Definition octave_order_ok (e1 e2 : string * Q) : bool :=
  match note_parts e1.1, note_parts e2.1 with
  | Some (p1, o1), Some (p2, o2) =>
      if String.eqb p1 p2 && (o1 <? o2)%N
      then Qltb 0 e1.2 && Qltb 0 e2.2 && Qltb e1.2 e2.2
      else true
  | _, _ => true
  end.

Definition octave_order_table : bool :=
  forallb (fun e1 => forallb (octave_order_ok e1) NOTES_items) NOTES_items.


(** ** Vocabulary of the statements *)

(** [int(total_length * fraction)], as computed three times in
    [apply_adsr]. *)
Definition phase_length (wave : list Q) (fraction : float64) : result Z :=
  int_of_product (Z.of_nat (length wave)) fraction.

(** The float +0.0. *)
Definition float_zero : float64 := S754_zero false.

(** Powers of two, and the value of a float as a rational number (0 for the
    infinities and NaN, which are told apart by [float_finite]). *)
Definition bpow (e : Z) : Q := (2 ^ e)%Q.

Definition fval (m e : Z) : Q := (inject_Z m * bpow e)%Q.

Definition float_value (x : float64) : Q :=
  match x with
  | S754_finite s m e => if s then (- fval (Z.pos m) e)%Q else fval (Z.pos m) e
  | _ => 0%Q
  end.

(** The two error terms of a rounding: the relative error 2^-52 and the
    smallest positive float 2^-1074. *)
Definition eps : Q := bpow (-52).
Definition tiny : Q := bpow (-1074).

(** A float that is a zero or positive, with a bound on its value. *)
Definition below (x : float64) (b : Q) : Prop :=
  (exists s, x = S754_zero s)
  \/ exists m e, x = S754_finite false m e /\ (fval (Z.pos m) e <= b)%Q.

(** What the two roundings of [int(n * x)] (of the length, and of the
    product) can add to the length [n]. *)
Definition slack (n : Z) : Q := ((inject_Z n * (1 + eps) + tiny) * (1 + eps))%Q.

(** All characters of a text are in a class. *)
Fixpoint all_in (p : N -> bool) (s : unicode) : bool :=
  match s with
  | c :: s' => p c && all_in p s'
  | [] => true
  end.

(** The input is empty or starts outside the class. *)
Definition stops (p : N -> bool) (s : unicode) : bool :=
  match s with
  | c :: _ => negb (p c)
  | [] => true
  end.

(** A note token as the pattern's first group takes it: a letter a to g, an
    optional sharp, one decimal digit of any script. *)
Definition note_token (tok : unicode) : Prop :=
  exists (c : N) (sharp : unicode) (d : N),
    tok = c :: sharp ++ [d]
    /\ class_a_g c = true
    /\ (sharp = [] \/ sharp = str "#")
    /\ class_digit d = true.


(** A duration as the second group takes it: one whitespace character,
    digits, an optional point, digits, the letter s. *)
Definition duration_token (g2 : unicode) : Prop :=
  exists (w : N) (d1 dot d2 : unicode),
    g2 = w :: d1 ++ dot ++ d2 ++ str "s"
    /\ class_space w = true
    /\ all_in class_digit d1 = true
    /\ (dot = [] \/ dot = str ".")
    /\ all_in class_digit d2 = true.

(** An [int16] sample other than -32768, the one value whose absolute
    value is not an [int16]. *)
Definition int16_symmetric (z : Z) : Prop := -32767 <= z <= 32767.

(** An [int16] wave read as the float64 wave of the same values. *)
Definition as_float64 (wave : list Z) : list Q := inject_Z <$> wave.

(** Where sample [i] of [num] samples lies in [linspace(0, 1, num)]:
    [i / (num - 1)]. *)
Definition sample_position (num i : Z) : Q :=
  (inject_Z i / inject_Z (num - 1))%Q.

(** Every frequency of the table is 0 (the rest) or lies between 20 and
    4979 Hz. *)
Definition frequency_range_ok (e : string * Q) : bool :=
  Qeq_bool e.2 0 || (Qle_bool 20 e.2 && Qle_bool e.2 4979).

(** Sample [i] of the wave of [create_note]. *)
Definition note_sample (frequency duration : Q) (i : Z) : Z :=
  astype_int16
    (IZR MAX_AMPLITUDE
     * sin (2 * PI * Q2R frequency
            * Q2R (linspace_at 0 duration SOUND_ARRAY_LEN i)))%R.

(** The envelope [apply_adsr] builds, sample by sample, when the three
    phases fit into the wave one after the other: the attack ramp, the decay
    ramp, zeros, the release ramp. *)
Definition envelope_at (total_length attack_length decay_length
    release_length : Z) (sustain : Q) (i : Z) : Q :=
  if i <? attack_length then linspace_at 0 1 attack_length i
  else if i <? attack_length + decay_length
  then linspace_at 1 sustain decay_length (i - attack_length)
  else if i <? total_length - release_length then 0%Q
  else linspace_at sustain 0 release_length
         (i - (total_length - release_length)).

(** A match the loop of [generate_melody] gets through: the note is in the
    table and the duration text converts. *)
Definition playable (m : unicode * unicode) : Prop :=
  is_Some (NOTES !! utf8 m.1) /\ is_ok (note_duration m.2).

(** One round of the loop of [generate_melody] on [combined_wave]. *)
Definition melody_step (acc : option (list Z)) (wave : list Z)
  : option (list Z) :=
  Some match acc with
       | None => wave
       | Some c => int16_add c wave
       end.

(** The sum of the samples at index [i] over a list of waves. *)
Definition column_sum (i : nat) (waves : list (list Z)) : Z :=
  foldr (fun w acc => default 0 (w !! i) + acc) 0 waves.

(** Closes "the wave has a nonzero sample" on a literal wave. *)
Ltac has_sample x :=
  exists x; split;
  [ repeat first [apply list_elem_of_here | apply list_elem_of_further]
  | discriminate ].

(** * Properties *)

(** ** Helper lemmas *)

Lemma Qltb_lt (x y : Q) : Qltb x y = true -> (x < y)%Q.
Proof. unfold Qltb, Qlt. apply Z.ltb_lt. Qed.

Lemma length_linspace_samples (start stop : Q) (num : Z) :
  Z.of_nat (length (linspace_samples start stop num)) = Z.max 0 num.
Proof.
  unfold linspace_samples. rewrite length_fmap, length_seqZ. lia.
Qed.

Lemma nat_length_linspace_samples (start stop : Q) (num : Z) :
  length (linspace_samples start stop num) = Z.to_nat num.
Proof. unfold linspace_samples. rewrite length_fmap. apply length_seqZ. Qed.

Lemma lookup_linspace_samples (start stop : Q) (num : Z) (j : nat) :
  Z.of_nat j < num ->
  linspace_samples start stop num !! j
  = Some (linspace_at start stop num (Z.of_nat j)).
Proof.
  intros Hj. unfold linspace_samples.
  rewrite list_lookup_fmap, lookup_seqZ_lt by lia.
  rewrite Z.add_0_l. reflexivity.
Qed.

Lemma linspace_at_start (start stop : Q) (num : Z) :
  1 <= num -> (linspace_at start stop num 0 == start)%Q.
Proof.
  intros Hnum. unfold linspace_at.
  destruct (Z.ltb_spec 1 num) as [H1|H1], (Z.eqb_spec 0 (num - 1)) as [H2|H2];
    try lia; simpl; destruct (0 <? num - 1); unfold Qdiv; ring.
Qed.

Lemma linspace_at_stop (start stop : Q) (num : Z) :
  2 <= num -> linspace_at start stop num (num - 1) = stop.
Proof.
  intros Hnum. unfold linspace_at.
  destruct (Z.ltb_spec 1 num) as [H1|H1]; [|lia].
  rewrite Z.eqb_refl. reflexivity.
Qed.

Lemma linspace_ok (start stop : Q) (num : Z) :
  0 <= num -> linspace start stop num = ok (linspace_samples start stop num).
Proof.
  intros Hnum. unfold linspace.
  destruct (Z.ltb_spec num 0) as [Hneg|_]; [lia | reflexivity].
Qed.

Lemma linspace_neg (start stop : Q) (num : Z) :
  num < 0 -> raises (linspace start stop num).
Proof.
  intros Hnum. unfold linspace.
  destruct (Z.ltb_spec num 0) as [_|Hpos]; [eexists; reflexivity | lia].
Qed.

Lemma ok_inj {A} (a b : A) : ok a = ok b -> a = b.
Proof. intros [= ->]. reflexivity. Qed.

Lemma bind_ok_inv {A B} (m : result A) (k : A -> result B) (b : B) :
  bind m k = ok b -> exists a, m = ok a /\ k a = ok b.
Proof. destruct m as [e|a]; [discriminate | eauto]. Qed.

Lemma raises_bind {A B} (m : result A) (k : A -> result B) :
  (forall a, m = ok a -> raises (k a)) -> raises (bind m k).
Proof.
  intros Hk. destruct m as [e|a]; [eexists; reflexivity | apply Hk; reflexivity].
Qed.

Lemma raises_bind_l {A B} (m : result A) (k : A -> result B) :
  raises m -> raises (bind m k).
Proof. intros [e ->]. exists e. reflexivity. Qed.

Lemma linspace_ok_inv (start stop : Q) (num : Z) (ramp : list Q) :
  linspace start stop num = ok ramp ->
  0 <= num /\ ramp = linspace_samples start stop num.
Proof.
  unfold linspace. destruct (Z.ltb_spec num 0) as [Hneg|Hpos]; [discriminate|].
  intros <-%ok_inj. split; [exact Hpos | reflexivity].
Qed.

Lemma NOTES_lookup_items (note : string) (frequency : Q) :
  NOTES !! note = Some frequency -> (note, frequency) ∈ NOTES_items.
Proof. apply elem_of_list_to_map_2. Qed.

(** ** The note table *)

Lemma octave_order_table_true : octave_order_table = true.
Proof. vm_compute. reflexivity. Qed.

(** C8. For two table entries of one pitch (letter with optional sharp)
    whose octave digits are m < n, both frequencies are positive and the
    lower octave has the strictly smaller one; "a4" and "a5" are within
    1e-2 of 440 and 880, the former smaller. *)
Theorem frequency_increasing_with_octave :
  (forall (n1 n2 pitch : string) (o1 o2 : N) (f1 f2 : Q),
      note_parts n1 = Some (pitch, o1) ->
      note_parts n2 = Some (pitch, o2) ->
      (o1 < o2)%N ->
      NOTES !! n1 = Some f1 ->
      NOTES !! n2 = Some f2 ->
      (0 < f1 /\ 0 < f2 /\ f1 < f2)%Q)
  /\ exists f4 f5 : Q,
      NOTES !! "a4" = Some f4 /\ NOTES !! "a5" = Some f5 /\
      (Qabs (f4 - 440) <= 1 / 100 /\ Qabs (f5 - 880) <= 1 / 100 /\ f4 < f5)%Q.
Proof.
  split.
  - intros n1 n2 pitch o1 o2 f1 f2 Hp1 Hp2 Hlt Hf1 Hf2.
    apply NOTES_lookup_items in Hf1, Hf2.
    pose proof octave_order_table_true as Htab.
    unfold octave_order_table in Htab.
    rewrite forallb_forall in Htab.
    apply list_elem_of_In in Hf1, Hf2.
    specialize (Htab _ Hf1). rewrite forallb_forall in Htab.
    specialize (Htab _ Hf2). unfold octave_order_ok in Htab. simpl in Htab.
    rewrite Hp1, Hp2, String.eqb_refl in Htab.
    apply N.ltb_lt in Hlt. rewrite Hlt in Htab. simpl in Htab.
    apply andb_prop in Htab as [Htab H12].
    apply andb_prop in Htab as [H1 H2].
    auto using Qltb_lt.
  - exists 440.0000%Q, 880.0000%Q.
    split; [vm_compute; reflexivity|].
    split; [vm_compute; reflexivity|].
    repeat split; vm_compute; congruence.
Qed.

Lemma frequency_increasing_with_octave_witness :
  note_parts "c#3" = Some ("c#"%string, 3%N) /\
  note_parts "c#6" = Some ("c#"%string, 6%N) /\
  (3 < 6)%N /\
  NOTES !! "c#3" = Some 277.1826%Q /\
  NOTES !! "c#6" = Some 2217.461%Q /\
  (0 < 277.1826 /\ 0 < 2217.461 /\ 277.1826 < 2217.461)%Q.
Proof.
  assert (H3 : NOTES !! "c#3" = Some 277.1826%Q) by (vm_compute; reflexivity).
  assert (H6 : NOTES !! "c#6" = Some 2217.461%Q) by (vm_compute; reflexivity).
  repeat (split; [first [reflexivity | assumption] |]).
  apply (proj1 frequency_increasing_with_octave "c#3" "c#6" "c#" 3%N 6%N);
    first [reflexivity | assumption].
Defined.

(** ** Wave-shape conversion *)

Lemma convert_wave_type_triangular (wave : list Q) :
  convert_wave_type wave "triangular" =
  ok (triangular_sample <$> linspace_samples 0 1 (Z.of_nat (length wave))).
Proof.
  unfold convert_wave_type. rewrite linspace_ok by lia. reflexivity.
Qed.

Lemma convert_wave_type_square (wave : list Q) :
  convert_wave_type wave "square" = ok (square_sample <$> wave).
Proof.
  unfold convert_wave_type. rewrite linspace_ok by lia. reflexivity.
Qed.

(** C7. Any shape other than 'triangular' and 'square' makes
    convert_wave_type raise its ValueError (the spec's
    UnsupportedWaveTypeError), whatever the wave; the two supported shapes
    return a wave. *)
Theorem convert_wave_type_unsupported (wave : list Q) (wave_type : string) :
  (wave_type <> "triangular"%string -> wave_type <> "square"%string ->
   convert_wave_type wave wave_type = raise unsupported_wave_type)
  /\ is_ok (convert_wave_type wave "triangular")
  /\ is_ok (convert_wave_type wave "square").
Proof.
  split; [|split].
  - intros Htri Hsq. unfold convert_wave_type.
    rewrite linspace_ok by lia. simpl.
    destruct (decide (wave_type = "triangular"%string)); [contradiction|].
    destruct (decide (wave_type = "square"%string)); [contradiction|].
    reflexivity.
  - rewrite convert_wave_type_triangular. eexists; reflexivity.
  - rewrite convert_wave_type_square. eexists; reflexivity.
Qed.

Lemma convert_wave_type_unsupported_witness :
  convert_wave_type [1%Q; (-2)%Q; 0%Q] "bogus" = raise unsupported_wave_type.
Proof.
  apply (proj1 (convert_wave_type_unsupported [1%Q; (-2)%Q; 0%Q] "bogus"));
    discriminate.
Defined.

Lemma triangular_sample_bound (x : Q) :
  (Qabs (triangular_sample x) <= inject_Z MAX_AMPLITUDE)%Q.
Proof.
  unfold triangular_sample.
  set (fl := Qfloor (x + 0.5)).
  assert (Hlo : (inject_Z fl <= x + 0.5)%Q) by apply Qfloor_le.
  assert (Hhi : (x + 0.5 < inject_Z (fl + 1))%Q) by apply Qlt_floor.
  rewrite inject_Z_plus in Hhi.
  set (y := (x - inject_Z fl)%Q).
  assert (Hy : (- (1 # 2) <= y /\ y <= 1 # 2)%Q).
  { unfold y. change (inject_Z 1) with 1%Q in Hhi. split; lra. }
  assert (Hmax : (0 <= inject_Z MAX_AMPLITUDE)%Q) by (vm_compute; congruence).
  assert (Ha : (0 <= Qabs (2 * y) /\ Qabs (2 * y) <= 1)%Q).
  { split; [apply Qabs_nonneg|]. apply Qabs_Qle_condition. lra. }
  rewrite Qabs_Qmult. rewrite (Qabs_pos (inject_Z MAX_AMPLITUDE)) by exact Hmax.
  assert (Hb : (Qabs (2 * Qabs (2 * y) - 1) <= 1)%Q).
  { apply Qabs_Qle_condition. lra. }
  rewrite <- (Qmult_1_l (inject_Z MAX_AMPLITUDE)) at 2.
  apply Qmult_le_compat_r; assumption.
Qed.

Lemma Qfloor_unique (q : Q) (z : Z) :
  (inject_Z z <= q)%Q -> (q < inject_Z (z + 1))%Q -> Qfloor q = z.
Proof.
  intros Hlo Hhi.
  pose proof (Qfloor_le q) as H1. pose proof (Qlt_floor q) as H2.
  assert (H3 : z < Qfloor q + 1).
  { rewrite Zlt_Qlt. eapply Qle_lt_trans; eassumption. }
  assert (H4 : Qfloor q < z + 1).
  { rewrite Zlt_Qlt. eapply Qle_lt_trans; eassumption. }
  lia.
Qed.

(** The ramp in closed form: over the first half of [0, 1] it rises from
    -MAX_AMPLITUDE to MAX_AMPLITUDE, over the second half it falls back. *)
Lemma triangular_sample_rising (x : Q) :
  (0 <= x)%Q -> (x < 1 # 2)%Q ->
  (triangular_sample x == inject_Z MAX_AMPLITUDE * (4 * x - 1))%Q.
Proof.
  intros H0 H1. unfold triangular_sample.
  rewrite (Qfloor_unique (x + 0.5) 0)
    by (change (inject_Z (0 + 1)) with 1%Q; change (inject_Z 0) with 0%Q; lra).
  change (inject_Z 0) with 0%Q.
  rewrite Qabs_pos by lra. ring.
Qed.

Lemma triangular_sample_falling (x : Q) :
  (1 # 2 <= x)%Q -> (x <= 1)%Q ->
  (triangular_sample x == inject_Z MAX_AMPLITUDE * (3 - 4 * x))%Q.
Proof.
  intros H0 H1. unfold triangular_sample.
  rewrite (Qfloor_unique (x + 0.5) 1)
    by (change (inject_Z (1 + 1)) with 2%Q; change (inject_Z 1) with 1%Q; lra).
  change (inject_Z 1) with 1%Q.
  rewrite Qabs_neg by lra. ring.
Qed.

Lemma triangular_sample_wd (x y : Q) :
  (x == y)%Q -> (triangular_sample x == triangular_sample y)%Q.
Proof.
  intros H. unfold triangular_sample.
  assert (Hfl : Qfloor (x + 0.5) = Qfloor (y + 0.5)).
  { apply Qfloor_comp. rewrite H. reflexivity. }
  rewrite Hfl, H. reflexivity.
Qed.

Lemma linspace_at_unit (num i : Z) :
  2 <= num -> 0 <= i <= num - 1 ->
  (linspace_at 0 1 num i == sample_position num i)%Q.
Proof.
  intros Hnum Hi. unfold linspace_at, sample_position.
  assert (Hd : ~ (inject_Z (num - 1) == 0)%Q).
  { change 0%Q with (inject_Z 0). rewrite inject_Z_injective. lia. }
  destruct (Z.ltb_spec 1 num) as [_|H]; [|lia].
  destruct (Z.eqb_spec i (num - 1)) as [->|_]; simpl.
  - field. exact Hd.
  - destruct (Z.ltb_spec 0 (num - 1)) as [_|H]; [|lia]. field. exact Hd.
Qed.

Lemma sample_position_range (num i : Z) :
  2 <= num -> 0 <= i <= num - 1 ->
  (0 <= sample_position num i <= 1)%Q
  /\ (2 * i < num - 1 -> (sample_position num i < 1 # 2)%Q)
  /\ (num - 1 <= 2 * i -> (1 # 2 <= sample_position num i)%Q).
Proof.
  intros Hnum Hi. unfold sample_position.
  assert (Hd : (0 < inject_Z (num - 1))%Q).
  { change 0%Q with (inject_Z 0). rewrite <- Zlt_Qlt. lia. }
  assert (H0 : (0 <= inject_Z i)%Q).
  { change 0%Q with (inject_Z 0). rewrite <- Zle_Qle. lia. }
  assert (H1 : (inject_Z i <= inject_Z (num - 1))%Q).
  { rewrite <- Zle_Qle. lia. }
  split; [split|split].
  - apply Qle_shift_div_l; [exact Hd | lra].
  - apply Qle_shift_div_r; [exact Hd | lra].
  - intros H. apply Qlt_shift_div_r; [exact Hd|].
    rewrite Zlt_Qlt, inject_Z_mult in H. change (inject_Z 2) with 2%Q in H. lra.
  - intros H. apply Qle_shift_div_l; [exact Hd|].
    rewrite Zle_Qle, inject_Z_mult in H. change (inject_Z 2) with 2%Q in H. lra.
Qed.

(** C6. The triangular conversion reads only the length of its input: two
    waves of one length give the same output.  That output is one period of
    a triangle over the whole array, scaled to MAX_AMPLITUDE: with
    x = i / (len - 1), sample i is MAX_AMPLITUDE * (4x - 1) on the first half
    and MAX_AMPLITUDE * (3 - 4x) on the second, so it rises from
    -MAX_AMPLITUDE at index 0 to MAX_AMPLITUDE in the middle and falls back
    to -MAX_AMPLITUDE at the last index; a wave of one sample gives
    -MAX_AMPLITUDE. *)
Theorem triangular_depends_on_length_only (w1 w2 : list Q) :
  length w1 = length w2 ->
  convert_wave_type w1 "triangular" = convert_wave_type w2 "triangular"
  /\ exists out : list Q,
      convert_wave_type w1 "triangular" = ok out
      /\ convert_wave_type w2 "triangular" = ok out
      /\ length out = length w1
      /\ Forall (fun y => (Qabs y <= inject_Z MAX_AMPLITUDE)%Q) out
      /\ (length w1 = 1%nat ->
          exists y : Q,
            out !! 0%nat = Some y /\ (y == - inject_Z MAX_AMPLITUDE)%Q)
      /\ (forall i : nat,
            (2 <= length w1)%nat -> (i < length w1)%nat ->
            let x := sample_position (Z.of_nat (length w1)) (Z.of_nat i) in
            exists y : Q,
              out !! i = Some y
              /\ (2 * Z.of_nat i <= Z.of_nat (length w1) - 1 ->
                  (y == inject_Z MAX_AMPLITUDE * (4 * x - 1))%Q)
              /\ (Z.of_nat (length w1) - 1 <= 2 * Z.of_nat i ->
                  (y == inject_Z MAX_AMPLITUDE * (3 - 4 * x))%Q)).
Proof.
  intros Hlen. split.
  - rewrite !convert_wave_type_triangular, Hlen. reflexivity.
  - eexists. split; [apply convert_wave_type_triangular|].
    split; [rewrite convert_wave_type_triangular, Hlen; reflexivity|].
    set (n := Z.of_nat (length w1)).
    assert (Hat : forall j : nat, Z.of_nat j < n ->
              (triangular_sample <$> linspace_samples 0 1 n) !! j
              = Some (triangular_sample (linspace_at 0 1 n (Z.of_nat j)))).
    { intros j Hj. rewrite list_lookup_fmap, lookup_linspace_samples by exact Hj.
      reflexivity. }
    split; [|split; [|split]].
    + apply Nat2Z.inj. rewrite length_fmap, length_linspace_samples. lia.
    + apply Forall_fmap, Forall_forall. intros x _.
      apply triangular_sample_bound.
    + intros H1. eexists. split; [apply Hat; lia|].
      rewrite (triangular_sample_wd _ 0); [reflexivity|].
      apply linspace_at_start. lia.
    + intros i Hn Hi x. eexists. split; [apply Hat; lia|].
      assert (Hx : (linspace_at 0 1 n (Z.of_nat i) == x)%Q)
        by (apply linspace_at_unit; lia).
      destruct (sample_position_range n (Z.of_nat i)) as ([Hx0 Hx1] & Hlo & Hhi);
        [lia | lia |]. fold x in Hx0, Hx1, Hlo, Hhi.
      rewrite (triangular_sample_wd _ x Hx). split.
      * intros Hrise. destruct (Z.eq_dec (2 * Z.of_nat i) (n - 1)) as [Hmid|Hne].
        -- rewrite triangular_sample_falling by (try apply Hhi; lia || assumption).
           assert (Hhalf : (x == 1 # 2)%Q).
           { unfold x, sample_position. rewrite <- Hmid, inject_Z_mult.
             change (inject_Z 2) with 2%Q. field.
             change 0%Q with (inject_Z 0). rewrite inject_Z_injective. lia. }
           rewrite Hhalf. reflexivity.
        -- apply triangular_sample_rising; [exact Hx0 | apply Hlo; lia].
      * intros Hfall. apply triangular_sample_falling; [apply Hhi; lia | exact Hx1].
Qed.

Lemma triangular_depends_on_length_only_witness :
  convert_wave_type [100%Q; (-7)%Q; 3%Q; 0%Q; 12%Q] "triangular" =
  convert_wave_type [1%Q; 1%Q; 1%Q; 1%Q; 1%Q] "triangular".
Proof.
  apply (proj1 (triangular_depends_on_length_only
                  [100%Q; (-7)%Q; 3%Q; 0%Q; 12%Q]
                  [1%Q; 1%Q; 1%Q; 1%Q; 1%Q] eq_refl)).
Defined.

(** ** Note generation *)

Lemma create_note_known (note : string) (duration frequency : Q) :
  NOTES !! note = Some frequency ->
  create_note note duration =
  ok (astype_int16 <$>
        get_normed_sin (linspace_samples 0 duration SOUND_ARRAY_LEN) frequency).
Proof.
  intros Hnote. unfold create_note.
  rewrite linspace_ok by (unfold SOUND_ARRAY_LEN, SAMPLING_RATE, DURATION_SECONDS; lia).
  unfold get_soundwave. cbn [bind ok]. rewrite Hnote. reflexivity.
Qed.

Lemma create_note_unknown (note : string) (duration : Q) :
  NOTES !! note = None -> create_note note duration = raise (KeyError note).
Proof.
  intros Hnote. unfold create_note.
  rewrite linspace_ok by (unfold SOUND_ARRAY_LEN, SAMPLING_RATE, DURATION_SECONDS; lia).
  unfold get_soundwave. cbn [bind ok]. rewrite Hnote. reflexivity.
Qed.

Lemma create_note_ok_length (note : string) (duration : Q) (wave : list Z) :
  create_note note duration = ok wave ->
  Z.of_nat (length wave) = SOUND_ARRAY_LEN.
Proof.
  intros Hwave. destruct (NOTES !! note) as [frequency|] eqn:Hnote.
  - rewrite (create_note_known _ _ _ Hnote) in Hwave.
    apply ok_inj in Hwave. subst wave. unfold get_normed_sin.
    rewrite !length_fmap, length_linspace_samples.
    unfold SOUND_ARRAY_LEN, SAMPLING_RATE, DURATION_SECONDS. lia.
  - rewrite (create_note_unknown _ _ Hnote) in Hwave. discriminate Hwave.
Qed.

(** C1. For a note of the table and any requested duration, create_note
    returns a wave of SAMPLING_RATE * DURATION_SECONDS = 44100 * 5 = 220500
    samples. *)
Theorem create_note_length (note : string) (duration : Q) :
  is_Some (NOTES !! note) ->
  exists wave : list Z,
    create_note note duration = ok wave
    /\ Z.of_nat (length wave) = SAMPLING_RATE * DURATION_SECONDS
    /\ Z.of_nat (length wave) = 220500.
Proof.
  intros [frequency Hnote].
  eexists. split; [apply (create_note_known _ _ _ Hnote)|].
  unfold get_normed_sin. rewrite !length_fmap, length_linspace_samples.
  unfold SOUND_ARRAY_LEN, SAMPLING_RATE, DURATION_SECONDS. lia.
Qed.

Lemma create_note_length_witness :
  is_Some (NOTES !! "a4") /\
  exists wave : list Z,
    create_note "a4" 2 = ok wave
    /\ Z.of_nat (length wave) = SAMPLING_RATE * DURATION_SECONDS
    /\ Z.of_nat (length wave) = 220500.
Proof.
  assert (Ha4 : is_Some (NOTES !! "a4")) by (eexists; vm_compute; reflexivity).
  split; [exact Ha4 | exact (create_note_length "a4" 2 Ha4)].
Defined.

(** ** Melodies *)

(** C2, as the code has it: when the pattern matches nowhere in the melody
    string, generate_melody raises nothing and returns None. *)
Theorem generate_melody_no_match (melody_str : unicode) :
  findall melody_str = [] ->
  generate_melody melody_str = ok None.
Proof.
  intros Hnone. unfold generate_melody. rewrite Hnone. reflexivity.
Qed.

Lemma generate_melody_no_match_witness :
  findall (str "xyz") = [] /\ generate_melody (str "xyz") = ok None.
Proof.
  split; [reflexivity | apply (generate_melody_no_match (str "xyz")); reflexivity].
Defined.

(** C2 as stated fails on "xyz": nothing matches, and no exception is
    raised. *)
Lemma generate_melody_xyz_not_raised :
  ~ (findall (str "xyz") = [] -> raises (generate_melody (str "xyz"))).
Proof.
  intros Hclaim. destruct (Hclaim eq_refl) as [e He].
  vm_compute in He. discriminate He.
Qed.

(** ** Slices *)

Lemma slice_index_range (len i : Z) :
  0 <= len -> 0 <= slice_index len i <= len.
Proof.
  intros Hlen. unfold slice_index.
  destruct (Z.ltb_spec i 0); lia.
Qed.

Lemma slice_bounds_range (len : Z) (start stop : option Z) (lo hi : Z) :
  0 <= len -> slice_bounds len start stop = (lo, hi) -> 0 <= lo <= hi /\ hi <= len.
Proof.
  intros Hlen Hb. unfold slice_bounds in Hb.
  injection Hb as <- <-.
  assert (Hlo : 0 <= from_option (slice_index len) 0 start <= len).
  { destruct start as [i|]; simpl; [apply slice_index_range|]; lia. }
  assert (Hhi : 0 <= from_option (slice_index len) len stop <= len).
  { destruct stop as [i|]; simpl; [apply slice_index_range|]; lia. }
  lia.
Qed.

Lemma length_slice_write (a w : list Q) (lo hi : Z) :
  0 <= lo <= hi -> hi <= Z.of_nat (length a) ->
  length w = Z.to_nat (hi - lo) ->
  length (take (Z.to_nat lo) a ++ w ++ drop (Z.to_nat hi) a) = length a.
Proof.
  intros Hlo Hhi Hw.
  rewrite !length_app, length_take, length_drop. lia.
Qed.

Lemma lookup_slice_write (a w : list Q) (lo hi : Z) (i : nat) :
  0 <= lo <= hi -> hi <= Z.of_nat (length a) ->
  length w = Z.to_nat (hi - lo) ->
  Z.of_nat i < lo \/ hi <= Z.of_nat i ->
  (take (Z.to_nat lo) a ++ w ++ drop (Z.to_nat hi) a) !! i = a !! i.
Proof.
  intros Hlo Hhi Hw [Hi|Hi].
  - rewrite lookup_app_l by (rewrite length_take; lia).
    apply lookup_take_lt. lia.
  - rewrite lookup_app_r by (rewrite length_take; lia).
    rewrite lookup_app_r by (rewrite length_take; lia).
    rewrite lookup_drop. f_equal. rewrite length_take. lia.
Qed.

(** A slice assignment that succeeds keeps the length of the array and
    every element outside the slice. *)
Lemma setitem_slice_frame (a v a' : list Q) (start stop : option Z) :
  setitem_slice a start stop v = ok a' ->
  length a' = length a
  /\ forall (i : nat) (lo hi : Z),
      slice_bounds (Z.of_nat (length a)) start stop = (lo, hi) ->
      Z.of_nat i < lo \/ hi <= Z.of_nat i -> a' !! i = a !! i.
Proof.
  unfold setitem_slice.
  destruct (slice_bounds (Z.of_nat (length a)) start stop) as [lo hi] eqn:Hb.
  apply slice_bounds_range in Hb as [Hlo Hhi]; [|lia].
  intros Hset.
  assert (Hw : exists w, length w = Z.to_nat (hi - lo) /\
             a' = take (Z.to_nat lo) a ++ w ++ drop (Z.to_nat hi) a).
  { destruct (decide (length v = Z.to_nat (hi - lo))) as [Hv|Hv].
    - injection Hset as <-. eauto.
    - destruct v as [|x [|y v]]; try discriminate Hset.
      injection Hset as <-. eexists. split; [|reflexivity].
      apply length_replicate. }
  destruct Hw as (w & Hw & ->). split.
  - apply length_slice_write; assumption.
  - intros i lo' hi' [= <- <-] Hi. apply lookup_slice_write; assumption.
Qed.

(** A value of exactly the slice's length is always accepted. *)
Lemma setitem_slice_exact (a v : list Q) (start stop : option Z) (lo hi : Z) :
  slice_bounds (Z.of_nat (length a)) start stop = (lo, hi) ->
  length v = Z.to_nat (hi - lo) ->
  setitem_slice a start stop v =
  ok (take (Z.to_nat lo) a ++ v ++ drop (Z.to_nat hi) a).
Proof.
  intros Hb Hv. unfold setitem_slice. rewrite Hb.
  destruct (decide (length v = Z.to_nat (hi - lo))); [reflexivity | contradiction].
Qed.

(** The empty value does not fit a slice that is not empty. *)
Lemma setitem_slice_empty_value (a : list Q) (start stop : option Z) (lo hi : Z) :
  slice_bounds (Z.of_nat (length a)) start stop = (lo, hi) ->
  lo < hi ->
  setitem_slice a start stop [] =
  raise (ValueError "could not broadcast input array").
Proof.
  intros Hb Hlt. unfold setitem_slice. rewrite Hb.
  destruct (decide (length (@nil Q) = Z.to_nat (hi - lo))) as [Hv|_];
    [simpl in Hv; lia | reflexivity].
Qed.

Lemma length_zeros (n : Z) : length (zeros n) = Z.to_nat n.
Proof. apply length_replicate. Qed.

Lemma lookup_zeros (n : Z) (i : nat) (x : Q) : zeros n !! i = Some x -> x = 0%Q.
Proof. unfold zeros. intros [-> _]%lookup_replicate. reflexivity. Qed.

Lemma setitem_slice_step (a v : list Q) (start stop : option Z) (lo hi : Z) :
  slice_bounds (Z.of_nat (length a)) start stop = (lo, hi) ->
  length v = Z.to_nat (hi - lo) ->
  exists a' : list Q,
    setitem_slice a start stop v = ok a'
    /\ length a' = length a
    /\ forall i : nat, Z.of_nat i < lo \/ hi <= Z.of_nat i -> a' !! i = a !! i.
Proof.
  intros Hb Hv. eexists. split; [apply (setitem_slice_exact _ _ _ _ _ _ Hb Hv)|].
  pose proof (setitem_slice_exact _ _ _ _ _ _ Hb Hv) as Hset.
  apply setitem_slice_frame in Hset as [Hlen Hframe].
  split; [exact Hlen|]. intros i Hi. exact (Hframe i lo hi Hb Hi).
Qed.

(** ** Phase lengths of the envelope *)

Lemma float_of_int_finite (n : Z) (f : float64) :
  float_of_int n = ok f -> float_finite f = true.
Proof.
  unfold float_of_int. destruct (float_finite (float_of_Z n)) eqn:Hfin;
    [|discriminate]. intros <-%ok_inj. exact Hfin.
Qed.

(** A finite float times 0.0 is a zero, and [int] of it is 0. *)
Lemma int_of_product_zero (n : Z) (f : float64) :
  float_of_int n = ok f -> int_of_product n float_zero = ok 0.
Proof.
  intros Hf. pose proof (float_of_int_finite n f Hf) as Hfin.
  unfold int_of_product. rewrite Hf. cbn [bind ok].
  destruct f; try discriminate Hfin; reflexivity.
Qed.

(** The length 0 times a finite float. *)
Lemma int_of_product_no_samples (x : float64) :
  float_finite x = true -> int_of_product 0 x = ok 0.
Proof. destruct x; try discriminate; reflexivity. Qed.

Lemma phase_length_converted (wave : list Q) (fraction : float64) (n : Z) :
  phase_length wave fraction = ok n ->
  exists f : float64, float_of_int (Z.of_nat (length wave)) = ok f.
Proof.
  unfold phase_length, int_of_product. intros (f & Hf & _)%bind_ok_inv. eauto.
Qed.

Lemma phase_length_zero (wave : list Q) (fraction : float64) (n : Z) :
  phase_length wave fraction = ok n -> phase_length wave float_zero = ok 0.
Proof.
  intros [f Hf]%phase_length_converted. exact (int_of_product_zero _ f Hf).
Qed.

(** ** Rounding

    The operations of [SpecFloat] round to nearest; what the envelope needs
    of them is an upper bound: a rounded product never exceeds the exact
    product by more than the relative error 2^-52 (plus 2^-1074 in the
    subnormal range), and stays a finite float when that bound is in the
    range of the format. *)

Lemma bpow_pos (e : Z) : (0 < bpow e)%Q.
Proof. apply Qpower_0_lt. reflexivity. Qed.

Lemma bpow_plus (a b : Z) : (bpow (a + b) == bpow a * bpow b)%Q.
Proof. apply Qpower_plus. discriminate. Qed.

Lemma bpow_le (a b : Z) : a <= b -> (bpow a <= bpow b)%Q.
Proof. intros H. apply Qpower_le_compat_l; [exact H | discriminate]. Qed.

Lemma bpow_nonneg_exp (e : Z) : 0 <= e -> (bpow e == inject_Z (2 ^ e))%Q.
Proof.
  intros He. pattern e. apply natlike_ind; [reflexivity | | exact He].
  intros x Hx IH. unfold Z.succ. rewrite bpow_plus, IH, Z.pow_add_r by lia.
  rewrite inject_Z_mult. reflexivity.
Qed.

Lemma digits2_pos_bounds (m : positive) :
  2 ^ (Z.pos (digits2_pos m) - 1) <= Z.pos m < 2 ^ Z.pos (digits2_pos m).
Proof.
  induction m as [m IH|m IH|]; cbn [digits2_pos].
  - rewrite Pos2Z.inj_succ. replace (Z.succ (Z.pos (digits2_pos m)) - 1) with (Z.succ (Z.pos (digits2_pos m) - 1)) by lia.
    rewrite !Z.pow_succ_r by lia. lia.
  - rewrite Pos2Z.inj_succ. replace (Z.succ (Z.pos (digits2_pos m)) - 1) with (Z.succ (Z.pos (digits2_pos m) - 1)) by lia.
    rewrite !Z.pow_succ_r by lia. lia.
  - simpl. lia.
Qed.

Lemma shr_1_m (mrs : shr_record) :
  0 <= shr_m mrs -> shr_m (shr_1 mrs) = shr_m mrs / 2.
Proof.
  destruct mrs as [m r s]. destruct m as [|[p|p|]|p]; cbn [shr_1 shr_m];
    intros H; try lia; Z.div_mod_to_equations; lia.
Qed.

Lemma iter_pos_shr_m (p : positive) (mrs : shr_record) :
  0 <= shr_m mrs ->
  shr_m (iter_pos shr_1 p mrs) = shr_m mrs / 2 ^ Z.pos p.
Proof.
  revert mrs. induction p as [p IH|p IH|]; intros mrs H; cbn [iter_pos].
  - assert (H1 : 0 <= shr_m (shr_1 mrs)) by (rewrite shr_1_m by exact H; apply Z.div_pos; lia).
    assert (H2 : 0 <= shr_m (iter_pos shr_1 p (shr_1 mrs))).
    { rewrite IH by exact H1. apply Z.div_pos; [exact H1 | apply Z.pow_pos_nonneg; lia]. }
    rewrite IH by exact H2. rewrite IH by exact H1. rewrite shr_1_m by exact H.
    rewrite !Z.div_div by (try apply Z.pow_pos_nonneg; lia).
    f_equal. rewrite Pos2Z.inj_xI. rewrite Z.pow_add_r, Z.pow_mul_r by lia.
    change (2 ^ 2) with 4. change (2 ^ 1) with 2.
    replace (4 ^ Z.pos p) with (2 ^ Z.pos p * 2 ^ Z.pos p).
    + ring.
    + rewrite <- Z.pow_add_r by lia. replace (Z.pos p + Z.pos p) with (2 * Z.pos p) by lia.
      rewrite Z.pow_mul_r by lia. reflexivity.
  - assert (H2 : 0 <= shr_m (iter_pos shr_1 p mrs)).
    { rewrite IH by exact H. apply Z.div_pos; [exact H | apply Z.pow_pos_nonneg; lia]. }
    rewrite IH by exact H2. rewrite IH by exact H.
    rewrite !Z.div_div by (try apply Z.pow_pos_nonneg; lia).
    f_equal. rewrite Pos2Z.inj_xO. rewrite <- Z.pow_add_r by lia. f_equal. lia.
  - rewrite shr_1_m by exact H. reflexivity.
Qed.

Lemma Zdigits2_nonneg (m : Z) : 0 <= Zdigits2 m.
Proof. destruct m; simpl; lia. Qed.

(** Shifting a mantissa to the right never increases the value. *)
Lemma fval_shift (m e k : Z) :
  0 <= m -> 0 <= k -> (fval (m / 2 ^ k) (e + k) <= fval m e)%Q.
Proof.
  intros Hm Hk. unfold fval.
  rewrite bpow_plus, (bpow_nonneg_exp k Hk).
  assert (Hp : 0 < 2 ^ k) by (apply Z.pow_pos_nonneg; lia).
  assert (Hd : m / 2 ^ k * 2 ^ k <= m).
  { rewrite Z.mul_comm. apply Z.mul_div_le. exact Hp. }
  rewrite Zle_Qle, inject_Z_mult in Hd.
  pose proof (bpow_pos e) as He.
  assert (Heq : (inject_Z (m / 2 ^ k) * (bpow e * inject_Z (2 ^ k))
                 == (inject_Z (m / 2 ^ k) * inject_Z (2 ^ k)) * bpow e)%Q) by ring.
  rewrite Heq.
  apply Qmult_le_compat_r; [exact Hd | apply Qlt_le_weak, He].
Qed.

(** [shr_fexp]: where the exponent ends, and what is left of the
    mantissa. *)
Lemma shr_fexp_spec (m e : Z) (l : location) :
  0 <= m ->
  exists (mrs' : shr_record) (e' : Z),
    shr_fexp prec emax m e l = (mrs', e')
    /\ e' = Z.max e (fexp prec emax (Zdigits2 m + e))
    /\ shr_m mrs' = m / 2 ^ (e' - e)
    /\ (e' = e -> mrs' = shr_record_of_loc m l).
Proof.
  intros Hm. unfold shr_fexp, shr.
  set (f := fexp prec emax (Zdigits2 m + e)).
  assert (Hrec : shr_m (shr_record_of_loc m l) = m) by (destruct l as [|[]]; reflexivity).
  destruct (f - e) as [|p|p] eqn:Hn.
  - eexists _, _. split; [reflexivity|].
    assert (f = e) by lia. split; [lia|].
    replace (e - e) with 0 by lia. rewrite Z.div_1_r. auto.
  - eexists _, _. split; [reflexivity|].
    assert (Hf : f = e + Z.pos p) by lia. split; [lia|].
    rewrite iter_pos_shr_m by (rewrite Hrec; exact Hm). rewrite Hrec.
    split; [f_equal; f_equal; lia | intros; lia].
  - eexists _, _. split; [reflexivity|].
    assert (f < e) by lia. split; [lia|].
    replace (e - e) with 0 by lia. rewrite Z.div_1_r. auto.
Qed.

Lemma round_nearest_even_bounds (x : Z) (l : location) :
  x <= round_nearest_even x l <= x + 1.
Proof. destruct l as [|[]]; simpl; try lia. destruct (Z.even x); lia. Qed.

Lemma fexp_bound (d e : Z) (v : Q) :
  (bpow (d - 1 + e) <= v)%Q ->
  (bpow (fexp prec emax (d + e)) <= v * eps + tiny)%Q.
Proof.
  intros Hv. unfold fexp, emin, prec, emax, eps, tiny.
  pose proof (bpow_pos (-1074)) as Ht.
  assert (He : (0 < bpow (-52))%Q) by apply bpow_pos.
  destruct (Z.max_spec (d + e - 53) (3 - 1024 - 53)) as [[_ ->]|[_ ->]].
  - change (3 - 1024 - 53) with (-1074).
    assert (0 <= v)%Q by (pose proof (bpow_pos (d - 1 + e)); lra).
    assert (0 <= v * bpow (-52))%Q by (apply Qmult_le_0_compat; lra). lra.
  - replace (d + e - 53) with ((d - 1 + e) + (-52)) by lia.
    rewrite bpow_plus.
    assert (bpow (d - 1 + e) * bpow (-52) <= v * bpow (-52))%Q
      by (apply Qmult_le_compat_r; lra). lra.
Qed.

(** The rounding of a positive mantissa: never a NaN, and never above the
    exact value by more than the relative error 2^-52 plus 2^-1074. *)
Lemma binary_round_aux_bound (sx : bool) (mx : positive) (ex : Z) :
  exists (m2 e2 : Z),
    0 <= m2
    /\ binary_round_aux prec emax sx (Z.pos mx) ex loc_Exact
       = match m2 with
         | Z0 => S754_zero sx
         | Z.pos m => if e2 <=? emax - prec then S754_finite sx m e2
                      else S754_infinity sx
         | Z.neg _ => S754_nan
         end
    /\ (fval m2 e2 <= fval (Z.pos mx) ex * (1 + eps) + tiny)%Q.
Proof.
  unfold binary_round_aux.
  destruct (shr_fexp_spec (Z.pos mx) ex loc_Exact) as (mrs1 & e1 & -> & He1 & Hm1 & Hsame);
    [lia|].
  set (m1 := round_nearest_even (shr_m mrs1) (loc_of_shr_record mrs1)).
  assert (H0 : 0 <= shr_m mrs1).
  { rewrite Hm1. apply Z.div_pos; [lia|]. apply Z.pow_pos_nonneg; lia. }
  pose proof (round_nearest_even_bounds (shr_m mrs1) (loc_of_shr_record mrs1)) as Hr.
  fold m1 in Hr.
  destruct (shr_fexp_spec m1 e1 loc_Exact) as (mrs2 & e2 & -> & He2 & Hm2 & _); [lia|].
  exists (shr_m mrs2), e2.
  assert (H2 : 0 <= shr_m mrs2).
  { rewrite Hm2. apply Z.div_pos; [lia|]. apply Z.pow_pos_nonneg; lia. }
  split; [exact H2|]. split.
  { destruct (shr_m mrs2) as [|p|p]; [reflexivity | reflexivity | lia]. }
  (* the value *)
  assert (Hv2 : (fval (shr_m mrs2) e2 <= fval m1 e1)%Q).
  { rewrite Hm2. replace e2 with (e1 + (e2 - e1)) at 2 by lia.
    apply fval_shift; lia. }
  assert (Hv1 : (fval (shr_m mrs1) e1 <= fval (Z.pos mx) ex)%Q).
  { rewrite Hm1. replace e1 with (ex + (e1 - ex)) at 2 by lia.
    apply fval_shift; lia. }
  pose proof (bpow_pos e1) as Hb1. pose proof (bpow_pos (-1074)) as Ht.
  pose proof (bpow_pos (-52)) as He.
  assert (Hp : (0 < fval (Z.pos mx) ex)%Q).
  { unfold fval. apply Qmult_lt_0_compat; [reflexivity | apply bpow_pos]. }
  assert (Hpe : (0 <= fval (Z.pos mx) ex * eps)%Q).
  { apply Qmult_le_0_compat; [lra | unfold eps; lra]. }
  eapply Qle_trans; [exact Hv2|].
  destruct (Z.eq_dec e1 ex) as [Heq|Hne].
  - (* no shift: the mantissa is kept *)
    assert (m1 = Z.pos mx) as ->.
    { unfold m1. rewrite (Hsame Heq). reflexivity. }
    rewrite Heq. unfold tiny. lra.
  - (* shifted to the exponent of the format *)
    assert (Hf : e1 = fexp prec emax (Z.pos (digits2_pos mx) + ex)).
    { simpl Zdigits2 in He1. lia. }
    assert (Hm : (fval m1 e1 <= fval (shr_m mrs1) e1 + bpow e1)%Q).
    { unfold fval. assert (Hi : (inject_Z m1 <= inject_Z (shr_m mrs1) + 1)%Q).
      { change 1%Q with (inject_Z 1). rewrite <- inject_Z_plus, <- Zle_Qle. lia. }
      assert ((inject_Z m1) * bpow e1 <= (inject_Z (shr_m mrs1) + 1) * bpow e1)%Q
        by (apply Qmult_le_compat_r; lra). lra. }
    assert (Hb : (bpow e1 <= fval (Z.pos mx) ex * eps + tiny)%Q).
    { rewrite Hf. apply fexp_bound. unfold fval. rewrite bpow_plus.
      apply Qmult_le_compat_r; [|apply Qlt_le_weak, bpow_pos].
      rewrite bpow_nonneg_exp by lia. rewrite <- Zle_Qle.
      apply digits2_pos_bounds. }
    lra.
Qed.

Lemma fval_pos (m : positive) (e : Z) : (0 < fval (Z.pos m) e)%Q.
Proof. unfold fval. apply Qmult_lt_0_compat; [reflexivity | apply bpow_pos]. Qed.

Lemma fval_at_least (m : positive) (e e0 : Z) :
  e0 <= e -> (bpow e0 <= fval (Z.pos m) e)%Q.
Proof.
  intros He. unfold fval. pose proof (bpow_le e0 e He) as Hb.
  pose proof (bpow_pos e) as Hp.
  assert (Hm : (1 <= inject_Z (Z.pos m))%Q).
  { change 1%Q with (inject_Z 1). rewrite <- Zle_Qle. lia. }
  assert ((1 * bpow e <= inject_Z (Z.pos m) * bpow e)%Q)
    by (apply Qmult_le_compat_r; lra). lra.
Qed.

(** A rounding whose bound stays in the range of the format is a zero or a
    finite float below the bound. *)
Lemma binary_round_aux_below (mx : positive) (ex : Z) (b : Q) :
  (fval (Z.pos mx) ex * (1 + eps) + tiny <= b)%Q ->
  (b < bpow (emax - prec + 1))%Q ->
  below (binary_round_aux prec emax false (Z.pos mx) ex loc_Exact) b.
Proof.
  intros Hb Hrange.
  destruct (binary_round_aux_bound false mx ex) as (m2 & e2 & H2 & -> & Hv).
  destruct m2 as [|m2|m2]; [left; eauto | | lia].
  destruct (Z.leb_spec e2 (emax - prec)) as [Hle|Hgt].
  - right. exists m2, e2. split; [reflexivity | lra].
  - exfalso.
    pose proof (fval_at_least m2 e2 (emax - prec + 1) ltac:(lia)). lra.
Qed.

Lemma pos_iter_xO (m d : positive) :
  Z.pos (Pos.iter xO m d) = Z.pos m * 2 ^ Z.pos d.
Proof.
  induction d as [|d IH] using Pos.peano_ind.
  - simpl. lia.
  - rewrite Pos.iter_succ, Pos2Z.inj_xO, IH, Pos2Z.inj_succ, Z.pow_succ_r by lia.
    ring.
Qed.

Lemma shl_align_value (mx : positive) (ex ex' : Z) :
  (fval (Z.pos (shl_align mx ex ex').1) (shl_align mx ex ex').2
   == fval (Z.pos mx) ex)%Q.
Proof.
  unfold shl_align. destruct (ex' - ex) as [|d|d] eqn:Hd; try reflexivity.
  cbn [fst snd]. unfold fval. rewrite pos_iter_xO, inject_Z_mult.
  rewrite <- (bpow_nonneg_exp (Z.pos d)) by lia.
  replace ex with (Z.pos d + ex') by lia. rewrite bpow_plus. ring.
Qed.

(** The float of a positive integer. *)
Lemma float_of_Z_below (n : positive) (b : Q) :
  (inject_Z (Z.pos n) * (1 + eps) + tiny <= b)%Q ->
  (b < bpow (emax - prec + 1))%Q ->
  below (binary_normalize prec emax (Z.pos n) 0 false) b.
Proof.
  intros Hb Hrange. cbn [binary_normalize]. unfold binary_round.
  pose proof (shl_align_value n 0 (fexp prec emax (Z.pos (digits2_pos n) + 0)))
    as Hval.
  destruct (shl_align n 0 (fexp prec emax (Z.pos (digits2_pos n) + 0)))
    as [mz ez]. cbn [fst snd] in Hval.
  apply binary_round_aux_below; [|exact Hrange].
  rewrite Hval. unfold fval. change (bpow 0) with 1%Q. lra.
Qed.

(** [int] of a float that is +0.0 or positive. *)
Lemma py_int_below (x : float64) (b : Q) :
  below x b ->
  exists z : Z, py_int x = ok z /\ 0 <= z /\ (inject_Z z <= Qmax 0 b)%Q.
Proof.
  intros [[s ->] | (m & e & -> & Hv)].
  - exists 0. split; [reflexivity|]. split; [lia | apply Q.le_max_l].
  - eexists. split; [reflexivity|]. cbn [cond_Zopp].
    assert (Hz : 0 <= Z.shiftl (Z.pos m) e /\
                 (inject_Z (Z.shiftl (Z.pos m) e) <= fval (Z.pos m) e)%Q).
    { destruct (Z.le_gt_cases 0 e) as [He|He].
      - rewrite Z.shiftl_mul_pow2 by lia. split.
        + apply Z.mul_nonneg_nonneg; [lia|]. apply Z.pow_nonneg. lia.
        + unfold fval. rewrite inject_Z_mult, bpow_nonneg_exp by lia. lra.
      - rewrite <- (Z.opp_involutive e), Z.shiftl_opp_r at 1 2.
        rewrite Z.shiftr_div_pow2 by lia. split.
        + apply Z.div_pos; [lia|]. apply Z.pow_pos_nonneg; lia.
        + pose proof (fval_shift (Z.pos m) e (- e) ltac:(lia) ltac:(lia)) as Hs.
          replace (e + - e) with 0 in Hs by lia.
          unfold fval at 1 in Hs. change (bpow 0) with 1%Q in Hs. lra. }
    destruct Hz as [Hz0 Hzv]. split; [exact Hz0|].
    eapply Qle_trans; [exact Hzv|]. eapply Qle_trans; [exact Hv|].
    apply Q.le_max_r.
Qed.

(** The product of a float that is +0.0 or positive with a finite float that
    is not negative. *)
Lemma SFmul_below (f a : float64) (bf b : Q) :
  below f bf ->
  float_finite a = true ->
  (0 <= float_value a)%Q ->
  (bf * float_value a * (1 + eps) + tiny <= b)%Q ->
  (b < bpow (emax - prec + 1))%Q ->
  below (SFmul prec emax f a) b.
Proof.
  intros Hf Hfin Ha Hb Hrange.
  destruct a as [sa|sa| |sa ma ea]; try discriminate Hfin.
  - destruct Hf as [[s ->] | (m & e & -> & _)]; left; eexists; reflexivity.
  - destruct sa.
    { exfalso. simpl in Ha. pose proof (fval_pos ma ea). lra. }
    destruct Hf as [[s ->] | (m & e & -> & Hv)].
    + left. eexists. reflexivity.
    + cbn [SFmul xorb]. apply binary_round_aux_below; [|exact Hrange].
      assert (Hprod : (fval (Z.pos (m * ma)) (e + ea)
                       == fval (Z.pos m) e * fval (Z.pos ma) ea)%Q).
      { unfold fval. rewrite Pos2Z.inj_mul, inject_Z_mult, bpow_plus. ring. }
      rewrite Hprod. cbn [float_value] in Hb, Ha.
      pose proof (fval_pos m e). pose proof (fval_pos ma ea).
      assert (fval (Z.pos m) e * fval (Z.pos ma) ea <= bf * fval (Z.pos ma) ea)%Q
        by (apply Qmult_le_compat_r; lra).
      assert (He : (0 < eps)%Q) by apply bpow_pos.
      assert ((fval (Z.pos m) e * fval (Z.pos ma) ea) * (1 + eps)
              <= (bf * fval (Z.pos ma) ea) * (1 + eps))%Q
        by (apply Qmult_le_compat_r; lra).
      lra.
Qed.

Lemma eps_value : (eps == 1 # 4503599627370496)%Q.
Proof. vm_compute. reflexivity. Qed.

Lemma tiny_small : (0 < tiny <= eps)%Q.
Proof.
  split; [apply bpow_pos | apply bpow_le; lia].
Qed.

Lemma range_large : (4503599627370496 <= bpow (emax - prec + 1))%Q.
Proof.
  eapply Qle_trans; [|apply (bpow_le 52); vm_compute; discriminate].
  vm_compute. discriminate.
Qed.

(** [int(n * x)] for a length of at most 2^50 and a fraction in [0, 1]: the
    call returns, the length is not negative, and it is at most
    n * x * (1 + 2^-52)^2 plus a negligible amount. *)
Lemma int_of_product_below (n : Z) (x : float64) :
  1 <= n <= 2 ^ 50 ->
  float_finite x = true ->
  (0 <= float_value x <= 1)%Q ->
  exists z : Z,
    int_of_product n x = ok z
    /\ 0 <= z
    /\ (inject_Z z <= slack n * float_value x + tiny)%Q.
Proof.
  intros Hn Hfin [Hx0 Hx1].
  pose proof eps_value as He. pose proof tiny_small as [Ht0 Ht1].
  pose proof range_large as Hbig.
  assert (Hn1 : (1 <= inject_Z n)%Q).
  { change 1%Q with (inject_Z 1). rewrite <- Zle_Qle. lia. }
  assert (Hn2 : (inject_Z n <= 1125899906842624)%Q).
  { change 1125899906842624%Q with (inject_Z (2 ^ 50)). rewrite <- Zle_Qle. lia. }
  set (bL := (inject_Z n * (1 + eps) + tiny)%Q).
  assert (HbL : (0 <= bL <= 2251799813685248)%Q).
  { unfold bL. rewrite He in *. split; lra. }
  destruct n as [|n|n]; try lia.
  assert (Hf : below (float_of_Z (Z.pos n)) bL).
  { apply float_of_Z_below; [unfold bL; lra | lra]. }
  unfold int_of_product, float_of_int.
  assert (Hff : float_finite (float_of_Z (Z.pos n)) = true).
  { destruct Hf as [[s ->] | (m & e & -> & _)]; reflexivity. }
  rewrite Hff. cbn [bind ok].
  set (b := (bL * float_value x * (1 + eps) + tiny)%Q).
  assert (HP : (0 <= bL * float_value x <= bL)%Q).
  { split; [apply Qmult_le_0_compat; lra|].
    assert (H1 : (float_value x * bL <= 1 * bL)%Q)
      by (apply Qmult_le_compat_r; lra). lra. }
  assert (Hb : (0 <= b <= 4503599627370495)%Q).
  { unfold b. rewrite He in *. split; lra. }
  assert (Hm : below (SFmul prec emax (float_of_Z (Z.pos n)) x) b).
  { apply (SFmul_below _ _ bL); [exact Hf | exact Hfin | exact Hx0 | unfold b; lra | lra]. }
  destruct (py_int_below _ _ Hm) as (z & Hz & Hz0 & Hzb).
  exists z. split; [exact Hz|]. split; [exact Hz0|].
  rewrite Q.max_r in Hzb by lra. unfold slack. fold bL. unfold b in Hzb. lra.
Qed.

(** With fractions in [0, 1] whose sum is below 1, on a wave of at most 2^50
    samples, the three lengths are not negative and fit into the wave. *)
Lemma phase_lengths_fit (wave : list Q) (attack decay release : float64) :
  wave <> [] ->
  Z.of_nat (length wave) <= 2 ^ 50 ->
  float_finite attack = true ->
  float_finite decay = true ->
  float_finite release = true ->
  (0 <= float_value attack <= 1)%Q ->
  (0 <= float_value decay <= 1)%Q ->
  (0 <= float_value release <= 1)%Q ->
  (float_value attack + float_value decay + float_value release < 1)%Q ->
  exists A D Rl : Z,
    phase_length wave attack = ok A
    /\ phase_length wave decay = ok D
    /\ phase_length wave release = ok Rl
    /\ 0 <= A /\ 0 <= D /\ 0 <= Rl
    /\ A + D + Rl <= Z.of_nat (length wave).
Proof.
  intros Hne Hlen Hfa Hfd Hfr Ha Hd Hr Hsum.
  assert (HL : 1 <= Z.of_nat (length wave) <= 2 ^ 50).
  { destruct wave; [contradiction | simpl in *; lia]. }
  set (L := Z.of_nat (length wave)) in *.
  destruct (int_of_product_below L attack HL Hfa Ha) as (A & HpA & HA & HbA).
  destruct (int_of_product_below L decay HL Hfd Hd) as (D & HpD & HD & HbD).
  destruct (int_of_product_below L release HL Hfr Hr) as (Rl & HpR & HR & HbR).
  exists A, D, Rl. unfold phase_length. fold L.
  repeat (split; [assumption|]).
  pose proof eps_value as He. pose proof tiny_small as [Ht0 Ht1].
  assert (Hn1 : (1 <= inject_Z L)%Q).
  { change 1%Q with (inject_Z 1). rewrite <- Zle_Qle. lia. }
  assert (Hn2 : (inject_Z L <= 1125899906842624)%Q).
  { change 1125899906842624%Q with (inject_Z (2 ^ 50)). rewrite <- Zle_Qle. lia. }
  assert (Hc : (0 <= slack L)%Q).
  { unfold slack. rewrite He in *. apply Qmult_le_0_compat; lra. }
  assert (Hs : (slack L * (float_value attack + float_value decay
                           + float_value release) <= slack L * 1)%Q).
  { rewrite !(Qmult_comm (slack L)). apply Qmult_le_compat_r; lra. }
  assert (Hsl : (slack L < inject_Z L + (3 # 4))%Q).
  { unfold slack. rewrite He in *. lra. }
  apply Z.lt_succ_r. rewrite Zlt_Qlt. unfold Z.succ.
  rewrite !inject_Z_plus. change (inject_Z 1) with 1%Q.
  rewrite He in Ht1. lra.
Qed.

(** ** The ADSR envelope *)

(** [apply_adsr] once its three lengths are known. *)
Lemma apply_adsr_lengths (wave : list Q) (attack decay : float64) (sustain : Q)
    (release : float64) (A D Rl : Z) :
  phase_length wave attack = ok A ->
  phase_length wave decay = ok D ->
  phase_length wave release = ok Rl ->
  apply_adsr wave attack decay sustain release =
  (let* ramp := linspace 0 1 A in
   let* envelope :=
     setitem_slice (zeros (Z.of_nat (length wave))) None (Some A) ramp in
   let* ramp := linspace 1 sustain D in
   let* envelope := setitem_slice envelope (Some A) (Some (A + D)) ramp in
   let* ramp := linspace sustain 0 Rl in
   let* envelope := setitem_slice envelope (Some (- Rl)) None ramp in
   ok (zip_with Qmult wave envelope)).
Proof.
  unfold phase_length, apply_adsr. intros -> -> ->. reflexivity.
Qed.

(** A call that returns has computed its three lengths. *)
Lemma apply_adsr_ok_lengths (wave out : list Q) (attack decay : float64)
    (sustain : Q) (release : float64) :
  apply_adsr wave attack decay sustain release = ok out ->
  exists A D Rl : Z,
    phase_length wave attack = ok A
    /\ phase_length wave decay = ok D
    /\ phase_length wave release = ok Rl.
Proof.
  unfold apply_adsr, phase_length. intros H.
  apply bind_ok_inv in H as (A & HA & H).
  apply bind_ok_inv in H as (D & HD & H).
  apply bind_ok_inv in H as (Rl & HR & H). eauto 6.
Qed.

Lemma slice_bounds_prefix (len stop : Z) :
  0 <= stop <= len -> slice_bounds len None (Some stop) = (0, stop).
Proof.
  intros H. unfold slice_bounds, slice_index. simpl.
  destruct (Z.ltb_spec stop 0); f_equal; lia.
Qed.

Lemma slice_bounds_middle (len start stop : Z) :
  0 <= start <= stop -> stop <= len ->
  slice_bounds len (Some start) (Some stop) = (start, stop).
Proof.
  intros H1 H2. unfold slice_bounds, slice_index. simpl.
  destruct (Z.ltb_spec start 0), (Z.ltb_spec stop 0); f_equal; lia.
Qed.

Lemma slice_bounds_suffix (len n : Z) :
  1 <= n <= len -> slice_bounds len (Some (- n)) None = (len - n, len).
Proof.
  intros H. unfold slice_bounds, slice_index. simpl.
  destruct (Z.ltb_spec (- n) 0); f_equal; lia.
Qed.

(** [envelope[-0:]] is the whole array. *)
Lemma slice_bounds_suffix_zero (len : Z) :
  0 <= len -> slice_bounds len (Some (- 0)) None = (0, len).
Proof.
  intros H. unfold slice_bounds, slice_index. simpl. f_equal; lia.
Qed.

Lemma lookup_slice_write_inside (a w : list Q) (lo hi : Z) (i : nat) :
  0 <= lo <= hi -> hi <= Z.of_nat (length a) ->
  length w = Z.to_nat (hi - lo) ->
  lo <= Z.of_nat i < hi ->
  (take (Z.to_nat lo) a ++ w ++ drop (Z.to_nat hi) a) !! i
  = w !! (i - Z.to_nat lo)%nat.
Proof.
  intros Hlo Hhi Hw Hi.
  rewrite lookup_app_r by (rewrite length_take; lia).
  rewrite length_take, Nat.min_l by lia.
  apply lookup_app_l. lia.
Qed.

(** A slice assignment with a value of the slice's length: the slice holds
    the value, the rest of the array is kept. *)
Lemma setitem_slice_written (a v : list Q) (start stop : option Z) (lo hi : Z) :
  slice_bounds (Z.of_nat (length a)) start stop = (lo, hi) ->
  length v = Z.to_nat (hi - lo) ->
  exists a' : list Q,
    setitem_slice a start stop v = ok a'
    /\ length a' = length a
    /\ (forall i : nat, Z.of_nat i < lo \/ hi <= Z.of_nat i -> a' !! i = a !! i)
    /\ (forall i : nat, lo <= Z.of_nat i < hi ->
          a' !! i = v !! (i - Z.to_nat lo)%nat).
Proof.
  intros Hb Hv.
  destruct (setitem_slice_step a v start stop lo hi Hb Hv)
    as (a' & Hset & Hlen & Hframe).
  exists a'. repeat split; try assumption.
  intros i Hi. rewrite (setitem_slice_exact _ _ _ _ _ _ Hb Hv) in Hset.
  injection Hset as <-.
  apply slice_bounds_range in Hb as [Hlo Hhi]; [|lia].
  apply lookup_slice_write_inside; assumption.
Qed.

(** A slice assignment that succeeds had a value of the slice's length, or of
    length 1. *)
Lemma setitem_slice_ok_length (a v a' : list Q) (start stop : option Z) :
  setitem_slice a start stop v = ok a' ->
  length v = Z.to_nat ((slice_bounds (Z.of_nat (length a)) start stop).2
                       - (slice_bounds (Z.of_nat (length a)) start stop).1)
  \/ length v = 1%nat.
Proof.
  unfold setitem_slice.
  destruct (slice_bounds (Z.of_nat (length a)) start stop) as [lo hi].
  cbn [fst snd].
  destruct (decide (length v = Z.to_nat (hi - lo))) as [Hv|Hv]; [auto|].
  destruct v as [|x [|y v]]; try discriminate. auto.
Qed.

Lemma setitem_slice_outside (a v a' : list Q) (start stop : option Z) (i : nat) :
  setitem_slice a start stop v = ok a' ->
  Z.of_nat i < (slice_bounds (Z.of_nat (length a)) start stop).1
  \/ (slice_bounds (Z.of_nat (length a)) start stop).2 <= Z.of_nat i ->
  a' !! i = a !! i.
Proof.
  intros [_ Hframe]%setitem_slice_frame Hi.
  destruct (slice_bounds (Z.of_nat (length a)) start stop) as [lo hi] eqn:Hb.
  exact (Hframe i lo hi eq_refl Hi).
Qed.

(** When the three phases fit into the wave one after the other, the call
    returns the wave multiplied with the envelope of [envelope_at]. *)
Lemma apply_adsr_envelope (wave : list Q) (attack decay : float64) (sustain : Q)
    (release : float64) (A D Rl : Z) :
  phase_length wave attack = ok A ->
  phase_length wave decay = ok D ->
  phase_length wave release = ok Rl ->
  0 <= A -> 0 <= D -> 1 <= Rl ->
  A + D + Rl <= Z.of_nat (length wave) ->
  exists out : list Q,
    apply_adsr wave attack decay sustain release = ok out
    /\ length out = length wave
    /\ forall (i : nat) (x : Q),
        wave !! i = Some x ->
        out !! i =
        Some (x * envelope_at (Z.of_nat (length wave)) A D Rl sustain
                    (Z.of_nat i))%Q.
Proof.
  intros HpA HpD HpR HA HD HR Hfit.
  rewrite (apply_adsr_lengths _ _ _ _ _ _ _ _ HpA HpD HpR).
  set (L := Z.of_nat (length wave)) in *.
  assert (Hz : Z.of_nat (length (zeros L)) = L) by (rewrite length_zeros; lia).
  rewrite !linspace_ok by lia. cbn [bind ok].
  destruct (setitem_slice_written (zeros L) (linspace_samples 0 1 A)
              None (Some A) 0 A) as (e1 & -> & Hl1 & Hf1 & Hi1).
  { rewrite Hz. apply slice_bounds_prefix. lia. }
  { rewrite nat_length_linspace_samples. f_equal. lia. }
  cbn [bind ok].
  destruct (setitem_slice_written e1 (linspace_samples 1 sustain D)
              (Some A) (Some (A + D)) A (A + D)) as (e2 & -> & Hl2 & Hf2 & Hi2).
  { rewrite Hl1, Hz. apply slice_bounds_middle; lia. }
  { rewrite nat_length_linspace_samples. f_equal. lia. }
  cbn [bind ok].
  destruct (setitem_slice_written e2 (linspace_samples sustain 0 Rl)
              (Some (- Rl)) None (L - Rl) L) as (e3 & -> & Hl3 & Hf3 & Hi3).
  { rewrite Hl2, Hl1, Hz. apply slice_bounds_suffix. lia. }
  { rewrite nat_length_linspace_samples. f_equal. lia. }
  cbn [bind ok]. eexists. split; [reflexivity|].
  split; [rewrite length_zip_with; lia|].
  intros i x Hx. pose proof (lookup_lt_Some _ _ _ Hx) as Hi.
  assert (He3 : e3 !! i = Some (envelope_at L A D Rl sustain (Z.of_nat i))).
  { unfold envelope_at.
    destruct (Z.ltb_spec (Z.of_nat i) A) as [H1|H1].
    { rewrite Hf3, Hf2, Hi1 by lia.
      rewrite lookup_linspace_samples by lia. do 2 f_equal. lia. }
    destruct (Z.ltb_spec (Z.of_nat i) (A + D)) as [H2|H2].
    { rewrite Hf3, Hi2 by lia.
      rewrite lookup_linspace_samples by lia. do 2 f_equal. lia. }
    destruct (Z.ltb_spec (Z.of_nat i) (L - Rl)) as [H3|H3].
    { rewrite Hf3, Hf2, Hf1 by lia. apply lookup_replicate_2. lia. }
    rewrite Hi3 by lia.
    rewrite lookup_linspace_samples by lia. do 2 f_equal. lia. }
  rewrite lookup_zip_with, Hx, He3. reflexivity.
Qed.

(** Between the end of the decay ramp and the start of the release window
    the envelope of a call that returned still holds the zeros it was
    created with. *)
Lemma apply_adsr_gap (wave out : list Q) (attack decay : float64) (sustain : Q)
    (release : float64) (A D Rl : Z) (i : nat) :
  phase_length wave attack = ok A ->
  phase_length wave decay = ok D ->
  phase_length wave release = ok Rl ->
  apply_adsr wave attack decay sustain release = ok out ->
  A + D <= Z.of_nat i ->
  Z.of_nat i < Z.of_nat (length wave) - Rl ->
  exists x : Q, out !! i = Some x /\ (x == 0)%Q.
Proof.
  intros HpA HpD HpR Hout Hlo Hhi.
  rewrite (apply_adsr_lengths _ _ _ _ _ _ _ _ HpA HpD HpR) in Hout.
  set (L := Z.of_nat (length wave)) in *.
  apply bind_ok_inv in Hout as (r1 & [HA ->]%linspace_ok_inv & Hout).
  apply bind_ok_inv in Hout as (e1 & He1 & Hout).
  apply bind_ok_inv in Hout as (r2 & [HD ->]%linspace_ok_inv & Hout).
  apply bind_ok_inv in Hout as (e2 & He2 & Hout).
  apply bind_ok_inv in Hout as (r3 & [HR ->]%linspace_ok_inv & Hout).
  apply bind_ok_inv in Hout as (e3 & He3 & Hout).
  apply ok_inj in Hout. subst out.
  pose proof (setitem_slice_frame _ _ _ _ _ He1) as [Hl1 _].
  pose proof (setitem_slice_frame _ _ _ _ _ He2) as [Hl2 _].
  assert (Hz : Z.of_nat (length (zeros L)) = L) by (rewrite length_zeros; lia).
  assert (H3 : e3 !! i = e2 !! i).
  { apply (setitem_slice_outside _ _ _ _ _ _ He3). left.
    pose proof (setitem_slice_ok_length _ _ _ _ _ He3) as Hlen.
    rewrite nat_length_linspace_samples in Hlen. revert Hlen.
    rewrite Hl2, Hl1, Hz. unfold slice_bounds, slice_index. cbn [from_option fst snd].
    destruct (Z.ltb_spec (- Rl) 0); lia. }
  assert (H2 : e2 !! i = e1 !! i).
  { apply (setitem_slice_outside _ _ _ _ _ _ He2). right.
    rewrite Hl1, Hz. unfold slice_bounds, slice_index. cbn [from_option fst snd].
    destruct (Z.ltb_spec A 0), (Z.ltb_spec (A + D) 0); lia. }
  assert (H1 : e1 !! i = zeros L !! i).
  { apply (setitem_slice_outside _ _ _ _ _ _ He1). right.
    rewrite Hz. unfold slice_bounds, slice_index. cbn [from_option fst snd].
    destruct (Z.ltb_spec A 0); lia. }
  destruct (lookup_lt_is_Some_2 wave i) as [w Hw]; [lia|].
  exists (w * 0)%Q. split; [|apply Qmult_0_r].
  rewrite lookup_zip_with, Hw, H3, H2, H1.
  unfold zeros. rewrite lookup_replicate_2 by lia. reflexivity.
Qed.

(** C5. The silent gap.  For a nonempty wave (of at most 2^50 samples) and
    float fractions attack, decay, release in [0, 1] whose sum is below 1,
    with at least one sample in the release window, apply_adsr returns a
    wave of the input's length in which every sample from index
    int(len*attack) + int(len*decay) up to (not including)
    len - int(len*release) is 0.  The same holds, whatever the fractions and
    the length, of every call that returns; and a call returns whenever the
    three lengths are not negative, the release window has at least one
    sample and the phases fit into the wave. *)
Theorem adsr_silent_gap (wave : list Q) (attack decay : float64) (sustain : Q)
    (release : float64) :
  (wave <> [] ->
   Z.of_nat (length wave) <= 2 ^ 50 ->
   float_finite attack = true ->
   float_finite decay = true ->
   float_finite release = true ->
   (0 <= float_value attack <= 1)%Q ->
   (0 <= float_value decay <= 1)%Q ->
   (0 <= float_value release <= 1)%Q ->
   (float_value attack + float_value decay + float_value release < 1)%Q ->
   (exists Rl : Z, phase_length wave release = ok Rl /\ 1 <= Rl) ->
   exists (A D Rl : Z) (out : list Q),
     phase_length wave attack = ok A
     /\ phase_length wave decay = ok D
     /\ phase_length wave release = ok Rl
     /\ apply_adsr wave attack decay sustain release = ok out
     /\ length out = length wave
     /\ forall i : nat,
         A + D <= Z.of_nat i ->
         Z.of_nat i < Z.of_nat (length wave) - Rl ->
         exists x : Q, out !! i = Some x /\ (x == 0)%Q)
  /\ (forall out : list Q,
        apply_adsr wave attack decay sustain release = ok out ->
        exists A D Rl : Z,
          phase_length wave attack = ok A
          /\ phase_length wave decay = ok D
          /\ phase_length wave release = ok Rl
          /\ length out = length wave
          /\ forall i : nat,
              A + D <= Z.of_nat i ->
              Z.of_nat i < Z.of_nat (length wave) - Rl ->
              exists x : Q, out !! i = Some x /\ (x == 0)%Q)
  /\ (forall A D Rl : Z,
        phase_length wave attack = ok A ->
        phase_length wave decay = ok D ->
        phase_length wave release = ok Rl ->
        0 <= A -> 0 <= D -> 1 <= Rl ->
        A + D + Rl <= Z.of_nat (length wave) ->
        is_ok (apply_adsr wave attack decay sustain release)).
Proof.
  assert (Hgap : forall out : list Q,
             apply_adsr wave attack decay sustain release = ok out ->
             exists A D Rl : Z,
               phase_length wave attack = ok A
               /\ phase_length wave decay = ok D
               /\ phase_length wave release = ok Rl
               /\ length out = length wave
               /\ forall i : nat,
                   A + D <= Z.of_nat i ->
                   Z.of_nat i < Z.of_nat (length wave) - Rl ->
                   exists x : Q, out !! i = Some x /\ (x == 0)%Q).
  { intros out Hout.
    destruct (apply_adsr_ok_lengths _ _ _ _ _ _ Hout) as (A & D & Rl & HA & HD & HR).
    exists A, D, Rl. repeat (split; [assumption|]). split.
    - rewrite (apply_adsr_lengths _ _ _ _ _ _ _ _ HA HD HR) in Hout.
      apply bind_ok_inv in Hout as (r1 & _ & Hout).
      apply bind_ok_inv in Hout as (e1 & [Hl1 _]%setitem_slice_frame & Hout).
      apply bind_ok_inv in Hout as (r2 & _ & Hout).
      apply bind_ok_inv in Hout as (e2 & [Hl2 _]%setitem_slice_frame & Hout).
      apply bind_ok_inv in Hout as (r3 & _ & Hout).
      apply bind_ok_inv in Hout as (e3 & [Hl3 _]%setitem_slice_frame & Hout).
      apply ok_inj in Hout. subst out.
      rewrite length_zip_with, Hl3, Hl2, Hl1, length_zeros. lia.
    - intros i. exact (apply_adsr_gap _ _ _ _ _ _ _ _ _ i HA HD HR Hout). }
  split; [|split; [exact Hgap|]].
  - intros Hne Hlen Hfa Hfd Hfr Ha Hd Hr Hsum (Rl & HpR & HR).
    destruct (phase_lengths_fit wave attack decay release Hne Hlen Hfa Hfd Hfr
                Ha Hd Hr Hsum)
      as (A & D & Rl' & HpA & HpD & HpR' & HA & HD & _ & Hfit).
    rewrite HpR in HpR'. apply ok_inj in HpR'. subst Rl'.
    destruct (apply_adsr_envelope _ _ _ sustain _ _ _ _ HpA HpD HpR HA HD HR Hfit)
      as (out & Hout & _).
    destruct (Hgap out Hout) as (A' & D' & Rl' & HA' & HD' & HR' & Hl & Hzero).
    rewrite HpA in HA'. rewrite HpD in HD'. rewrite HpR in HR'.
    apply ok_inj in HA', HD', HR'. subst A' D' Rl'.
    exists A, D, Rl, out. auto 10.
  - intros A D Rl HpA HpD HpR HA HD HR Hfit.
    destruct (apply_adsr_envelope _ _ _ sustain _ _ _ _ HpA HpD HpR HA HD HR Hfit)
      as (out & Hout & _).
    exists out. exact Hout.
Qed.

Lemma adsr_silent_gap_witness :
  exists out : list Q,
    apply_adsr [1; 2; 3; 4; 5; 6; 7; 8; 9; 10]%Q
      (float_of_Q 0.2) (float_of_Q 0.2) 0.7 (float_of_Q 0.3) = ok out
    /\ length out = 10%nat
    /\ forall i : nat,
        4 <= Z.of_nat i -> Z.of_nat i < 7 ->
        exists x : Q, out !! i = Some x /\ (x == 0)%Q.
Proof.
  assert (H2 : phase_length [1; 2; 3; 4; 5; 6; 7; 8; 9; 10]%Q (float_of_Q 0.2)
               = ok 2) by (vm_compute; reflexivity).
  assert (H3 : phase_length [1; 2; 3; 4; 5; 6; 7; 8; 9; 10]%Q (float_of_Q 0.3)
               = ok 3) by (vm_compute; reflexivity).
  destruct (proj1 (adsr_silent_gap [1; 2; 3; 4; 5; 6; 7; 8; 9; 10]%Q
                     (float_of_Q 0.2) (float_of_Q 0.2) 0.7 (float_of_Q 0.3)))
    as (A & D & Rl & out & HA & HD & HR & Hout & Hlen & Hzero).
  - discriminate.
  - vm_compute. discriminate.
  - reflexivity.
  - reflexivity.
  - reflexivity.
  - split; vm_compute; discriminate.
  - split; vm_compute; discriminate.
  - split; vm_compute; discriminate.
  - vm_compute. reflexivity.
  - exists 3. split; [exact H3 | lia].
  - rewrite H2 in HA, HD. rewrite H3 in HR.
    apply ok_inj in HA, HD, HR. subst A D Rl.
    exists out. split; [exact Hout|]. split; [exact Hlen | exact Hzero].
Defined.

(** C9. On a nonempty wave, release = 0 makes apply_adsr raise whatever the
    other arguments are: when the attack and decay assignments go through,
    int(len * 0.0) is 0, envelope[-0:] is the whole array and the empty ramp
    cannot be broadcast into it.  attack = 0 and decay = 0 are harmless: with
    a release window of 1..len samples the call returns a wave. *)
Theorem adsr_release_zero_raises (wave : list Q) (attack decay : float64)
    (sustain : Q) :
  wave <> [] ->
  raises (apply_adsr wave attack decay sustain float_zero)
  /\ (forall (A D : Z) (e1 e2 : list Q),
        phase_length wave attack = ok A ->
        phase_length wave decay = ok D ->
        setitem_slice (zeros (Z.of_nat (length wave))) None (Some A)
          (linspace_samples 0 1 A) = ok e1 ->
        setitem_slice e1 (Some A) (Some (A + D))
          (linspace_samples 1 sustain D) = ok e2 ->
        phase_length wave float_zero = ok 0
        /\ linspace sustain 0 0 = ok []
        /\ setitem_slice e2 (Some (- 0)) None [] =
           raise (ValueError "could not broadcast input array"))
  /\ (forall (release : float64) (Rl : Z),
        phase_length wave release = ok Rl ->
        1 <= Rl <= Z.of_nat (length wave) ->
        is_ok (apply_adsr wave float_zero float_zero sustain release)).
Proof.
  intros Hne.
  assert (HL : 0 < Z.of_nat (length wave)).
  { destruct wave; [contradiction | simpl; lia]. }
  assert (Hz : length (zeros (Z.of_nat (length wave))) = length wave).
  { rewrite length_zeros. lia. }
  assert (Hlast : forall e2 : list Q,
             length e2 = length wave ->
             setitem_slice e2 (Some (- 0)) None [] =
             raise (ValueError "could not broadcast input array")).
  { intros e2 Hl2.
    apply (setitem_slice_empty_value e2 _ _ 0 (Z.of_nat (length wave))); [|lia].
    rewrite Hl2. apply slice_bounds_suffix_zero. lia. }
  split; [|split].
  - unfold apply_adsr.
    apply raises_bind; intros A HA.
    apply raises_bind; intros D HD.
    change (int_of_product (Z.of_nat (length wave)) float_zero)
      with (phase_length wave float_zero).
    rewrite (phase_length_zero wave attack A HA). cbn [bind ok].
    apply raises_bind; intros r1 _.
    apply raises_bind; intros e1 [Hl1 _]%setitem_slice_frame.
    apply raises_bind; intros r2 _.
    apply raises_bind; intros e2 [Hl2 _]%setitem_slice_frame.
    rewrite linspace_ok by lia. cbn [bind ok].
    change (linspace_samples sustain 0 0) with (@nil Q).
    rewrite (Hlast e2) by congruence.
    eexists; reflexivity.
  - intros A D e1 e2 HA HD [Hl1 _]%setitem_slice_frame [Hl2 _]%setitem_slice_frame.
    split; [exact (phase_length_zero wave attack A HA)|].
    split; [reflexivity|]. apply Hlast. congruence.
  - intros release Rl HR [Hlo Hhi].
    pose proof (phase_length_zero wave release Rl HR) as H0.
    destruct (apply_adsr_envelope wave float_zero float_zero sustain release
                0 0 Rl H0 H0 HR) as (out & Hout & _); try lia.
    exists out. exact Hout.
Qed.

Lemma adsr_release_zero_raises_witness :
  raises (apply_adsr [3; -1; 4; 1; -5; 9]%Q
            (float_of_Q 0.1) (float_of_Q 0.1) 0.7 float_zero)
  /\ is_ok (apply_adsr [3; -1; 4; 1; -5; 9]%Q
              float_zero float_zero 0.7 (float_of_Q 0.5)).
Proof.
  assert (Hne : [3; -1; 4; 1; -5; 9]%Q <> []) by discriminate.
  destruct (adsr_release_zero_raises [3; -1; 4; 1; -5; 9]%Q
              (float_of_Q 0.1) (float_of_Q 0.1) 0.7 Hne) as (Hraise & _ & _).
  destruct (adsr_release_zero_raises [3; -1; 4; 1; -5; 9]%Q
              float_zero float_zero 0.7 Hne) as (_ & _ & Hok).
  split; [exact Hraise|].
  apply (Hok (float_of_Q 0.5) 3); [vm_compute; reflexivity|].
  split; [lia | vm_compute; discriminate].
Defined.

(** ** The matcher: what a successful piece has consumed *)

Lemma one_inv {A} (p : N -> bool) (k : N -> Re.cont A) s r :
  Re.one p k s = Some r ->
  exists c rest, s = c :: rest /\ p c = true /\ k c rest = Some r.
Proof.
  destruct s as [|c rest]; simpl; [discriminate|].
  destruct (p c) eqn:Hp; [|discriminate]. eauto.
Qed.

Lemma opt_inv {A} (p : N -> bool) (k : unicode -> Re.cont A) s r :
  Re.opt p k s = Some r ->
  exists m rest, s = m ++ rest /\ all_in p m = true
                 /\ (length m <= 1)%nat /\ k m rest = Some r.
Proof.
  unfold Re.opt.
  destruct (Re.one p _ s) as [r'|] eqn:Hone.
  - intros [= ->]. apply one_inv in Hone as (c & rest & -> & Hp & Hk).
    exists [c], rest. simpl. rewrite Hp. auto.
  - intros Hk. exists [], s. simpl. auto.
Qed.

Lemma star_inv {A} (p : N -> bool) (k : unicode -> Re.cont A) s r :
  Re.star p k s = Some r ->
  exists m rest, s = m ++ rest /\ all_in p m = true /\ k m rest = Some r.
Proof.
  revert k. induction s as [|c s IH]; intros k; simpl.
  - intros Hk. exists [], []. auto.
  - destruct (p c) eqn:Hp.
    + destruct (Re.star p _ s) as [r'|] eqn:Hstar.
      * intros [= ->]. apply IH in Hstar as (m & rest & -> & Hm & Hk).
        exists (c :: m), rest. simpl. rewrite Hp. auto.
      * intros Hk. exists [], (c :: s). auto.
    + intros Hk. exists [], (c :: s). auto.
Qed.

(** The greedy choices succeed when the continuation accepts them. *)
Lemma star_greedy {A} (p : N -> bool) (k : unicode -> Re.cont A) m rest r :
  all_in p m = true -> stops p rest = true ->
  k m rest = Some r ->
  Re.star p k (m ++ rest) = Some r.
Proof.
  revert k. induction m as [|c m IH]; intros k Hm Hstop Hk; simpl in *.
  - destruct rest as [|c rest]; simpl in *; [exact Hk|].
    destruct (p c); [discriminate | exact Hk].
  - apply andb_prop in Hm as [Hc Hm]. rewrite Hc.
    rewrite (IH (fun m' => k (c :: m')) Hm Hstop Hk). reflexivity.
Qed.

Lemma opt_taken {A} (p : N -> bool) (k : unicode -> Re.cont A) c rest r :
  p c = true -> k [c] rest = Some r ->
  Re.opt p k (c :: rest) = Some r.
Proof. intros Hp Hk. unfold Re.opt. simpl. rewrite Hp, Hk. reflexivity. Qed.

Lemma opt_skipped {A} (p : N -> bool) (k : unicode -> Re.cont A) rest :
  stops p rest = true -> Re.opt p k rest = k [] rest.
Proof.
  intros Hstop. unfold Re.opt. destruct rest as [|c rest]; simpl in *;
    [reflexivity|]. destruct (p c); [discriminate | reflexivity].
Qed.

Lemma all_in_app (p : N -> bool) (a b : unicode) :
  all_in p (a ++ b) = all_in p a && all_in p b.
Proof.
  induction a as [|x a IH]; simpl; [reflexivity|].
  rewrite IH, andb_assoc. reflexivity.
Qed.

(** ** The character classes *)

Lemma class_lit_eq (x : ascii) (c : N) : class_lit x c = true -> c = N_of_ascii x.
Proof. unfold class_lit. intros H%N.eqb_eq. congruence. Qed.

Lemma lit_run (x : ascii) (m : unicode) :
  all_in (class_lit x) m = true -> (length m <= 1)%nat ->
  m = [] \/ m = str (String x EmptyString).
Proof.
  destruct m as [|c [|c' m]]; simpl; intros Hm Hlen; [auto | | lia].
  right. apply andb_prop in Hm as [->%class_lit_eq _]. reflexivity.
Qed.

(** No decimal digit is the sharp sign, the point, or a whitespace
    character. *)
Lemma digit_not_lit (x : ascii) (d : N) :
  class_digit (N_of_ascii x) = false ->
  class_digit d = true -> class_lit x d = false.
Proof.
  intros Hx Hd. unfold class_lit.
  destruct (N.eqb_spec (N_of_ascii x) d) as [<-|_]; [congruence | reflexivity].
Qed.

Lemma digit_not_sharp (d : N) :
  class_digit d = true -> class_lit "#" d = false.
Proof. apply digit_not_lit. vm_compute. reflexivity. Qed.

Lemma space_not_digit_table :
  forallb (fun c => negb (class_digit c)) space_points = true.
Proof. vm_compute. reflexivity. Qed.

Lemma class_space_elem (c : N) : class_space c = true -> In c space_points.
Proof.
  unfold class_space. intros (x & Hx & ->%N.eqb_eq)%existsb_exists. exact Hx.
Qed.

Lemma space_not_digit (c : N) : class_space c = true -> class_digit c = false.
Proof.
  intros Hc%class_space_elem. pose proof space_not_digit_table as Htab.
  rewrite forallb_forall in Htab. specialize (Htab c Hc).
  destruct (class_digit c); [discriminate Htab | reflexivity].
Qed.

Lemma space_not_point_table :
  forallb (fun c => negb (class_lit "." c)) space_points = true.
Proof. vm_compute. reflexivity. Qed.

Lemma space_not_point (c : N) : class_space c = true -> class_lit "." c = false.
Proof.
  intros Hc%class_space_elem. pose proof space_not_point_table as Htab.
  rewrite forallb_forall in Htab. specialize (Htab c Hc).
  destruct (class_lit "." c); [discriminate Htab | reflexivity].
Qed.

Lemma digit_not_float_space (c : N) :
  class_digit c = true -> float_space c = false.
Proof.
  intros Hd. unfold float_space. destruct (class_space c) eqn:Hs; [|reflexivity].
  rewrite (space_not_digit c Hs) in Hd. discriminate Hd.
Qed.

(** ** The melody grammar *)

Lemma group2_inv {A} (k : unicode -> Re.cont A) (s : unicode) (r : A) :
  group2 k s = Some r ->
  exists g2 rest,
    s = g2 ++ rest /\ duration_token g2 /\ k g2 rest = Some r.
Proof.
  unfold group2. intros H.
  apply one_inv in H as (w & s1 & -> & Hw & H).
  apply star_inv in H as (d1 & s2 & -> & Hd1 & H).
  apply opt_inv in H as (dot & s3 & -> & Hdot & Hlen & H).
  apply star_inv in H as (d2 & s4 & -> & Hd2 & H).
  apply one_inv in H as (c & rest & -> & ->%class_lit_eq & H).
  eexists _, rest. split; [|split; [|exact H]].
  - simpl. rewrite <- !app_assoc. reflexivity.
  - exists w, d1, dot, d2. repeat split; auto using lit_run.
Qed.

Lemma group2_accepts {A} (k : unicode -> Re.cont A) w d1 dot d2 rest (r : A) :
  class_space w = true ->
  all_in class_digit d1 = true ->
  dot = [] \/ dot = str "." ->
  all_in class_digit d2 = true ->
  k (w :: d1 ++ dot ++ d2 ++ str "s") rest = Some r ->
  group2 k (w :: d1 ++ dot ++ d2 ++ str "s" ++ rest) = Some r.
Proof.
  intros Hw Hd1 Hdot Hd2 Hk. unfold group2, Re.one at 1. rewrite Hw.
  destruct Hdot as [-> | ->].
  - change (d1 ++ [] ++ d2 ++ str "s" ++ rest)
      with (d1 ++ d2 ++ str "s" ++ rest).
    rewrite (app_assoc d1 d2).
    apply star_greedy; [rewrite all_in_app, Hd1, Hd2; reflexivity | reflexivity |].
    rewrite opt_skipped by reflexivity. simpl.
    rewrite <- app_assoc. exact Hk.
  - apply star_greedy; [exact Hd1 | reflexivity |].
    apply opt_taken; [reflexivity|].
    apply star_greedy; [exact Hd2 | reflexivity |].
    simpl. exact Hk.
Qed.

(** What a match has read: both groups in a row, the first a note token,
    the second absent or a duration. *)
Lemma pattern_inv (s g1 g2 rest : unicode) :
  pattern s = Some (g1, g2, rest) ->
  s = g1 ++ g2 ++ rest
  /\ note_token g1
  /\ (g2 = [] \/ duration_token g2).
Proof.
  unfold pattern, group1. intros H.
  apply one_inv in H as (c & s1 & -> & Hc & H).
  apply opt_inv in H as (sharp & s2 & -> & Hsharp & Hlen & H).
  apply one_inv in H as (d & s3 & -> & Hd & H).
  assert (Htok : note_token (c :: sharp ++ [d])).
  { exists c, sharp, d. repeat split; auto using lit_run. }
  unfold Re.opt_group in H.
  destruct (group2 _ s3) as [r|] eqn:Hg2.
  - apply group2_inv in Hg2 as (g2' & rest' & -> & Hdur & Hk).
    injection H as ->. injection Hk as <- <- <-.
    split; [|auto]. simpl. rewrite <- !app_assoc. reflexivity.
  - injection H as <- <- <-.
    split; [|auto]. simpl. rewrite <- !app_assoc. reflexivity.
Qed.

(** After a note token the optional second group is tried on what
    follows. *)
Lemma pattern_token (tok rest : unicode) :
  note_token tok ->
  pattern (tok ++ rest) =
  match group2 (fun g2 rest' => Some (tok, g2, rest')) rest with
  | Some r => Some r
  | None => Some (tok, [], rest)
  end.
Proof.
  intros (c & sharp & d & -> & Hc & [-> | ->] & Hd);
    unfold pattern, group1, Re.one at 1; simpl; rewrite Hc.
  - rewrite opt_skipped by (unfold stops; rewrite (digit_not_sharp d Hd); reflexivity).
    simpl. rewrite Hd. reflexivity.
  - unfold Re.opt. simpl. rewrite Hd. unfold Re.opt_group.
    destruct (group2 _ rest); reflexivity.
Qed.

Lemma note_token_length (tok : unicode) :
  note_token tok -> (2 <= length tok)%nat.
Proof.
  intros (c & sharp & d & -> & _ & _ & _). simpl.
  rewrite length_app. simpl. lia.
Qed.

Lemma pattern_shorter (s g1 g2 rest : unicode) :
  pattern s = Some (g1, g2, rest) ->
  (length rest < length s)%nat.
Proof.
  intros (-> & Htok%note_token_length & _)%pattern_inv.
  rewrite !length_app. lia.
Qed.

Lemma findall_fuel_S (fuel : nat) (s : unicode) :
  findall_fuel (S fuel) s =
  match pattern s with
  | Some (g1, g2, rest) => (g1, g2) :: findall_fuel fuel rest
  | None =>
      match s with
      | _ :: s' => findall_fuel fuel s'
      | [] => []
      end
  end.
Proof. reflexivity. Qed.

(** Any fuel above the length of the input gives the same matches. *)
Lemma findall_fuel_stable (f1 f2 : nat) (s : unicode) :
  (length s < f1)%nat -> (length s < f2)%nat ->
  findall_fuel f1 s = findall_fuel f2 s.
Proof.
  revert f2 s. induction f1 as [|f1 IH]; intros f2 s H1 H2; [lia|].
  destruct f2 as [|f2]; [lia|]. rewrite !findall_fuel_S.
  destruct (pattern s) as [[[g1 g2] rest]|] eqn:Hpat.
  - apply pattern_shorter in Hpat. f_equal. apply IH; lia.
  - destruct s as [|c s]; [reflexivity|]. simpl in H1, H2. apply IH; lia.
Qed.

Lemma findall_match (s g1 g2 rest : unicode) :
  pattern s = Some (g1, g2, rest) ->
  findall s = (g1, g2) :: findall rest.
Proof.
  intros Hpat. unfold findall. rewrite findall_fuel_S, Hpat. f_equal.
  apply pattern_shorter in Hpat. apply findall_fuel_stable; lia.
Qed.

Lemma findall_skip (c : N) (s : unicode) :
  pattern (c :: s) = None ->
  findall (c :: s) = findall s.
Proof.
  intros Hpat. unfold findall. rewrite findall_fuel_S, Hpat.
  apply findall_fuel_stable; simpl; lia.
Qed.

Lemma pattern_no_duration (tok rest : unicode) :
  note_token tok -> stops class_space rest = true ->
  pattern (tok ++ rest) = Some (tok, [], rest).
Proof.
  intros Htok Hstop. rewrite (pattern_token tok rest Htok).
  unfold group2, Re.one at 1. destruct rest as [|c rest]; [reflexivity|].
  simpl in Hstop. destruct (class_space c); [discriminate | reflexivity].
Qed.

Lemma pattern_with_duration (tok : unicode) w (d1 dot d2 rest : unicode) :
  note_token tok ->
  class_space w = true ->
  all_in class_digit d1 = true ->
  dot = [] \/ dot = str "." ->
  all_in class_digit d2 = true ->
  pattern (tok ++ w :: d1 ++ dot ++ d2 ++ str "s" ++ rest) =
  Some (tok, w :: d1 ++ dot ++ d2 ++ str "s", rest).
Proof.
  intros Htok Hw Hd1 Hdot Hd2. rewrite (pattern_token tok _ Htok).
  rewrite (group2_accepts _ w d1 dot d2 rest
             (tok, w :: d1 ++ dot ++ d2 ++ str "s", rest));
    auto.
Qed.




(** ** Normalisation *)

Lemma foldl_max_abs_ge (rest : list Q) (m : Q) :
  (m <= foldl (fun m y => Qmax m (Qabs y)) m rest)%Q
  /\ Forall (fun y => (Qabs y <= foldl (fun m y => Qmax m (Qabs y)) m rest)%Q)
            rest.
Proof.
  revert m. induction rest as [|y rest IH]; intros m; simpl.
  - split; [apply Qle_refl | constructor].
  - destruct (IH (Qmax m (Qabs y))) as [Hm Hall]. split; [|constructor].
    + eapply Qle_trans; [apply Q.le_max_l | exact Hm].
    + eapply Qle_trans; [apply Q.le_max_r | exact Hm].
    + exact Hall.
Qed.

(** The peak bounds every sample of the wave. *)
Lemma np_max_abs_bound (wave : list Q) (peak : Q) :
  np_max_abs wave = ok peak ->
  Forall (fun x => (Qabs x <= peak)%Q) wave.
Proof.
  destruct wave as [|x rest]; [discriminate|]. intros [= <-].
  destruct (foldl_max_abs_ge rest (Qabs x)) as [Hx Hrest].
  constructor; assumption.
Qed.

Lemma min_length_of_le {A} (waves : list (list A)) (min_length : Z) :
  min_length_of waves = ok min_length ->
  0 <= min_length
  /\ Forall (fun w => min_length <= Z.of_nat (length w)) waves.
Proof.
  destruct waves as [|wave rest]; [discriminate|]. intros [= <-].
  assert (Hfold : forall (l : list (list A)) (m : Z), 0 <= m ->
            let r := foldl (fun m w => Z.min m (Z.of_nat (length w))) m l in
            0 <= r <= m /\ Forall (fun w => r <= Z.of_nat (length w)) l).
  { induction l as [|w l IH]; intros m Hm; simpl.
    - split; [lia | constructor].
    - destruct (IH (Z.min m (Z.of_nat (length w)))) as [Hr Hall]; [lia|].
      split; [lia|]. constructor; [lia | exact Hall]. }
  destruct (Hfold rest (Z.of_nat (length wave))) as [Hr Hall]; [lia|].
  split; [lia|]. constructor; [lia | exact Hall].
Qed.

Lemma length_getitem_prefix {A} (wave : list A) (n : Z) :
  0 <= n <= Z.of_nat (length wave) ->
  getitem_slice wave None (Some n) = take (Z.to_nat n) wave.
Proof.
  intros Hn. unfold getitem_slice. rewrite slice_bounds_prefix by lia.
  rewrite Z.sub_0_r. reflexivity.
Qed.

(** What does hold of normalize_sound_waves: on a nonempty list of nonempty
    waves it returns one wave per input, each of the minimum length, and
    where the peak of the input wave is not zero every sample lies in
    [-1, 1]. *)
Lemma normalize_loop_shape (min_length : Z) (waves : list (list Q)) :
  0 <= min_length ->
  Forall (fun w => min_length <= Z.of_nat (length w)) waves ->
  Forall (fun w => w <> []) waves ->
  exists outs : list (list Q),
    normalize_loop min_length waves = ok outs
    /\ length outs = length waves
    /\ Forall (fun out => Z.of_nat (length out) = min_length) outs
    /\ (Forall (fun w => exists x, x ∈ w /\ ~ (x == 0)%Q) waves ->
        Forall (Forall (fun y => (-1 <= y <= 1)%Q)) outs).
Proof.
  intros Hmin Hlen Hne. induction waves as [|wave rest IH]; simpl.
  - exists []. repeat split; constructor.
  - apply Forall_cons in Hlen as [Hw Hlen]. apply Forall_cons in Hne as [Hwne Hne].
    destruct (IH Hlen Hne) as (outs & -> & Houts & Hcut & Hrange).
    destruct (np_max_abs wave) as [e|peak] eqn:Hpeak.
    { destruct wave; [contradiction | discriminate]. }
    cbn [bind ok]. eexists. split; [reflexivity|].
    rewrite length_getitem_prefix by lia.
    split; [simpl; lia|]. split.
    + constructor; [|exact Hcut]. rewrite length_fmap, length_take. lia.
    + intros Hnz. apply Forall_cons in Hnz as [(x & Hx & Hx0) Hnz].
      constructor; [|exact (Hrange Hnz)].
      pose proof (np_max_abs_bound wave peak Hpeak) as Hbound.
      assert (Hpos : (0 < peak)%Q).
      { rewrite Forall_forall in Hbound. specialize (Hbound x Hx).
        pose proof (Qabs_nonneg x) as H0.
        destruct (Qlt_le_dec 0 (Qabs x)) as [Hlt|Hle]; [lra|].
        exfalso. apply Hx0.
        assert (Hz : (Qabs x == 0)%Q) by lra.
        revert Hz. apply Qabs_case; intros; lra. }
      apply Forall_fmap, Forall_forall. intros y Hy.
      pose proof (subseteq_take _ _ y Hy) as Hy'.
      rewrite Forall_forall in Hbound. specialize (Hbound y Hy').
      apply Qabs_Qle_condition in Hbound as [Hlo Hhi]. simpl. split.
      * apply Qle_shift_div_l; [exact Hpos | lra].
      * apply Qle_shift_div_r; [exact Hpos | lra].
Qed.

Lemma normalize_sound_waves_shape (waves : list (list Q)) :
  waves <> [] ->
  Forall (fun w => exists x, x ∈ w /\ ~ (x == 0)%Q) waves ->
  exists (min_length : Z) (outs : list (list Q)),
    min_length_of waves = ok min_length
    /\ normalize_sound_waves waves = ok outs
    /\ length outs = length waves
    /\ Forall (fun out => Z.of_nat (length out) = min_length) outs
    /\ Forall (Forall (fun y => (-1 <= y <= 1)%Q)) outs.
Proof.
  intros Hne Hnz.
  destruct (min_length_of waves) as [e|min_length] eqn:Hmin.
  { destruct waves; [contradiction | discriminate]. }
  destruct (min_length_of_le waves min_length Hmin) as [H0 Hle].
  destruct (normalize_loop_shape min_length waves H0 Hle) as
    (outs & Hloop & Hlen & Hcut & Hrange).
  { eapply Forall_impl; [exact Hnz|]. intros w (x & Hx & _) ->.
    inversion Hx. }
  exists min_length, outs. unfold normalize_sound_waves. rewrite Hmin.
  cbn [bind]. split; [reflexivity|]. split; [exact Hloop|].
  split; [exact Hlen|]. split; [exact Hcut | exact (Hrange Hnz)].
Qed.

(** The example of the specification: both waves come out with peak 1 and
    three samples. *)
Example normalize_spec_example :
  exists out1 out2 p1 p2,
    normalize_sound_waves [[2; 4; 2]; [10; -10; 5]]%Q = ok [out1; out2]
    /\ length out1 = 3%nat /\ length out2 = 3%nat
    /\ np_max_abs out1 = ok p1 /\ np_max_abs out2 = ok p2
    /\ (p1 == 1)%Q /\ (p2 == 1)%Q.
Proof.
  do 4 eexists. split; [vm_compute; reflexivity|].
  split; [reflexivity|]. split; [reflexivity|].
  split; [vm_compute; reflexivity|]. split; [vm_compute; reflexivity|].
  split; reflexivity.
Qed.

(** C4 at waves of different lengths.  The first wave [1, 2] has its peak in
    the part that is cut off: it is divided by 2 and cut to one sample, so
    the returned wave is [1/2], whose peak is 1/2 and not 1. *)
Theorem normalize_truncated_peak :
  normalize_sound_waves [[1; 2]; [1]]%Q = ok [[1 # 2]; [1]]%Q
  /\ np_max_abs [1 # 2]%Q = ok (1 # 2)%Q
  /\ (1 # 2 < 1)%Q.
Proof.
  split; [vm_compute; reflexivity|]. split; [vm_compute; reflexivity|].
  reflexivity.
Qed.

(** ** The duration and the sample values *)

Lemma frequency_range_table :
  forallb frequency_range_ok NOTES_items = true.
Proof. vm_compute. reflexivity. Qed.

Lemma frequency_range (note : string) (frequency : Q) :
  NOTES !! note = Some frequency -> ~ (frequency == 0)%Q ->
  (20 <= frequency <= 4979)%Q.
Proof.
  intros Hnote Hnz. apply NOTES_lookup_items, list_elem_of_In in Hnote.
  pose proof frequency_range_table as Htab.
  rewrite forallb_forall in Htab. specialize (Htab _ Hnote).
  unfold frequency_range_ok in Htab. simpl in Htab.
  apply orb_prop in Htab as [Hz%Qeq_bool_iff | Hr]; [contradiction|].
  apply andb_prop in Hr as [Hlo%Qle_bool_iff Hhi%Qle_bool_iff]. auto.
Qed.

Lemma create_note_sample (note : string) (duration frequency : Q) (i : nat) :
  NOTES !! note = Some frequency ->
  Z.of_nat i < SOUND_ARRAY_LEN ->
  exists wave : list Z,
    create_note note duration = ok wave
    /\ wave !! i = Some (note_sample frequency duration (Z.of_nat i)).
Proof.
  intros Hnote Hi. rewrite (create_note_known _ _ _ Hnote).
  eexists. split; [reflexivity|].
  unfold get_normed_sin, linspace_samples.
  rewrite !list_lookup_fmap, lookup_seqZ_lt by lia.
  rewrite Z.add_0_l. reflexivity.
Qed.

Section RealBounds.

Local Open Scope R_scope.

Lemma INR_fact (n : nat) (z : Z) :
  Z.of_nat (fact n) = z -> INR (fact n) = IZR z.
Proof. intros <-. apply INR_IZR_INZ. Qed.

Lemma PI_gt_3 : 3 < PI.
Proof. pose proof PI2_3_2. lra. Qed.

(** From the Taylor bound [sin_lb]: on [0, 1] the sine stays above the line
    of slope 5/6. *)
Lemma sin_lower_linear (x : R) : 0 <= x <= 1 -> 5 / 6 * x <= sin x.
Proof.
  intros [H0 H1].
  destruct (SIN x H0) as [Hlb _]; [pose proof PI_gt_3; lra|].
  unfold sin_lb, sin_approx, sin_term in Hlb.
  cbn [sum_f_R0 Nat.mul Nat.add] in Hlb.
  rewrite (INR_fact 1 1), (INR_fact 3 6), (INR_fact 5 120), (INR_fact 7 5040)
    in Hlb by reflexivity.
  assert (H2 : 0 <= x * x <= 1) by nra.
  set (s := x * x) in *.
  assert (H3 : 0 <= x * s) by nra.
  assert (H5 : 0 <= x * s * s) by nra.
  assert (H7 : x * s * s * s <= x * s * s) by nra.
  assert (H3' : x * s <= x) by nra.
  replace ((-1) ^ 0 * (x ^ 1 / 1) + (-1) ^ 1 * (x ^ 3 / 6) +
           (-1) ^ 2 * (x ^ 5 / 120) + (-1) ^ 3 * (x ^ 7 / 5040))
    with (x - x * s / 6 + x * s * s / 120 - x * s * s * s / 5040) in Hlb
    by (unfold s; field).
  lra.
Qed.

Lemma R_trunc_nonneg (x : R) : 0 <= x -> R_trunc x = Int_part x.
Proof.
  intros Hx. unfold R_trunc. destruct (Rle_dec 0 x); [reflexivity | contradiction].
Qed.

Lemma Int_part_range (x : R) (lo hi : Z) :
  IZR lo <= x <= IZR hi -> (lo <= Int_part x <= hi)%Z.
Proof.
  intros [Hlo Hhi]. destruct (base_Int_part x) as [Hle Hgt]. split.
  - apply Z.lt_succ_r, lt_IZR. rewrite succ_IZR. lra.
  - apply le_IZR. lra.
Qed.

Lemma Int_part_lt (x y : R) : x + 1 <= y -> (Int_part x < Int_part y)%Z.
Proof.
  intros Hxy. destruct (base_Int_part x) as [Hx _].
  destruct (base_Int_part y) as [_ Hy]. apply lt_IZR. lra.
Qed.

Lemma wrap16_small (z : Z) : (-32768 <= z < 32768)%Z -> wrap16 z = z.
Proof. intros Hz. unfold wrap16. rewrite Z.mod_small; lia. Qed.

(** The second sample (index 1) at durations 5 and 2, for a frequency of
    the table's range: the two angles are 5u and 2u with u = 2 pi f / 220499,
    the sines are at least 1/8192 apart, and so are the truncated samples. *)
Lemma second_sample_differs (F : R) :
  20 <= F <= 4979 ->
  astype_int16 (8192 * sin (2 * PI * F * (5 / 220499)))
  <> astype_int16 (8192 * sin (2 * PI * F * (2 / 220499))).
Proof.
  intros [HF1 HF2].
  pose proof PI_gt_3 as Hpi3. pose proof PI_4 as Hpi4.
  assert (HP : 60 <= PI * F <= 19916) by nra.
  set (P := PI * F) in *.
  replace (2 * PI * F * (5 / 220499)) with (10 * P / 220499) by (unfold P; field).
  replace (2 * PI * F * (2 / 220499)) with (4 * P / 220499) by (unfold P; field).
  set (a5 := 10 * P / 220499). set (a2 := 4 * P / 220499).
  assert (Ha5 : 0 < a5 <= 1) by (unfold a5; split; lra).
  assert (Ha2 : 0 < a2 <= 1) by (unfold a2; split; lra).
  pose proof (sin_lower_linear a5 (conj (Rlt_le _ _ (proj1 Ha5)) (proj2 Ha5))) as Hs5.
  pose proof (sin_lower_linear a2 (conj (Rlt_le _ _ (proj1 Ha2)) (proj2 Ha2))) as Hs2lo.
  pose proof (sin_lt_x a2 (proj1 Ha2)) as Hs2.
  destruct (SIN_bound a5) as [_ Hs5hi].
  set (x5 := 8192 * sin a5). set (x2 := 8192 * sin a2).
  assert (Hgap : x2 + 1 <= x5) by (unfold x5, x2, a5, a2 in *; lra).
  assert (Hx2 : 0 <= x2) by (unfold x2, a2 in *; lra).
  assert (Hx5 : x5 <= 8192) by (unfold x5; lra).
  unfold astype_int16. rewrite !R_trunc_nonneg by lra.
  pose proof (Int_part_lt x2 x5 Hgap) as Hlt.
  pose proof (Int_part_range x2 0 8192 ltac:(lra)) as Hr2.
  pose proof (Int_part_range x5 0 8192 ltac:(lra)) as Hr5.
  rewrite !wrap16_small by lia. lia.
Qed.

Lemma timeline_second (duration : Z) :
  Q2R (linspace_at 0 (duration # 1) SOUND_ARRAY_LEN 1)
  = IZR duration / 220499.
Proof.
  transitivity (Q2R (duration # 220499)).
  - apply Qeq_eqR. unfold linspace_at.
    change ((1 <? SOUND_ARRAY_LEN)%Z && (1 =? SOUND_ARRAY_LEN - 1)%Z) with false.
    change (0 <? SOUND_ARRAY_LEN - 1)%Z with true.
    change (inject_Z (SOUND_ARRAY_LEN - 1)) with (220499 # 1)%Q.
    cbv iota. unfold Qeq, inject_Z. simpl. lia.
  - unfold Q2R. simpl. reflexivity.
Qed.

End RealBounds.

(** C10. For a note of the table whose frequency is not 0, the durations 5
    and 2 give waves of the same length with different samples: the second
    sample already differs. *)
Theorem create_note_duration_changes_samples (note : string) (frequency : Q) :
  NOTES !! note = Some frequency ->
  ~ (frequency == 0)%Q ->
  exists w5 w2 : list Z,
    create_note note 5 = ok w5
    /\ create_note note 2 = ok w2
    /\ ~ (5 == 2)%Q
    /\ length w5 = length w2
    /\ w5 !! 1%nat <> w2 !! 1%nat
    /\ w5 <> w2.
Proof.
  intros Hnote Hnz.
  destruct (create_note_sample note 5 frequency 1 Hnote) as (w5 & H5 & Hs5);
    [reflexivity|].
  destruct (create_note_sample note 2 frequency 1 Hnote) as (w2 & H2 & Hs2);
    [reflexivity|].
  pose proof (create_note_ok_length _ _ _ H5) as Hl5.
  pose proof (create_note_ok_length _ _ _ H2) as Hl2.
  assert (Hdiff : w5 !! 1%nat <> w2 !! 1%nat).
  { rewrite Hs5, Hs2. intros [= Heq]. revert Heq. unfold note_sample.
    change (Z.of_nat 1) with 1%Z.
    rewrite (timeline_second 5), (timeline_second 2).
    change (IZR MAX_AMPLITUDE) with 8192%R.
    apply second_sample_differs.
    destruct (frequency_range note frequency Hnote Hnz) as [Hlo Hhi].
    apply Qle_Rle in Hlo, Hhi. unfold Q2R in Hlo at 1. unfold Q2R in Hhi at 2.
    simpl in Hlo, Hhi. lra. }
  exists w5, w2. repeat split; try assumption.
  - discriminate.
  - lia.
  - intros ->. apply Hdiff. reflexivity.
Qed.

Lemma create_note_duration_changes_samples_witness :
  NOTES !! "a4" = Some 440.0000%Q /\ ~ (440.0000 == 0)%Q /\
  exists w5 w2 : list Z,
    create_note "a4" 5 = ok w5
    /\ create_note "a4" 2 = ok w2
    /\ ~ (5 == 2)%Q
    /\ length w5 = length w2
    /\ w5 !! 1%nat <> w2 !! 1%nat
    /\ w5 <> w2.
Proof.
  assert (Ha4 : NOTES !! "a4" = Some 440.0000%Q) by (vm_compute; reflexivity).
  assert (Hnz : ~ (440.0000 == 0)%Q) by discriminate.
  split; [exact Ha4|]. split; [exact Hnz|].
  exact (create_note_duration_changes_samples "a4" 440.0000%Q Ha4 Hnz).
Defined.

(** ** Worked examples *)

(** The matches Python's [re.findall] reports on a mixed input. *)
Example findall_mixed :
  findall
    (str "a9 .5s b#2 12.25s e0 .sa#3 5.g4 7s a#b3 1s g1 1.2.3s c3 s d4  1s")
  = [(str "a9", str " .5s"); (str "b#2", str " 12.25s"); (str "e0", str " .s");
     (str "a#3", []); (str "g4", str " 7s"); (str "b3", str " 1s");
     (str "g1", []); (str "c3", str " s"); (str "d4", [])].
Proof. vm_compute. reflexivity. Qed.

(** A duration without digits reaches [float] as blank text. *)
Example parse_melody_blank_duration :
  parse_melody (str "c3 s")
  = raise (ValueError "could not convert string to float").
Proof. vm_compute. reflexivity. Qed.

(** An octave outside the table is found by the pattern and refused by the
    table lookup. *)
Example generate_melody_a9 :
  generate_melody (str "a9") = raise (KeyError "a9").
Proof.
  unfold generate_melody.
  change (findall (str "a9")) with [(str "a9", @nil N)].
  cbn [melody_loop note_duration bind ok].
  rewrite create_note_unknown by (vm_compute; reflexivity). reflexivity.
Qed.

(** A digit of another script is a digit for [\d]: the letter a followed by
    ARABIC-INDIC DIGIT FOUR (U+0664) is found as a note, and it is the table
    lookup that refuses it, under its UTF-8 encoding. *)
Example generate_melody_arabic_indic :
  findall [97; 1636]%N = [([97; 1636]%N, [])]
  /\ generate_melody [97; 1636]%N = raise (KeyError (utf8 [97; 1636]%N)).
Proof.
  split; [vm_compute; reflexivity|].
  unfold generate_melody.
  change (findall [97; 1636]%N) with [([97; 1636]%N, @nil N)].
  cbn [melody_loop note_duration bind ok].
  rewrite create_note_unknown by (vm_compute; reflexivity). reflexivity.
Qed.

(** [float] reads the digits of every script by their value, and strips
    the whitespace of every script: EM SPACE (U+2003), ARABIC-INDIC DIGIT
    THREE, a point, ARABIC-INDIC DIGIT FIVE make 3.5. *)
Example parse_melody_arabic_indic_duration :
  parse_melody (str "a4" ++ [8195; 1635; 46; 1637]%N ++ str "s")
  = ok [(str "a4", 7 # 2)].
Proof. vm_compute. reflexivity. Qed.

(** The triangular ramp on five samples: x = 0, 1/4, 1/2, 3/4, 1. *)
Example triangular_five :
  exists out : list Q,
    convert_wave_type [100; -7; 3; 0; 12]%Q "triangular" = ok out
    /\ Qred <$> out = [-8192; 0; 8192; 0; -8192]%Q.
Proof. eexists. split; vm_compute; reflexivity. Qed.

Example square_five :
  convert_wave_type [100; -7; 3; 0; 12]%Q "square"
  = ok [8192; -8192; 8192; 0; 8192]%Q.
Proof. vm_compute. reflexivity. Qed.

(** The default envelope on ten samples: one sample each for attack, decay
    and release, zero in between. *)
Example apply_adsr_defaults :
  exists out : list Q,
    apply_adsr [1; 1; 1; 1; 1; 1; 1; 1; 1; 1]%Q
      default_attack default_decay default_sustain default_release = ok out
    /\ Qred <$> out = [0; 1; 0; 0; 0; 0; 0; 0; 0; 7 # 10]%Q.
Proof. eexists. split; vm_compute; reflexivity. Qed.

(** * Further properties of the code *)

#[local] Arguments create_note : simpl never.
#[local] Arguments linspace_samples : simpl never.

(** ** Sample values of [create_note] *)

Section SampleValues.

Local Open Scope R_scope.

Lemma R_trunc_opp (x : R) : R_trunc (- x) = (- R_trunc x)%Z.
Proof.
  unfold R_trunc.
  destruct (Rle_dec 0 x) as [Hx|Hx], (Rle_dec 0 (- x)) as [Hn|Hn].
  - assert (x = 0) as -> by lra. rewrite Ropp_0.
    pose proof (Int_part_range 0 0 0 ltac:(lra)). lia.
  - rewrite Ropp_involutive. reflexivity.
  - lia.
  - lra.
Qed.

Lemma R_trunc_range (x : R) (b : Z) :
  - IZR b <= x <= IZR b -> (- b <= R_trunc x <= b)%Z.
Proof.
  intros [Hlo Hhi]. unfold R_trunc. destruct (Rle_dec 0 x) as [Hx|Hx].
  - pose proof (Int_part_range x 0 b ltac:(lra)). lia.
  - pose proof (Int_part_range (- x) 0 b ltac:(lra)). lia.
Qed.

Lemma R_trunc_0 : R_trunc 0 = 0%Z.
Proof. pose proof (R_trunc_range 0 0 ltac:(lra)). lia. Qed.

(** A sine scaled by MAX_AMPLITUDE is cast without wrap-around. *)
Lemma astype_int16_sine (a : R) :
  astype_int16 (IZR MAX_AMPLITUDE * sin a) = R_trunc (IZR MAX_AMPLITUDE * sin a)
  /\ (- MAX_AMPLITUDE <= R_trunc (IZR MAX_AMPLITUDE * sin a) <= MAX_AMPLITUDE)%Z.
Proof.
  change MAX_AMPLITUDE with 8192%Z. destruct (SIN_bound a) as [Hlo Hhi].
  pose proof (R_trunc_range (8192 * sin a) 8192 ltac:(lra)) as Hr.
  split; [|exact Hr]. unfold astype_int16. apply wrap16_small. lia.
Qed.

Lemma astype_int16_sine_0 (a : R) :
  a = 0 -> astype_int16 (IZR MAX_AMPLITUDE * sin a) = 0%Z.
Proof.
  intros ->. rewrite sin_0, Rmult_0_r. unfold astype_int16.
  rewrite R_trunc_0. reflexivity.
Qed.

Lemma astype_int16_sine_opp (a : R) :
  astype_int16 (IZR MAX_AMPLITUDE * sin (- a))
  = (- astype_int16 (IZR MAX_AMPLITUDE * sin a))%Z.
Proof.
  destruct (astype_int16_sine a) as [-> Hr].
  destruct (astype_int16_sine (- a)) as [-> _].
  rewrite sin_neg, Ropp_mult_distr_r_reverse. apply R_trunc_opp.
Qed.

End SampleValues.

Lemma linspace_at_zero_stop (stop : Q) (num i : Z) :
  (stop == 0)%Q -> (linspace_at 0 stop num i == 0)%Q.
Proof.
  intros Hstop. unfold linspace_at.
  destruct ((1 <? num) && (i =? num - 1)); [exact Hstop|].
  destruct (0 <? num - 1); rewrite Hstop; unfold Qdiv; ring.
Qed.

Lemma linspace_at_first (stop : Q) (num : Z) :
  2 <= num -> (linspace_at 0 stop num 0 == 0)%Q.
Proof.
  intros Hnum. unfold linspace_at.
  destruct (Z.eqb_spec 0 (num - 1)) as [H|_]; [lia|].
  rewrite andb_false_r. destruct (0 <? num - 1); unfold Qdiv; ring.
Qed.

Lemma linspace_at_opp (stop : Q) (num i : Z) :
  (linspace_at 0 (- stop) num i == - linspace_at 0 stop num i)%Q.
Proof.
  unfold linspace_at.
  destruct ((1 <? num) && (i =? num - 1)); [reflexivity|].
  destruct (0 <? num - 1); unfold Qdiv; ring.
Qed.

(** X1. A note of the table, at any duration, never leaves the amplitude
    range: every sample lies in [-MAX_AMPLITUDE, MAX_AMPLITUDE], so the cast
    to int16 never wraps around. *)
Theorem create_note_amplitude (note : string) (duration : Q) :
  is_Some (NOTES !! note) ->
  exists wave : list Z,
    create_note note duration = ok wave
    /\ Forall (fun z => - MAX_AMPLITUDE <= z <= MAX_AMPLITUDE) wave.
Proof.
  intros [frequency Hnote]. rewrite (create_note_known _ _ _ Hnote).
  eexists. split; [reflexivity|]. unfold get_normed_sin.
  rewrite !Forall_fmap. apply Forall_forall. intros t _. unfold compose.
  destruct (astype_int16_sine (2 * PI * Q2R frequency * Q2R t)) as [-> Hr].
  exact Hr.
Qed.

Lemma create_note_amplitude_witness :
  is_Some (NOTES !! "g#3") /\
  exists wave : list Z,
    create_note "g#3" 0.25 = ok wave
    /\ Forall (fun z => - MAX_AMPLITUDE <= z <= MAX_AMPLITUDE) wave.
Proof.
  assert (Hn : is_Some (NOTES !! "g#3")) by (eexists; vm_compute; reflexivity).
  split; [exact Hn | exact (create_note_amplitude "g#3" 0.25 Hn)].
Defined.

(** X2. Silence: a note whose table frequency is 0 (the rest "0"), or any
    note of the table at duration 0, gives 220500 samples that are all 0. *)
Theorem create_note_silence (note : string) (frequency duration : Q) :
  NOTES !! note = Some frequency ->
  (frequency == 0)%Q \/ (duration == 0)%Q ->
  exists wave : list Z,
    create_note note duration = ok wave
    /\ Z.of_nat (length wave) = 220500
    /\ Forall (fun z => z = 0) wave.
Proof.
  intros Hnote Hzero. rewrite (create_note_known _ _ _ Hnote).
  eexists. split; [reflexivity|]. unfold get_normed_sin. split.
  { rewrite !length_fmap, length_linspace_samples.
    unfold SOUND_ARRAY_LEN, SAMPLING_RATE, DURATION_SECONDS. lia. }
  unfold linspace_samples.
  rewrite !Forall_fmap. apply Forall_forall. intros i _. unfold compose.
  apply astype_int16_sine_0.
  destruct Hzero as [Hf|Hd].
  - rewrite (Qeq_eqR _ _ Hf), RMicromega.Q2R_0. ring.
  - rewrite (Qeq_eqR _ _ (linspace_at_zero_stop duration SOUND_ARRAY_LEN i Hd)).
    rewrite RMicromega.Q2R_0. ring.
Qed.

Lemma create_note_silence_witness :
  NOTES !! "0" = Some 0%Q /\ ((0 == 0)%Q \/ (3 == 0)%Q) /\
  exists wave : list Z,
    create_note "0" 3 = ok wave
    /\ Z.of_nat (length wave) = 220500
    /\ Forall (fun z => z = 0) wave.
Proof.
  assert (Hn : NOTES !! "0" = Some 0%Q) by (vm_compute; reflexivity).
  assert (Hz : (0 == 0)%Q \/ (3 == 0)%Q) by (left; reflexivity).
  split; [exact Hn|]. split; [exact Hz|].
  exact (create_note_silence "0" 0 3 Hn Hz).
Defined.

(** X3. Every note starts at amplitude 0: the first sample of create_note
    is 0 for every note of the table and every duration. *)
Theorem create_note_starts_at_zero (note : string) (duration : Q) :
  is_Some (NOTES !! note) ->
  exists wave : list Z,
    create_note note duration = ok wave /\ wave !! 0%nat = Some 0.
Proof.
  intros [frequency Hnote].
  destruct (create_note_sample note duration frequency 0 Hnote)
    as (wave & Hwave & Hs); [reflexivity|].
  exists wave. split; [exact Hwave|]. rewrite Hs. f_equal.
  unfold note_sample. apply astype_int16_sine_0.
  change (Z.of_nat 0) with 0.
  assert (Hnum : 2 <= SOUND_ARRAY_LEN) by (vm_compute; discriminate).
  rewrite (Qeq_eqR _ _ (linspace_at_first duration SOUND_ARRAY_LEN Hnum)).
  rewrite RMicromega.Q2R_0. ring.
Qed.

Lemma create_note_starts_at_zero_witness :
  is_Some (NOTES !! "d#7") /\
  exists wave : list Z,
    create_note "d#7" 5 = ok wave /\ wave !! 0%nat = Some 0.
Proof.
  assert (Hn : is_Some (NOTES !! "d#7")) by (eexists; vm_compute; reflexivity).
  split; [exact Hn | exact (create_note_starts_at_zero "d#7" 5 Hn)].
Defined.

(** X4. A negative duration is not refused: it gives the wave of the
    positive duration with every sample negated. *)
Theorem create_note_negative_duration (note : string) (duration : Q) :
  is_Some (NOTES !! note) ->
  exists wave : list Z,
    create_note note duration = ok wave
    /\ create_note note (- duration) = ok (Z.opp <$> wave).
Proof.
  intros [frequency Hnote]. rewrite !(create_note_known _ _ _ Hnote).
  eexists. split; [reflexivity|]. apply (f_equal inr).
  unfold get_normed_sin, linspace_samples.
  rewrite <- !list_fmap_compose. apply list_fmap_ext. intros _ i _.
  unfold compose.
  rewrite (Qeq_eqR _ _ (linspace_at_opp duration SOUND_ARRAY_LEN i)), Q2R_opp.
  rewrite <- astype_int16_sine_opp.
  replace (2 * PI * Q2R frequency
           * - Q2R (linspace_at 0 duration SOUND_ARRAY_LEN i))%R
    with (- (2 * PI * Q2R frequency
             * Q2R (linspace_at 0 duration SOUND_ARRAY_LEN i)))%R by ring.
  reflexivity.
Qed.

Lemma create_note_negative_duration_witness :
  is_Some (NOTES !! "c4") /\
  exists wave : list Z,
    create_note "c4" 2 = ok wave
    /\ create_note "c4" (- 2) = ok (Z.opp <$> wave).
Proof.
  assert (Hn : is_Some (NOTES !! "c4")) by (eexists; vm_compute; reflexivity).
  split; [exact Hn | exact (create_note_negative_duration "c4" 2 Hn)].
Defined.

(** X5. create_note returns exactly for the names of the table; any other
    name raises KeyError with that name, whatever the duration. *)
Theorem create_note_key_error (note : string) (duration : Q) :
  (is_ok (create_note note duration) <-> is_Some (NOTES !! note))
  /\ (NOTES !! note = None ->
      create_note note duration = raise (KeyError note)).
Proof.
  split; [split|].
  - intros [wave Hwave]. destruct (NOTES !! note) as [f|] eqn:Hnote; [eauto|].
    rewrite (create_note_unknown _ _ Hnote) in Hwave. discriminate Hwave.
  - intros [f Hnote]. rewrite (create_note_known _ _ _ Hnote).
    eexists; reflexivity.
  - apply create_note_unknown.
Qed.

Lemma create_note_key_error_witness :
  NOTES !! "h2" = None /\ create_note "h2" 5 = raise (KeyError "h2").
Proof.
  assert (Hn : NOTES !! "h2" = None) by (vm_compute; reflexivity).
  split; [exact Hn | exact (proj2 (create_note_key_error "h2" 5) Hn)].
Defined.

(** ** More on the envelope *)

(** X6. When the three phases fit into the wave one after the other (and
    the release window has at least one sample), apply_adsr returns the wave
    multiplied sample by sample with: the ramp 0..1 over the attack, the ramp
    1..sustain over the decay, 0 up to the release window, and the ramp
    sustain..0 over the last samples.  The three lengths are the ones the
    code computes, int(len * fraction) on the float64 product. *)
Theorem adsr_envelope_phases (wave : list Q) (attack decay : float64)
    (sustain : Q) (release : float64) (A D Rl : Z) :
  phase_length wave attack = ok A ->
  phase_length wave decay = ok D ->
  phase_length wave release = ok Rl ->
  0 <= A -> 0 <= D -> 1 <= Rl ->
  A + D + Rl <= Z.of_nat (length wave) ->
  exists out : list Q,
    apply_adsr wave attack decay sustain release = ok out
    /\ length out = length wave
    /\ forall (i : nat) (x : Q),
        wave !! i = Some x ->
        out !! i =
        Some (x * envelope_at (Z.of_nat (length wave)) A D Rl sustain
                    (Z.of_nat i))%Q.
Proof. exact (apply_adsr_envelope wave attack decay sustain release A D Rl). Qed.

Lemma adsr_envelope_phases_witness :
  exists out : list Q,
    apply_adsr (replicate 50 1%Q)
      (float_of_Q 0.3) (float_of_Q 0.58) 0.5 (float_of_Q 0.1) = ok out
    /\ length out = 50%nat
    /\ forall (i : nat) (x : Q),
        replicate 50 1%Q !! i = Some x ->
        out !! i = Some (x * envelope_at 50 15 28 5 0.5 (Z.of_nat i))%Q.
Proof.
  apply (adsr_envelope_phases (replicate 50 1%Q)
           (float_of_Q 0.3) (float_of_Q 0.58) 0.5 (float_of_Q 0.1) 15 28 5);
    vm_compute; first [reflexivity | discriminate].
Defined.

(** X7. With an attack of at least one sample, phases that fit and a
    release window of at least one sample, the output starts at 0.  Its last
    sample is 0 when the release window has two samples or more; with a
    release window of exactly one sample it is the input's last sample times
    the sustain level. *)
Theorem adsr_first_and_last_sample (wave : list Q) (attack decay : float64)
    (sustain : Q) (release : float64) (A D Rl : Z) :
  phase_length wave attack = ok A ->
  phase_length wave decay = ok D ->
  phase_length wave release = ok Rl ->
  1 <= A -> 0 <= D -> 1 <= Rl ->
  A + D + Rl <= Z.of_nat (length wave) ->
  exists out : list Q,
    apply_adsr wave attack decay sustain release = ok out
    /\ (forall x : Q, wave !! 0%nat = Some x ->
        exists y : Q, out !! 0%nat = Some y /\ (y == 0)%Q)
    /\ (forall x : Q, wave !! (length wave - 1)%nat = Some x ->
        exists y : Q,
          out !! (length wave - 1)%nat = Some y
          /\ (2 <= Rl -> (y == 0)%Q)
          /\ (Rl = 1 -> (y == x * sustain)%Q)).
Proof.
  intros HpA HpD HpR HA HD HR Hfit.
  destruct (apply_adsr_envelope wave attack decay sustain release A D Rl)
    as (out & Hout & _ & Henv); try assumption; try lia.
  exists out. split; [exact Hout|].
  set (L := Z.of_nat (length wave)) in *.
  split.
  - intros x Hx. eexists. split; [apply (Henv _ _ Hx)|].
    unfold envelope_at. change (Z.of_nat 0) with 0.
    destruct (Z.ltb_spec 0 A) as [_|H]; [|lia].
    rewrite (linspace_at_start 0 1 A) by lia. ring.
  - intros x Hx. eexists. split; [apply (Henv _ _ Hx)|].
    assert (Hlast : Z.of_nat (length wave - 1) = L - 1) by (subst L; lia).
    unfold envelope_at. rewrite Hlast.
    destruct (Z.ltb_spec (L - 1) A) as [H|_]; [lia|].
    destruct (Z.ltb_spec (L - 1) (A + D)) as [H|_]; [lia|].
    destruct (Z.ltb_spec (L - 1) (L - Rl)) as [H|_]; [lia|].
    replace (L - 1 - (L - Rl)) with (Rl - 1) by lia. split.
    + intros H2. rewrite (linspace_at_stop sustain 0 Rl) by lia. ring.
    + intros H1. rewrite H1. change (1 - 1) with 0.
      rewrite (linspace_at_start sustain 0 1) by lia. reflexivity.
Qed.

Lemma adsr_first_and_last_sample_witness :
  exists out : list Q,
    apply_adsr [5; 5; 5]%Q (float_of_Q 0.34) float_zero 0.7 (float_of_Q (2 # 3))
    = ok out
    /\ (forall x : Q, [5; 5; 5]%Q !! 0%nat = Some x ->
        exists y : Q, out !! 0%nat = Some y /\ (y == 0)%Q)
    /\ (forall x : Q, [5; 5; 5]%Q !! 2%nat = Some x ->
        exists y : Q,
          out !! 2%nat = Some y
          /\ (2 <= 2 -> (y == 0)%Q)
          /\ (2 = 1 -> (y == x * 0.7)%Q)).
Proof.
  apply (adsr_first_and_last_sample [5; 5; 5]%Q
           (float_of_Q 0.34) float_zero 0.7 (float_of_Q (2 # 3)) 1 0 2);
    vm_compute; first [reflexivity | discriminate].
Defined.

(** X8. Whatever the arguments, a wave returned by apply_adsr has the
    length of the input wave. *)
Theorem apply_adsr_keeps_length (wave out : list Q) (attack decay : float64)
    (sustain : Q) (release : float64) :
  apply_adsr wave attack decay sustain release = ok out ->
  length out = length wave.
Proof.
  unfold apply_adsr. cbv zeta. intros H.
  apply bind_ok_inv in H as (A & _ & H).
  apply bind_ok_inv in H as (D & _ & H).
  apply bind_ok_inv in H as (Rl & _ & H).
  apply bind_ok_inv in H as (r1 & _ & H).
  apply bind_ok_inv in H as (e1 & [Hl1 _]%setitem_slice_frame & H).
  apply bind_ok_inv in H as (r2 & _ & H).
  apply bind_ok_inv in H as (e2 & [Hl2 _]%setitem_slice_frame & H).
  apply bind_ok_inv in H as (r3 & _ & H).
  apply bind_ok_inv in H as (e3 & [Hl3 _]%setitem_slice_frame & H).
  apply ok_inj in H. subst out.
  rewrite length_zip_with, Hl3, Hl2, Hl1, length_zeros. lia.
Qed.

Lemma apply_adsr_keeps_length_witness :
  apply_adsr [4; -4; 4; -4]%Q
    (float_of_Q 0.5) (float_of_Q 0.25) 0.5 (float_of_Q 0.25)
  = ok [0; -4; 4.0; -2.00]%Q
  /\ length [0; -4; 4.0; -2.00]%Q = length [4; -4; 4; -4]%Q.
Proof.
  assert (H : apply_adsr [4; -4; 4; -4]%Q
                (float_of_Q 0.5) (float_of_Q 0.25) 0.5 (float_of_Q 0.25)
              = ok [0; -4; 4.0; -2.00]%Q)
    by (vm_compute; reflexivity).
  split; [exact H | exact (apply_adsr_keeps_length _ _ _ _ _ _ H)].
Defined.

(** A value that neither has the slice's length nor length 1 is refused. *)
Lemma setitem_slice_mismatch (a v : list Q) (start stop : option Z) (lo hi : Z) :
  slice_bounds (Z.of_nat (length a)) start stop = (lo, hi) ->
  length v <> Z.to_nat (hi - lo) -> length v <> 1%nat ->
  setitem_slice a start stop v =
  raise (ValueError "could not broadcast input array").
Proof.
  intros Hb Hv H1. unfold setitem_slice. rewrite Hb.
  destruct (decide (length v = Z.to_nat (hi - lo))); [contradiction|].
  destruct v as [|x [|y v]]; [reflexivity | contradiction | reflexivity].
Qed.

(** X9. apply_adsr raises when one of the three phase lengths
    int(len * fraction) is negative, or when the attack phase is longer than
    the wave. *)
Theorem adsr_bad_phase_raises (wave : list Q) (attack decay : float64)
    (sustain : Q) (release : float64) :
  (exists A : Z, phase_length wave attack = ok A /\ A < 0)
  \/ (exists D : Z, phase_length wave decay = ok D /\ D < 0)
  \/ (exists Rl : Z, phase_length wave release = ok Rl /\ Rl < 0)
  \/ (exists A : Z, phase_length wave attack = ok A
                    /\ Z.of_nat (length wave) < A) ->
  raises (apply_adsr wave attack decay sustain release).
Proof.
  intros Hbad. unfold apply_adsr, phase_length in *. cbv zeta.
  apply raises_bind; intros A HA.
  apply raises_bind; intros D HD.
  apply raises_bind; intros Rl HR.
  destruct Hbad as [(A' & HA' & Hneg) | [(D' & HD' & Hneg)
                   | [(Rl' & HR' & Hneg) | (A' & HA' & Hlong)]]].
  - rewrite HA in HA'. apply ok_inj in HA'. subst A'.
    apply raises_bind_l, linspace_neg, Hneg.
  - rewrite HD in HD'. apply ok_inj in HD'. subst D'.
    do 2 (apply raises_bind; intros ? _).
    apply raises_bind_l, linspace_neg, Hneg.
  - rewrite HR in HR'. apply ok_inj in HR'. subst Rl'.
    do 4 (apply raises_bind; intros ? _).
    apply raises_bind_l, linspace_neg, Hneg.
  - rewrite HA in HA'. apply ok_inj in HA'. subst A'.
    assert (Hne : 1 <= Z.of_nat (length wave)).
    { destruct wave as [|x wave]; [|simpl; lia].
      exfalso. cbn [length] in HA, Hlong. clear HD HR.
      unfold int_of_product in HA. change (float_of_int (Z.of_nat 0))
        with (@ok float64 (S754_zero false)) in HA. cbn [bind ok] in HA.
      destruct attack as [s|s| |s m e]; try discriminate HA;
        cbn in HA; apply ok_inj in HA; subst A; simpl in Hlong; lia. }
    rewrite linspace_ok by lia. cbn [bind ok]. apply raises_bind_l.
    eexists. apply (setitem_slice_mismatch _ _ _ _ 0 (Z.of_nat (length wave))).
    + rewrite length_zeros. unfold slice_bounds, slice_index. simpl.
      destruct (Z.ltb_spec A 0); f_equal; lia.
    + rewrite nat_length_linspace_samples. lia.
    + rewrite nat_length_linspace_samples. lia.
Qed.

Lemma adsr_bad_phase_raises_witness :
  raises (apply_adsr [1; 2; 3; 4]%Q
            (float_of_Q (-0.5)) (float_of_Q 0.1) 0.7 (float_of_Q 0.25))
  /\ raises (apply_adsr [1; 2; 3; 4]%Q
               (float_of_Q 1.5) (float_of_Q 0.1) 0.7 (float_of_Q 0.25)).
Proof.
  split.
  - apply (adsr_bad_phase_raises [1; 2; 3; 4]%Q
             (float_of_Q (-0.5)) (float_of_Q 0.1) 0.7 (float_of_Q 0.25)).
    left. exists (-2). split; [vm_compute; reflexivity | lia].
  - apply (adsr_bad_phase_raises [1; 2; 3; 4]%Q
             (float_of_Q 1.5) (float_of_Q 0.1) 0.7 (float_of_Q 0.25)).
    do 3 right. exists 6. split; [vm_compute; reflexivity | simpl; lia].
Defined.

(** X10. On the empty wave apply_adsr returns the empty wave for all finite
    fractions (release = 0 fails only on waves that have samples); a
    fraction that is an infinity or a NaN makes 0 * fraction a NaN, and int
    raises. *)
Theorem apply_adsr_empty (attack decay : float64) (sustain : Q)
    (release : float64) :
  (float_finite attack = true ->
   float_finite decay = true ->
   float_finite release = true ->
   apply_adsr [] attack decay sustain release = ok [])
  /\ (float_finite attack = false
      \/ float_finite decay = false
      \/ float_finite release = false ->
      raises (apply_adsr [] attack decay sustain release)).
Proof.
  split.
  - intros HA HD HR. unfold apply_adsr.
    change (Z.of_nat (length (@nil Q))) with 0.
    rewrite !int_of_product_no_samples by assumption. reflexivity.
  - intros Hbad. unfold apply_adsr. change (Z.of_nat (length (@nil Q))) with 0.
    assert (Hnan : forall x : float64,
               float_finite x = false -> raises (int_of_product 0 x)).
    { intros [s|s| |s m e] Hx; try discriminate Hx; eexists; reflexivity. }
    destruct Hbad as [HA | [HD | HR]].
    + apply raises_bind_l, Hnan, HA.
    + apply raises_bind; intros A _. apply raises_bind_l, Hnan, HD.
    + apply raises_bind; intros A _. apply raises_bind; intros D _.
      apply raises_bind_l, Hnan, HR.
Qed.

Lemma apply_adsr_empty_witness :
  apply_adsr [] (float_of_Q 0.1) (float_of_Q 0.1) 0.7 float_zero = ok []
  /\ raises (apply_adsr [] (float_of_Q 0.1) S754_nan 0.7 (float_of_Q 0.1)).
Proof.
  split.
  - apply (proj1 (apply_adsr_empty (float_of_Q 0.1) (float_of_Q 0.1) 0.7
                    float_zero)); reflexivity.
  - apply (proj2 (apply_adsr_empty (float_of_Q 0.1) S754_nan 0.7
                    (float_of_Q 0.1))).
    right. left. reflexivity.
Defined.

(** ** More on the wave shapes *)

Lemma square_sample_cases (x : Q) :
  ((0 < x)%Q -> square_sample x = inject_Z MAX_AMPLITUDE)
  /\ ((x == 0)%Q -> square_sample x = 0%Q)
  /\ ((x < 0)%Q -> square_sample x = (- inject_Z MAX_AMPLITUDE)%Q).
Proof.
  destruct x as [[|p|p] d]; unfold Qlt, Qeq; simpl;
    repeat split; intros H; first [reflexivity | lia].
Qed.

Lemma square_sample_idempotent (x : Q) :
  square_sample (square_sample x) = square_sample x.
Proof. destruct x as [[|p|p] d]; reflexivity. Qed.

(** X11. The square conversion keeps the length and maps every sample to
    its sign times MAX_AMPLITUDE: a positive sample to 8192, a zero sample
    to 0, a negative sample to -8192. *)
Theorem square_wave_levels (wave : list Q) :
  exists out : list Q,
    convert_wave_type wave "square" = ok out
    /\ length out = length wave
    /\ forall (i : nat) (x : Q),
        wave !! i = Some x ->
        exists y : Q,
          out !! i = Some y
          /\ ((0 < x)%Q -> y = inject_Z MAX_AMPLITUDE)
          /\ ((x == 0)%Q -> y = 0%Q)
          /\ ((x < 0)%Q -> y = (- inject_Z MAX_AMPLITUDE)%Q).
Proof.
  rewrite convert_wave_type_square. eexists. split; [reflexivity|].
  split; [apply length_fmap|].
  intros i x Hx. exists (square_sample x).
  split; [rewrite list_lookup_fmap, Hx; reflexivity|].
  apply square_sample_cases.
Qed.

Lemma square_wave_levels_witness :
  exists out : list Q,
    convert_wave_type [3 # 2; 0; -7]%Q "square" = ok out
    /\ length out = 3%nat
    /\ forall (i : nat) (x : Q),
        [3 # 2; 0; -7]%Q !! i = Some x ->
        exists y : Q,
          out !! i = Some y
          /\ ((0 < x)%Q -> y = inject_Z MAX_AMPLITUDE)
          /\ ((x == 0)%Q -> y = 0%Q)
          /\ ((x < 0)%Q -> y = (- inject_Z MAX_AMPLITUDE)%Q).
Proof. exact (square_wave_levels [3 # 2; 0; -7]%Q). Defined.

(** X12. Squaring is idempotent: converting a square wave to 'square' again
    returns it unchanged. *)
Theorem square_idempotent (wave out : list Q) :
  convert_wave_type wave "square" = ok out ->
  convert_wave_type out "square" = ok out.
Proof.
  rewrite !convert_wave_type_square. intros H%ok_inj. subst out.
  apply (f_equal inr). rewrite <- list_fmap_compose.
  apply list_fmap_ext. intros _ x _. apply square_sample_idempotent.
Qed.

Lemma square_idempotent_witness :
  convert_wave_type [3 # 2; 0; -7]%Q "square" = ok [8192; 0; -8192]%Q
  /\ convert_wave_type [8192; 0; -8192]%Q "square" = ok [8192; 0; -8192]%Q.
Proof.
  assert (H : convert_wave_type [3 # 2; 0; -7]%Q "square"
              = ok [8192; 0; -8192]%Q) by (vm_compute; reflexivity).
  split; [exact H | exact (square_idempotent _ _ H)].
Defined.

Lemma linspace_at_middle (k : Z) :
  1 <= k -> (linspace_at 0 1 (2 * k + 1) k == 1 # 2)%Q.
Proof.
  intros Hk. unfold linspace_at.
  destruct (Z.eqb_spec k (2 * k + 1 - 1)) as [H|_]; [lia|].
  rewrite andb_false_r.
  destruct (Z.ltb_spec 0 (2 * k + 1 - 1)) as [_|H]; [|lia].
  replace (2 * k + 1 - 1) with (2 * k) by lia. rewrite inject_Z_mult.
  assert (Hk0 : ~ (inject_Z k == 0)%Q).
  { change 0%Q with (inject_Z 0). rewrite inject_Z_injective. lia. }
  change (inject_Z 2) with 2%Q. field. exact Hk0.
Qed.

(** X13. The triangular ramp, whatever the input's samples: on a nonempty
    wave the first and the last output sample are -MAX_AMPLITUDE, and on a
    wave of odd length 2k+1 >= 3 the middle sample is +MAX_AMPLITUDE. *)
Theorem triangular_landmarks (wave : list Q) :
  wave <> [] ->
  exists out : list Q,
    convert_wave_type wave "triangular" = ok out
    /\ (exists y : Q, out !! 0%nat = Some y
                      /\ (y == - inject_Z MAX_AMPLITUDE)%Q)
    /\ (exists y : Q, out !! (length wave - 1)%nat = Some y
                      /\ (y == - inject_Z MAX_AMPLITUDE)%Q)
    /\ (forall k : nat,
          length wave = (2 * k + 1)%nat -> (1 <= k)%nat ->
          exists y : Q, out !! k = Some y /\ (y == inject_Z MAX_AMPLITUDE)%Q).
Proof.
  intros Hne. rewrite convert_wave_type_triangular.
  eexists. split; [reflexivity|].
  assert (Hlen : (1 <= length wave)%nat).
  { destruct wave; [contradiction | simpl; lia]. }
  set (n := Z.of_nat (length wave)).
  assert (Hat : forall j : nat, Z.of_nat j < n ->
            (triangular_sample <$> linspace_samples 0 1 n) !! j
            = Some (triangular_sample (linspace_at 0 1 n (Z.of_nat j)))).
  { intros j Hj. rewrite list_lookup_fmap, lookup_linspace_samples by exact Hj.
    reflexivity. }
  split; [|split].
  - eexists. split; [apply Hat; lia|].
    rewrite (triangular_sample_wd _ 0); [reflexivity|].
    apply linspace_at_start. lia.
  - eexists. split; [apply Hat; lia|].
    destruct (decide (length wave = 1%nat)) as [H1|H1].
    + rewrite H1. rewrite (triangular_sample_wd _ 0); [reflexivity|].
      apply linspace_at_start. lia.
    + replace (Z.of_nat (length wave - 1)) with (n - 1) by lia.
      rewrite linspace_at_stop by lia. reflexivity.
  - intros k Hk Hk1. eexists. split; [apply Hat; lia|].
    rewrite (triangular_sample_wd _ (1 # 2)); [reflexivity|].
    replace n with (2 * Z.of_nat k + 1) by lia.
    apply linspace_at_middle. lia.
Qed.

Lemma triangular_landmarks_witness :
  exists out : list Q,
    convert_wave_type [9; 9; 9; 9; 9; 9; 9]%Q "triangular" = ok out
    /\ (exists y : Q, out !! 0%nat = Some y
                      /\ (y == - inject_Z MAX_AMPLITUDE)%Q)
    /\ (exists y : Q, out !! 6%nat = Some y
                      /\ (y == - inject_Z MAX_AMPLITUDE)%Q)
    /\ (forall k : nat,
          7%nat = (2 * k + 1)%nat -> (1 <= k)%nat ->
          exists y : Q, out !! k = Some y /\ (y == inject_Z MAX_AMPLITUDE)%Q).
Proof.
  apply (triangular_landmarks [9; 9; 9; 9; 9; 9; 9]%Q). discriminate.
Defined.

(** ** More on normalisation *)

Lemma Qmax_scale (m y k : Q) :
  (0 < k)%Q -> (Qmax (m * k) (y * k) == Qmax m y * k)%Q.
Proof.
  intros Hk. destruct (Qlt_le_dec m y) as [Hlt|Hle].
  - rewrite (Q.max_r m y) by (apply Qlt_le_weak; exact Hlt).
    apply Q.max_r. apply Qmult_le_compat_r; lra.
  - rewrite (Q.max_l m y) by exact Hle.
    apply Q.max_l. apply Qmult_le_compat_r; lra.
Qed.

Lemma Qabs_div_pos (x c : Q) : (0 < c)%Q -> (Qabs (x / c) == Qabs x / c)%Q.
Proof.
  intros Hc. unfold Qdiv. rewrite Qabs_Qmult.
  rewrite (Qabs_pos (/ c)); [reflexivity|].
  apply Qinv_le_0_compat. lra.
Qed.

Lemma foldl_max_abs_scale (rest : list Q) (m m' c : Q) :
  (0 < c)%Q -> (m' == m / c)%Q ->
  (foldl (fun m y => Qmax m (Qabs y)) m' ((fun x => x / c)%Q <$> rest)
   == foldl (fun m y => Qmax m (Qabs y)) m rest / c)%Q.
Proof.
  intros Hc. revert m m'. induction rest as [|y rest IH]; intros m m' Hm; simpl.
  - exact Hm.
  - apply IH.
    rewrite (Q.max_compat _ _ Hm _ _ (Qabs_div_pos y c Hc)).
    unfold Qdiv. apply Qmax_scale. apply Qinv_lt_0_compat. exact Hc.
Qed.

(** Dividing a wave by a positive number divides its peak. *)
Lemma np_max_abs_scale (wave : list Q) (peak c : Q) :
  (0 < c)%Q -> np_max_abs wave = ok peak ->
  exists p : Q,
    np_max_abs ((fun x => x / c)%Q <$> wave) = ok p /\ (p == peak / c)%Q.
Proof.
  intros Hc Hpeak. destruct wave as [|x rest]; [discriminate|].
  apply ok_inj in Hpeak. subst peak. eexists. split; [reflexivity|].
  apply foldl_max_abs_scale; [exact Hc | apply Qabs_div_pos; exact Hc].
Qed.

Lemma np_max_abs_pos (wave : list Q) (peak : Q) :
  np_max_abs wave = ok peak ->
  (exists x, x ∈ wave /\ ~ (x == 0)%Q) ->
  (0 < peak)%Q.
Proof.
  intros Hpeak (x & Hx & Hx0).
  pose proof (np_max_abs_bound wave peak Hpeak) as Hbound.
  rewrite Forall_forall in Hbound. specialize (Hbound x Hx).
  pose proof (Qabs_nonneg x) as H0.
  destruct (Qlt_le_dec 0 (Qabs x)) as [Hlt|Hle]; [lra|].
  exfalso. apply Hx0. assert (Hz : (Qabs x == 0)%Q) by lra.
  revert Hz. apply Qabs_case; intros; lra.
Qed.

(** Each wave and its normalised wave, side by side. *)
Lemma normalize_loop_lookup (min_length : Z) (waves outs : list (list Q))
    (i : nat) (wave : list Q) :
  normalize_loop min_length waves = ok outs ->
  waves !! i = Some wave ->
  exists peak : Q,
    np_max_abs wave = ok peak
    /\ outs !! i
       = Some ((fun x => x / peak)%Q <$> getitem_slice wave None (Some min_length)).
Proof.
  revert outs i. induction waves as [|w rest IH]; intros outs i Hloop Hi;
    [discriminate|].
  simpl in Hloop. apply bind_ok_inv in Hloop as (peak & Hpeak & Hloop).
  apply bind_ok_inv in Hloop as (tail & Htail & Hloop).
  apply ok_inj in Hloop. subst outs.
  destruct i as [|i]; simpl in Hi |- *.
  - injection Hi as <-. eauto.
  - exact (IH tail i Htail Hi).
Qed.

Lemma min_length_of_attained {A} (waves : list (list A)) (min_length : Z) :
  min_length_of waves = ok min_length ->
  exists w, w ∈ waves /\ Z.of_nat (length w) = min_length.
Proof.
  destruct waves as [|wave rest]; [discriminate|]. intros <-%ok_inj.
  assert (Hfold : forall (l : list (list A)) (m : Z),
            foldl (fun m w => Z.min m (Z.of_nat (length w))) m l = m
            \/ exists w, w ∈ l
                 /\ Z.of_nat (length w)
                    = foldl (fun m w => Z.min m (Z.of_nat (length w))) m l).
  { induction l as [|w l IH]; intros m; simpl; [left; reflexivity|].
    destruct (IH (Z.min m (Z.of_nat (length w)))) as [Heq | (w' & Hw' & Heq)].
    - rewrite Heq. destruct (Z.min_spec m (Z.of_nat (length w))) as [[_ ->]|[_ ->]].
      + left. reflexivity.
      + right. exists w. split; [apply list_elem_of_here | reflexivity].
    - right. exists w'. split; [apply list_elem_of_further, Hw' | exact Heq]. }
  destruct (Hfold rest (Z.of_nat (length wave))) as [Heq | (w & Hw & Heq)].
  - exists wave. split; [apply list_elem_of_here | symmetry; exact Heq].
  - exists w. split; [apply list_elem_of_further, Hw | exact Heq].
Qed.

Lemma np_max_abs_ok (wave : list Q) :
  wave <> [] -> exists peak, np_max_abs wave = ok peak.
Proof. destruct wave; [contradiction | eexists; reflexivity]. Qed.

(** The peak of each returned wave is the peak of the part that is kept
    divided by the peak of the whole input wave. *)
Lemma normalize_peak_ratio_aux (waves : list (list Q)) :
  waves <> [] ->
  Forall (fun w => exists x, x ∈ w /\ ~ (x == 0)%Q) waves ->
  exists (min_length : Z) (outs : list (list Q)),
    min_length_of waves = ok min_length
    /\ normalize_sound_waves waves = ok outs
    /\ forall (i : nat) (wave : list Q),
        waves !! i = Some wave ->
        exists (out : list Q) (peak kept p : Q),
          outs !! i = Some out
          /\ np_max_abs wave = ok peak
          /\ np_max_abs (take (Z.to_nat min_length) wave) = ok kept
          /\ np_max_abs out = ok p
          /\ (p == kept / peak)%Q.
Proof.
  intros Hne Hnz.
  destruct (normalize_sound_waves_shape waves Hne Hnz)
    as (min_length & outs & Hmin & Hnorm & _).
  exists min_length, outs. split; [exact Hmin|]. split; [exact Hnorm|].
  destruct (min_length_of_le waves min_length Hmin) as [H0 Hle].
  assert (H1 : 1 <= min_length).
  { destruct (min_length_of_attained waves min_length Hmin) as (w & Hw & <-).
    rewrite Forall_forall in Hnz. destruct (Hnz w Hw) as (x & Hx & _).
    destruct w; [inversion Hx | simpl; lia]. }
  unfold normalize_sound_waves in Hnorm. rewrite Hmin in Hnorm.
  cbn [bind] in Hnorm.
  intros i wave Hi.
  destruct (normalize_loop_lookup _ _ _ _ _ Hnorm Hi) as (peak & Hpeak & Hout).
  rewrite Forall_lookup in Hle. specialize (Hle i wave Hi).
  rewrite Forall_lookup in Hnz. specialize (Hnz i wave Hi).
  rewrite length_getitem_prefix in Hout by lia.
  pose proof (np_max_abs_pos wave peak Hpeak Hnz) as Hpos.
  destruct (np_max_abs_ok (take (Z.to_nat min_length) wave)) as [kept Hkept].
  { intros Hnil. apply (f_equal length) in Hnil.
    rewrite length_take in Hnil. simpl in Hnil. lia. }
  destruct (np_max_abs_scale _ kept peak Hpos Hkept) as (p & Hp & Hratio).
  eexists _, peak, kept, p. eauto.
Qed.

Lemma normalize_equal_lengths_aux (waves : list (list Q)) (n : nat) :
  waves <> [] ->
  Forall (fun w => length w = n) waves ->
  Forall (fun w => exists x, x ∈ w /\ ~ (x == 0)%Q) waves ->
  exists outs : list (list Q),
    normalize_sound_waves waves = ok outs
    /\ length outs = length waves
    /\ Forall (fun out => exists p : Q, np_max_abs out = ok p /\ (p == 1)%Q)
              outs.
Proof.
  intros Hne Hlen Hnz.
  destruct (normalize_sound_waves_shape waves Hne Hnz)
    as (min_length' & outs' & Hmin' & Hnorm' & Hcount & _).
  destruct (normalize_peak_ratio_aux waves Hne Hnz)
    as (min_length & outs & Hmin & Hnorm & Hratio).
  rewrite Hnorm' in Hnorm. apply ok_inj in Hnorm. subst outs'.
  exists outs. split; [exact Hnorm'|]. split; [exact Hcount|].
  destruct (min_length_of_attained waves min_length Hmin) as (w0 & Hw0 & Hn).
  rewrite Forall_forall in Hlen. rewrite (Hlen w0 Hw0) in Hn.
  rewrite Forall_lookup. intros i out Hout.
  destruct (lookup_lt_is_Some_2 waves i) as [wave Hwave].
  { rewrite <- Hcount. exact (lookup_lt_Some _ _ _ Hout). }
  destruct (Hratio i wave Hwave) as (out' & peak & kept & p & Ho & Hpeak & Hkept
                                     & Hp & Hr).
  rewrite Hout in Ho. injection Ho as <-.
  exists p. split; [exact Hp|].
  rewrite take_ge in Hkept
    by (rewrite (Hlen wave (list_elem_of_lookup_2 _ _ _ Hwave)); lia).
  rewrite Hpeak in Hkept. apply ok_inj in Hkept. subst kept.
  rewrite Forall_lookup in Hnz.
  pose proof (np_max_abs_pos wave peak Hpeak (Hnz i wave Hwave)) as Hpos.
  rewrite Hr. field. lra.
Qed.

(** *** int16 waves

    On int16 waves without the sample -32768 the absolute values are exact,
    and the function agrees with the one on float64 waves of the same
    values. *)

Lemma int16_abs_symmetric (z : Z) : int16_symmetric z -> int16_abs z = Z.abs z.
Proof.
  unfold int16_symmetric, int16_abs. intros Hz. apply wrap16_small. lia.
Qed.

Lemma Qmax_inject_Z (a b : Z) :
  Qmax (inject_Z a) (inject_Z b) = inject_Z (Z.max a b).
Proof.
  unfold Qmax, GenericMinMax.gmax, Qcompare, Z.max. simpl.
  rewrite !Z.mul_1_r. destruct (a ?= b); reflexivity.
Qed.

Lemma foldl_max_abs_int16 (rest : list Z) (m : Z) :
  Forall int16_symmetric rest ->
  foldl (fun m y => Qmax m (Qabs y)) (inject_Z m) (as_float64 rest)
  = inject_Z (foldl (fun m y => Z.max m (int16_abs y)) m rest).
Proof.
  revert m. induction rest as [|y rest IH]; intros m Hrest; [reflexivity|].
  apply Forall_cons in Hrest as [Hy Hrest].
  unfold as_float64. rewrite fmap_cons. cbn [foldl].
  change (Qabs (inject_Z y)) with (inject_Z (Z.abs y)).
  rewrite Qmax_inject_Z, <- (int16_abs_symmetric y Hy). apply IH, Hrest.
Qed.

Lemma np_max_abs_as_float64 (wave : list Z) :
  Forall int16_symmetric wave ->
  np_max_abs (as_float64 wave)
  = let* peak := np_max_abs_int16 wave in ok (inject_Z peak).
Proof.
  destruct wave as [|x rest]; [reflexivity|].
  intros [Hx Hrest]%Forall_cons.
  unfold as_float64. rewrite fmap_cons. cbn [np_max_abs np_max_abs_int16 bind ok].
  apply (f_equal inr).
  change (Qabs (inject_Z x)) with (inject_Z (Z.abs x)).
  rewrite <- (int16_abs_symmetric x Hx). apply foldl_max_abs_int16, Hrest.
Qed.

Lemma np_max_abs_int16_peak (wave : list Z) (peak : Q) :
  Forall int16_symmetric wave ->
  np_max_abs (as_float64 wave) = ok peak ->
  exists p : Z, np_max_abs_int16 wave = ok p /\ peak = inject_Z p.
Proof.
  intros Hsym. rewrite (np_max_abs_as_float64 wave Hsym).
  intros (p & Hp & Heq)%bind_ok_inv. apply ok_inj in Heq. eauto.
Qed.

Lemma length_as_float64 (wave : list Z) :
  length (as_float64 wave) = length wave.
Proof. apply length_fmap. Qed.

Lemma min_length_of_as_float64 (waves : list (list Z)) :
  min_length_of (as_float64 <$> waves) = min_length_of waves.
Proof.
  destruct waves as [|wave rest]; [reflexivity|].
  rewrite fmap_cons. cbn [min_length_of]. apply (f_equal inr).
  rewrite length_as_float64.
  generalize (Z.of_nat (length wave)). induction rest as [|w rest IH]; intros m;
    [reflexivity|].
  rewrite fmap_cons. cbn [foldl]. rewrite length_as_float64. apply IH.
Qed.

Lemma normalize_loop_as_float64 (min_length : Z) (waves : list (list Z)) :
  Forall (Forall int16_symmetric) waves ->
  normalize_loop_int16 min_length waves
  = normalize_loop min_length (as_float64 <$> waves).
Proof.
  induction 1 as [|wave rest Hsym _ IH]; [reflexivity|].
  rewrite fmap_cons. cbn [normalize_loop_int16 normalize_loop].
  rewrite (np_max_abs_as_float64 wave Hsym), IH.
  destruct (np_max_abs_int16 wave) as [e|peak]; [reflexivity|]. cbn [bind ok].
  destruct (normalize_loop min_length (as_float64 <$> rest)) as [e|outs];
    [reflexivity|]. cbn [bind ok]. apply (f_equal inr). f_equal.
  unfold getitem_slice. rewrite length_as_float64. unfold as_float64.
  destruct (slice_bounds (Z.of_nat (length wave)) None (Some min_length))
    as [lo hi].
  rewrite <- fmap_drop, <- fmap_take, <- list_fmap_compose. reflexivity.
Qed.

Lemma normalize_sound_waves_as_float64 (waves : list (list Z)) :
  Forall (Forall int16_symmetric) waves ->
  normalize_sound_waves_int16 waves
  = normalize_sound_waves (as_float64 <$> waves).
Proof.
  intros Hsym. unfold normalize_sound_waves_int16, normalize_sound_waves.
  rewrite min_length_of_as_float64.
  destruct (min_length_of waves) as [e|min_length]; [reflexivity|].
  cbn [bind]. apply normalize_loop_as_float64, Hsym.
Qed.

Lemma nonzero_as_float64 (waves : list (list Z)) :
  Forall (fun w => exists x, x ∈ w /\ x <> 0) waves ->
  Forall (fun w => exists x, x ∈ w /\ ~ (x == 0)%Q) (as_float64 <$> waves).
Proof.
  intros Hnz. apply Forall_fmap. eapply Forall_impl; [exact Hnz|].
  intros w (x & Hx & Hx0). exists (inject_Z x). split.
  - unfold as_float64. apply list_elem_of_fmap. eauto.
  - unfold Qeq. simpl. lia.
Qed.

Lemma as_float64_nonempty (waves : list (list Z)) :
  waves <> [] -> as_float64 <$> waves <> [].
Proof. destruct waves; [contradiction | discriminate]. Qed.

(** The wrap-around at work: -32768 is its own absolute value, so the peak
    of [-32768, 1] is taken to be 1 and the wave comes back unscaled. *)
Example normalize_int16_wraps :
  normalize_sound_waves_int16 [[-32768; 1]] = ok [[-32768; 1]]%Q.
Proof. vm_compute. reflexivity. Qed.

(** X14. On a nonempty list of waves that each have a nonzero sample,
    normalize_sound_waves returns one wave per input, each cut to the
    minimum input length, with every sample in [-1, 1]: for float64 waves,
    and for int16 waves that do not contain -32768. *)
Theorem normalize_count_length_range :
  (forall waves : list (list Q),
      waves <> [] ->
      Forall (fun w => exists x, x ∈ w /\ ~ (x == 0)%Q) waves ->
      exists (min_length : Z) (outs : list (list Q)),
        min_length_of waves = ok min_length
        /\ normalize_sound_waves waves = ok outs
        /\ length outs = length waves
        /\ Forall (fun out => Z.of_nat (length out) = min_length) outs
        /\ Forall (Forall (fun y => (-1 <= y <= 1)%Q)) outs)
  /\ (forall waves : list (list Z),
        waves <> [] ->
        Forall (Forall int16_symmetric) waves ->
        Forall (fun w => exists x, x ∈ w /\ x <> 0) waves ->
        exists (min_length : Z) (outs : list (list Q)),
          min_length_of waves = ok min_length
          /\ normalize_sound_waves_int16 waves = ok outs
          /\ length outs = length waves
          /\ Forall (fun out => Z.of_nat (length out) = min_length) outs
          /\ Forall (Forall (fun y => (-1 <= y <= 1)%Q)) outs).
Proof.
  split; [exact normalize_sound_waves_shape|].
  intros waves Hne Hsym Hnz.
  destruct (normalize_sound_waves_shape (as_float64 <$> waves)
              (as_float64_nonempty waves Hne) (nonzero_as_float64 waves Hnz))
    as (min_length & outs & Hmin & Hnorm & Hcount & Hcut & Hrange).
  exists min_length, outs.
  rewrite min_length_of_as_float64 in Hmin.
  rewrite <- (normalize_sound_waves_as_float64 waves Hsym) in Hnorm.
  rewrite length_fmap in Hcount. auto.
Qed.

Lemma normalize_count_length_range_witness :
  (exists (min_length : Z) (outs : list (list Q)),
      min_length_of [[1; -3; 2]; [0; 5]]%Q = ok min_length
      /\ normalize_sound_waves [[1; -3; 2]; [0; 5]]%Q = ok outs
      /\ length outs = 2%nat
      /\ Forall (fun out => Z.of_nat (length out) = min_length) outs
      /\ Forall (Forall (fun y => (-1 <= y <= 1)%Q)) outs)
  /\ (exists (min_length : Z) (outs : list (list Q)),
        min_length_of [[1; -32767; 2]; [0; 5]] = ok min_length
        /\ normalize_sound_waves_int16 [[1; -32767; 2]; [0; 5]] = ok outs
        /\ length outs = 2%nat
        /\ Forall (fun out => Z.of_nat (length out) = min_length) outs
        /\ Forall (Forall (fun y => (-1 <= y <= 1)%Q)) outs).
Proof.
  split.
  - apply (proj1 normalize_count_length_range [[1; -3; 2]; [0; 5]]%Q);
      [discriminate|].
    apply Forall_cons; split; [has_sample 1%Q|].
    apply Forall_cons; split; [has_sample 5%Q | apply Forall_nil_2].
  - apply (proj2 normalize_count_length_range [[1; -32767; 2]; [0; 5]]);
      [discriminate | |].
    + repeat (apply Forall_cons; split); try apply Forall_nil_2;
        unfold int16_symmetric; lia.
    + apply Forall_cons; split; [has_sample 1|].
      apply Forall_cons; split; [has_sample 5 | apply Forall_nil_2].
Defined.

(** X15. The peak law of normalize_sound_waves: each returned wave has as
    peak the peak of the kept part (the first min_length samples) of its
    input wave divided by the peak of the whole input wave: for float64
    waves, and for int16 waves that do not contain -32768. *)
Theorem normalize_peak_ratio :
  (forall waves : list (list Q),
      waves <> [] ->
      Forall (fun w => exists x, x ∈ w /\ ~ (x == 0)%Q) waves ->
      exists (min_length : Z) (outs : list (list Q)),
        min_length_of waves = ok min_length
        /\ normalize_sound_waves waves = ok outs
        /\ forall (i : nat) (wave : list Q),
            waves !! i = Some wave ->
            exists (out : list Q) (peak kept p : Q),
              outs !! i = Some out
              /\ np_max_abs wave = ok peak
              /\ np_max_abs (take (Z.to_nat min_length) wave) = ok kept
              /\ np_max_abs out = ok p
              /\ (p == kept / peak)%Q)
  /\ (forall waves : list (list Z),
        waves <> [] ->
        Forall (Forall int16_symmetric) waves ->
        Forall (fun w => exists x, x ∈ w /\ x <> 0) waves ->
        exists (min_length : Z) (outs : list (list Q)),
          min_length_of waves = ok min_length
          /\ normalize_sound_waves_int16 waves = ok outs
          /\ forall (i : nat) (wave : list Z),
              waves !! i = Some wave ->
              exists (out : list Q) (peak kept : Z) (p : Q),
                outs !! i = Some out
                /\ np_max_abs_int16 wave = ok peak
                /\ np_max_abs_int16 (take (Z.to_nat min_length) wave) = ok kept
                /\ np_max_abs out = ok p
                /\ (p == inject_Z kept / inject_Z peak)%Q).
Proof.
  split; [exact normalize_peak_ratio_aux|].
  intros waves Hne Hsym Hnz.
  destruct (normalize_peak_ratio_aux (as_float64 <$> waves)
              (as_float64_nonempty waves Hne) (nonzero_as_float64 waves Hnz))
    as (min_length & outs & Hmin & Hnorm & Hratio).
  exists min_length, outs.
  rewrite min_length_of_as_float64 in Hmin.
  rewrite <- (normalize_sound_waves_as_float64 waves Hsym) in Hnorm.
  split; [exact Hmin|]. split; [exact Hnorm|].
  intros i wave Hwave.
  destruct (Hratio i (as_float64 wave)) as (out & peak & kept & p & Hout & Hpeak
                                            & Hkept & Hp & Hr).
  { rewrite list_lookup_fmap, Hwave. reflexivity. }
  rewrite Forall_lookup in Hsym. specialize (Hsym i wave Hwave).
  destruct (np_max_abs_int16_peak wave peak Hsym Hpeak) as (peak' & Hpeak' & ->).
  unfold as_float64 in Hkept. rewrite <- fmap_take in Hkept.
  destruct (np_max_abs_int16_peak (take (Z.to_nat min_length) wave) kept)
    as (kept' & Hkept' & ->);
    [apply Forall_take, Hsym | exact Hkept |].
  exists out, peak', kept', p. auto.
Qed.

Lemma normalize_peak_ratio_witness :
  (exists (min_length : Z) (outs : list (list Q)),
      min_length_of [[1; -3; 2; 6]; [0; 5]]%Q = ok min_length
      /\ normalize_sound_waves [[1; -3; 2; 6]; [0; 5]]%Q = ok outs
      /\ forall (i : nat) (wave : list Q),
          [[1; -3; 2; 6]; [0; 5]]%Q !! i = Some wave ->
          exists (out : list Q) (peak kept p : Q),
            outs !! i = Some out
            /\ np_max_abs wave = ok peak
            /\ np_max_abs (take (Z.to_nat min_length) wave) = ok kept
            /\ np_max_abs out = ok p
            /\ (p == kept / peak)%Q)
  /\ (exists (min_length : Z) (outs : list (list Q)),
        min_length_of [[1; -3; 2; 6]; [0; 5]] = ok min_length
        /\ normalize_sound_waves_int16 [[1; -3; 2; 6]; [0; 5]] = ok outs
        /\ forall (i : nat) (wave : list Z),
            [[1; -3; 2; 6]; [0; 5]] !! i = Some wave ->
            exists (out : list Q) (peak kept : Z) (p : Q),
              outs !! i = Some out
              /\ np_max_abs_int16 wave = ok peak
              /\ np_max_abs_int16 (take (Z.to_nat min_length) wave) = ok kept
              /\ np_max_abs out = ok p
              /\ (p == inject_Z kept / inject_Z peak)%Q).
Proof.
  split.
  - apply (proj1 normalize_peak_ratio [[1; -3; 2; 6]; [0; 5]]%Q); [discriminate|].
    apply Forall_cons; split; [has_sample 1%Q|].
    apply Forall_cons; split; [has_sample 5%Q | apply Forall_nil_2].
  - apply (proj2 normalize_peak_ratio [[1; -3; 2; 6]; [0; 5]]);
      [discriminate | |].
    + repeat (apply Forall_cons; split); try apply Forall_nil_2;
        unfold int16_symmetric; lia.
    + apply Forall_cons; split; [has_sample 1|].
      apply Forall_cons; split; [has_sample 5 | apply Forall_nil_2].
Defined.

(** X16. Waves of one common length, each with a nonzero sample, all come
    out with peak exactly 1: for float64 waves, and for int16 waves that do
    not contain -32768. *)
Theorem normalize_equal_lengths_peak :
  (forall (waves : list (list Q)) (n : nat),
      waves <> [] ->
      Forall (fun w => length w = n) waves ->
      Forall (fun w => exists x, x ∈ w /\ ~ (x == 0)%Q) waves ->
      exists outs : list (list Q),
        normalize_sound_waves waves = ok outs
        /\ length outs = length waves
        /\ Forall (fun out => exists p : Q, np_max_abs out = ok p /\ (p == 1)%Q)
                  outs)
  /\ (forall (waves : list (list Z)) (n : nat),
        waves <> [] ->
        Forall (Forall int16_symmetric) waves ->
        Forall (fun w => length w = n) waves ->
        Forall (fun w => exists x, x ∈ w /\ x <> 0) waves ->
        exists outs : list (list Q),
          normalize_sound_waves_int16 waves = ok outs
          /\ length outs = length waves
          /\ Forall (fun out => exists p : Q, np_max_abs out = ok p /\ (p == 1)%Q)
                    outs).
Proof.
  split; [exact normalize_equal_lengths_aux|].
  intros waves n Hne Hsym Hlen Hnz.
  destruct (normalize_equal_lengths_aux (as_float64 <$> waves) n
              (as_float64_nonempty waves Hne)) as (outs & Hnorm & Hcount & Hpeak).
  { apply Forall_fmap. eapply Forall_impl; [exact Hlen|].
    intros w Hw. simpl. rewrite length_as_float64. exact Hw. }
  { exact (nonzero_as_float64 waves Hnz). }
  exists outs.
  rewrite <- (normalize_sound_waves_as_float64 waves Hsym) in Hnorm.
  rewrite length_fmap in Hcount. auto.
Qed.

Lemma normalize_equal_lengths_peak_witness :
  (exists outs : list (list Q),
      normalize_sound_waves [[2; 4; 2]; [10; -10; 5]]%Q = ok outs
      /\ length outs = 2%nat
      /\ Forall (fun out => exists p : Q, np_max_abs out = ok p /\ (p == 1)%Q)
                outs)
  /\ (exists outs : list (list Q),
        normalize_sound_waves_int16 [[2; 4; 2]; [10; -10; 5]] = ok outs
        /\ length outs = 2%nat
        /\ Forall (fun out => exists p : Q, np_max_abs out = ok p /\ (p == 1)%Q)
                  outs).
Proof.
  split.
  - apply (proj1 normalize_equal_lengths_peak [[2; 4; 2]; [10; -10; 5]]%Q 3%nat).
    + discriminate.
    + repeat constructor.
    + apply Forall_cons; split; [has_sample 2%Q|].
      apply Forall_cons; split; [has_sample 10%Q | apply Forall_nil_2].
  - apply (proj2 normalize_equal_lengths_peak [[2; 4; 2]; [10; -10; 5]] 3%nat).
    + discriminate.
    + repeat (apply Forall_cons; split); try apply Forall_nil_2;
        unfold int16_symmetric; lia.
    + repeat constructor.
    + apply Forall_cons; split; [has_sample 2|].
      apply Forall_cons; split; [has_sample 10 | apply Forall_nil_2].
Defined.

Lemma normalize_loop_empty_wave (min_length : Z) (waves : list (list Q)) :
  [] ∈ waves -> raises (normalize_loop min_length waves).
Proof.
  induction waves as [|wave rest IH]; intros Hin; [inversion Hin|].
  simpl. destruct wave as [|x wave].
  - eexists. reflexivity.
  - apply raises_bind. intros peak _. apply raises_bind_l, IH.
    inversion Hin; subst; try discriminate; assumption.
Qed.

(** X17. normalize_sound_waves raises ValueError on the empty list (min of
    nothing) and on any list that contains an empty wave (peak of nothing). *)
Theorem normalize_empty_raises (waves : list (list Q)) :
  waves = [] \/ [] ∈ waves ->
  raises (normalize_sound_waves waves).
Proof.
  intros [-> | Hin]; [eexists; reflexivity|].
  unfold normalize_sound_waves.
  apply raises_bind. intros min_length _.
  apply normalize_loop_empty_wave, Hin.
Qed.

Lemma normalize_empty_raises_witness :
  raises (normalize_sound_waves []) /\
  raises (normalize_sound_waves [[1; 2]; []; [3]]%Q).
Proof.
  split.
  - apply (normalize_empty_raises []). left. reflexivity.
  - apply (normalize_empty_raises [[1; 2]; []; [3]]%Q). right.
    apply list_elem_of_further, list_elem_of_here.
Defined.

(** ** More on the melody grammar *)

Lemma findall_fuel_sound (fuel : nat) (s : unicode) :
  Forall (fun m => note_token m.1
                   /\ (m.2 = [] \/ duration_token m.2))
         (findall_fuel fuel s).
Proof.
  revert s. induction fuel as [|fuel IH]; intros s; [constructor|].
  rewrite findall_fuel_S.
  destruct (pattern s) as [[[g1 g2] rest]|] eqn:Hpat.
  - apply pattern_inv in Hpat as (_ & Htok & Hdur).
    constructor; [split; assumption | apply IH].
  - destruct s as [|c s]; [constructor | apply IH].
Qed.

(** X18. Every match that findall reports is a note token (a letter a-g, an
    optional '#', a digit) together with either no duration or a duration
    text (one whitespace character, digits, an optional point, digits,
    's'). *)
Theorem findall_sound (s : unicode) :
  Forall (fun m => note_token m.1
                   /\ (m.2 = [] \/ duration_token m.2))
         (findall s).
Proof. apply findall_fuel_sound. Qed.

Lemma pattern_is_Some_token (tok rest : unicode) :
  note_token tok -> is_Some (pattern (tok ++ rest)).
Proof.
  intros Htok. rewrite (pattern_token tok rest Htok).
  destruct (group2 _ rest); eauto.
Qed.

Lemma findall_nonempty_occurrence (s : unicode) :
  findall s <> [] <->
  exists pre tok post : unicode,
    s = pre ++ tok ++ post /\ note_token tok.
Proof.
  split.
  - induction s as [|c s IH]; intros Hne; [contradiction Hne; reflexivity|].
    destruct (pattern (c :: s)) as [[[g1 g2] rest]|] eqn:Hpat.
    + apply pattern_inv in Hpat as (Heq & Htok & _).
      exists [], g1, (g2 ++ rest). split; [exact Heq | exact Htok].
    + rewrite (findall_skip c s Hpat) in Hne.
      destruct (IH Hne) as (pre & tok & post & -> & Htok).
      exists (c :: pre), tok, post. split; [reflexivity | exact Htok].
  - intros (pre & tok & post & -> & Htok).
    induction pre as [|c pre IH]; simpl.
    + destruct (pattern_is_Some_token tok post Htok) as [[[g1 g2] rest] Hpat].
      rewrite (findall_match _ _ _ _ Hpat). discriminate.
    + destruct (pattern (c :: pre ++ tok ++ post)) as [[[g1 g2] rest]|]
        eqn:Hpat.
      * rewrite (findall_match _ _ _ _ Hpat). discriminate.
      * rewrite (findall_skip _ _ Hpat). exact IH.
Qed.

Lemma melody_loop_cons (note duration : unicode)
    (rest : list (unicode * unicode)) (combined_wave : option (list Z)) :
  melody_loop ((note, duration) :: rest) combined_wave =
  bind (note_duration duration) (fun d =>
  bind (create_note (utf8 note) d) (fun wave =>
  melody_loop rest
    (Some match combined_wave with
          | None => wave
          | Some c => int16_add c wave
          end))).
Proof. reflexivity. Qed.

Lemma melody_loop_not_None (items : list (unicode * unicode)) (c : list Z) :
  melody_loop items (Some c) <> ok None.
Proof.
  revert c. induction items as [|[note duration] rest IH]; intros c.
  - discriminate.
  - rewrite melody_loop_cons.
    destruct (note_duration duration) as [e|d]; [discriminate|]. cbn [bind].
    destruct (create_note (utf8 note) d) as [e|w]; [discriminate|]. cbn [bind].
    apply IH.
Qed.

(** X19. generate_melody returns None exactly for the strings in which no
    note token occurs anywhere; every other string gives a wave or an
    exception. *)
Theorem generate_melody_None_iff (melody_str : unicode) :
  generate_melody melody_str = ok None <->
  ~ exists pre tok post : unicode,
      melody_str = pre ++ tok ++ post /\ note_token tok.
Proof.
  rewrite <- findall_nonempty_occurrence. unfold generate_melody. split.
  - intros Hnone Hne. destruct (findall melody_str) as [|[note duration] rest];
      [contradiction Hne; reflexivity|].
    rewrite melody_loop_cons in Hnone.
    destruct (note_duration duration) as [e|d]; [discriminate|].
    cbn [bind] in Hnone.
    destruct (create_note (utf8 note) d) as [e|w]; [discriminate|].
    cbn [bind] in Hnone. exact (melody_loop_not_None _ _ Hnone).
  - intros Hempty. destruct (findall melody_str) as [|m rest];
      [reflexivity|]. contradiction Hempty. discriminate.
Qed.

Lemma digit_value_nonneg (c : N) : 0 <= digit_value c.
Proof.
  unfold digit_value.
  destruct (List.find _ decimal_zeros); lia.
Qed.

Lemma read_digits_nonneg (s : unicode) (acc : Z) (n : nat) :
  0 <= acc -> 0 <= (read_digits acc n s).1.1.
Proof.
  revert acc n. induction s as [|c s IH]; intros acc n Hacc; simpl; [exact Hacc|].
  destruct (class_digit c) eqn:Hc; [|exact Hacc].
  apply IH. pose proof (digit_value_nonneg c). lia.
Qed.

Lemma py_float_nonneg (s : unicode) (q : Q) : py_float s = ok q -> (0 <= q)%Q.
Proof.
  unfold py_float.
  pose proof (read_digits_nonneg (lstrip s) 0 0 ltac:(lia)) as H1.
  destruct (read_digits 0 0 (lstrip s)) as [[int_part n1] s1]. simpl in H1.
  assert (Hm : forall mantissa n2 s3,
             0 <= mantissa ->
             match lstrip s3, (n1 + n2)%nat with
             | [], S _ =>
                 ok (Qred (inject_Z mantissa / inject_Z (10 ^ Z.of_nat n2)))
             | _, _ => raise (ValueError "could not convert string to float")
             end = ok q -> (0 <= q)%Q).
  { intros mantissa n2 s3 Hman Hq.
    destruct (lstrip s3); [|discriminate].
    destruct (n1 + n2)%nat; [discriminate|].
    apply ok_inj in Hq. subst q. rewrite Qred_correct.
    apply Qle_shift_div_l.
    - change 0%Q with (inject_Z 0). rewrite <- Zlt_Qlt.
      apply Z.pow_pos_nonneg; lia.
    - rewrite Qmult_0_l. change 0%Q with (inject_Z 0). rewrite <- Zle_Qle.
      exact Hman. }
  destruct s1 as [|c s1]; [apply Hm; exact H1|].
  destruct (class_lit "." c).
  - pose proof (read_digits_nonneg s1 int_part 0 H1) as H2.
    destruct (read_digits int_part 0 s1) as [[mantissa n2] s3].
    apply Hm. exact H2.
  - apply Hm. exact H1.
Qed.

(** X20. A parsed duration is never negative: when parse_melody returns its
    pairs, every duration in them is at least 0. *)
Theorem parse_melody_durations_nonneg
    (melody_str : unicode) (pairs : list (unicode * Q)) :
  parse_melody melody_str = ok pairs ->
  Forall (fun p => (0 <= p.2)%Q) pairs.
Proof.
  unfold parse_melody. generalize (findall melody_str). intros items.
  revert pairs. induction items as [|[note duration] rest IH]; intros pairs H.
  - apply ok_inj in H. subst pairs. constructor.
  - simpl in H. apply bind_ok_inv in H as (d & Hd & H).
    apply bind_ok_inv in H as (tail & Htail & H).
    apply ok_inj in H. subst pairs. constructor; [|exact (IH _ Htail)].
    simpl. destruct duration as [|c duration].
    + apply ok_inj in Hd. subst d. discriminate.
    + exact (py_float_nonneg _ _ Hd).
Qed.

Lemma parse_melody_durations_nonneg_witness :
  parse_melody (str "e2 .75s g#4") = ok [(str "e2", 3 # 4); (str "g#4", 5%Q)]
  /\ Forall (fun p : unicode * Q => (0 <= p.2)%Q)
            [(str "e2", 3 # 4); (str "g#4", 5%Q)].
Proof.
  assert (H : parse_melody (str "e2 .75s g#4")
              = ok [(str "e2", 3 # 4); (str "g#4", 5%Q)])
    by (vm_compute; reflexivity).
  split; [exact H | exact (parse_melody_durations_nonneg _ _ H)].
Defined.

Lemma generate_melody_None_iff_witness :
  generate_melody (str "xyz") = ok None.
Proof.
  apply (proj2 (generate_melody_None_iff (str "xyz"))).
  rewrite <- findall_nonempty_occurrence. intros H. apply H. reflexivity.
Defined.

(** ** The loop of generate_melody *)

Lemma note_waves_cons (note duration : unicode) (rest : list (unicode * unicode)) :
  note_waves ((note, duration) :: rest) =
  bind (note_duration duration) (fun d =>
  bind (create_note (utf8 note) d) (fun wave =>
  bind (note_waves rest) (fun waves => ok (wave :: waves)))).
Proof. reflexivity. Qed.

Lemma create_note_ok_amplitude (note : string) (duration : Q) (wave : list Z) :
  create_note note duration = ok wave ->
  Forall (fun z => - MAX_AMPLITUDE <= z <= MAX_AMPLITUDE) wave.
Proof.
  intros Hwave. destruct (NOTES !! note) as [frequency|] eqn:Hnote.
  - rewrite (create_note_known _ _ _ Hnote) in Hwave.
    apply ok_inj in Hwave. subst wave. unfold get_normed_sin.
    rewrite !Forall_fmap. apply Forall_forall. intros t _. unfold compose.
    destruct (astype_int16_sine (2 * PI * Q2R frequency * Q2R t)) as [-> Hr].
    exact Hr.
  - rewrite (create_note_unknown _ _ Hnote) in Hwave. discriminate Hwave.
Qed.

Lemma create_note_is_ok (note : string) (duration : Q) :
  is_ok (create_note note duration) <-> is_Some (NOTES !! note).
Proof.
  split.
  - intros [wave Hwave]. destruct (NOTES !! note) as [f|] eqn:Hnote; [eauto|].
    rewrite (create_note_unknown _ _ Hnote) in Hwave. discriminate Hwave.
  - intros [f Hnote]. rewrite (create_note_known _ _ _ Hnote).
    eexists; reflexivity.
Qed.

(** The waves exist exactly when every match is playable. *)
Lemma note_waves_ok_iff (items : list (unicode * unicode)) :
  is_ok (note_waves items) <-> Forall playable items.
Proof.
  induction items as [|[note duration] rest IH].
  - split; [constructor | eexists; reflexivity].
  - rewrite note_waves_cons, Forall_cons. unfold playable at 1.
    cbn [fst snd]. split.
    + intros [ws H]. apply bind_ok_inv in H as (d & Hd & H).
      apply bind_ok_inv in H as (w & Hw & H).
      apply bind_ok_inv in H as (tail & Htail & _).
      split; [split|].
      * apply (create_note_is_ok (utf8 note) d). exists w. exact Hw.
      * eexists; exact Hd.
      * apply IH. eexists; exact Htail.
    + intros [[Hnote [d Hd]] Hrest].
      destruct (proj2 IH Hrest) as [tail Htail].
      destruct (proj2 (create_note_is_ok (utf8 note) d) Hnote) as [w Hw].
      rewrite Hd. cbn [bind]. rewrite Hw. cbn [bind].
      rewrite Htail. eexists; reflexivity.
Qed.

Lemma melody_loop_waves (items : list (unicode * unicode))
    (c : option (list Z)) (ws : list (list Z)) :
  note_waves items = ok ws ->
  melody_loop items c = ok (foldl melody_step c ws).
Proof.
  revert c ws. induction items as [|[note duration] rest IH]; intros c ws H.
  - apply ok_inj in H. subst ws. reflexivity.
  - rewrite note_waves_cons in H. rewrite melody_loop_cons.
    apply bind_ok_inv in H as (d & Hd & H).
    apply bind_ok_inv in H as (w & Hw & H).
    apply bind_ok_inv in H as (tail & Htail & H).
    apply ok_inj in H. subst ws.
    rewrite Hd. cbn [bind ok]. rewrite Hw. cbn [bind ok].
    rewrite (IH _ _ Htail). reflexivity.
Qed.

Lemma melody_loop_ok_waves (items : list (unicode * unicode))
    (c : option (list Z)) :
  is_ok (melody_loop items c) -> is_ok (note_waves items).
Proof.
  revert c. induction items as [|[note duration] rest IH]; intros c [r H].
  - eexists; reflexivity.
  - rewrite melody_loop_cons in H. rewrite note_waves_cons.
    apply bind_ok_inv in H as (d & Hd & H).
    apply bind_ok_inv in H as (w & Hw & H).
    rewrite Hd. cbn [bind ok]. rewrite Hw. cbn [bind ok].
    destruct (IH _ (ex_intro _ r H)) as [tail Htail].
    rewrite Htail. eexists; reflexivity.
Qed.

Lemma wrap16_range (z : Z) : -32768 <= wrap16 z <= 32767.
Proof.
  unfold wrap16. pose proof (Z.mod_pos_bound (z + 32768) 65536 ltac:(lia)). lia.
Qed.

Lemma wrap16_add_l (a b : Z) : wrap16 (wrap16 a + b) = wrap16 (a + b).
Proof.
  unfold wrap16. f_equal.
  replace ((a + 32768) mod 65536 - 32768 + b + 32768)
    with ((a + 32768) mod 65536 + b) by lia.
  rewrite Zplus_mod_idemp_l. f_equal. lia.
Qed.

Lemma wrap16_fmap_id (l : list Z) :
  Forall (fun z => -32768 <= z <= 32767) l -> wrap16 <$> l = l.
Proof.
  induction 1 as [|z l Hz _ IH]; [reflexivity|].
  rewrite fmap_cons, IH, wrap16_small by lia. reflexivity.
Qed.

Lemma int16_add_wrapped (a w : list Z) :
  int16_add (wrap16 <$> a) w = wrap16 <$> zip_with Z.add a w.
Proof.
  unfold int16_add. revert w. induction a as [|x a IH]; intros [|y w];
    try reflexivity.
  rewrite fmap_cons. cbn [zip_with]. rewrite fmap_cons, IH, wrap16_add_l.
  reflexivity.
Qed.

Lemma foldl_int16_add_wrapped (ws : list (list Z)) (a : list Z) :
  foldl int16_add (wrap16 <$> a) ws
  = wrap16 <$> foldl (zip_with Z.add) a ws.
Proof.
  revert a. induction ws as [|w ws IH]; intros a; [reflexivity|].
  cbn [foldl]. rewrite int16_add_wrapped. apply IH.
Qed.

Lemma foldl_melody_step (ws : list (list Z)) (c : list Z) :
  foldl melody_step (Some c) ws = Some (foldl int16_add c ws).
Proof.
  revert c. induction ws as [|w ws IH]; intros c; [reflexivity|].
  cbn [foldl]. change (melody_step (Some c) w) with (Some (int16_add c w)).
  apply IH.
Qed.

Lemma note_waves_shape (items : list (unicode * unicode)) (ws : list (list Z)) :
  note_waves items = ok ws ->
  length ws = length items
  /\ Forall (fun w =>
       Z.of_nat (length w) = SOUND_ARRAY_LEN
       /\ Forall (fun z => - MAX_AMPLITUDE <= z <= MAX_AMPLITUDE) w) ws.
Proof.
  revert ws. induction items as [|[note duration] rest IH]; intros ws H.
  - apply ok_inj in H. subst ws. split; [reflexivity | constructor].
  - rewrite note_waves_cons in H.
    apply bind_ok_inv in H as (d & Hd & H).
    apply bind_ok_inv in H as (w & Hw & H).
    apply bind_ok_inv in H as (tail & Htail & H).
    apply ok_inj in H. subst ws. destruct (IH _ Htail) as [Hlen Hall].
    split; [simpl; lia|]. constructor; [|exact Hall]. split.
    + exact (create_note_ok_length _ _ _ Hw).
    + exact (create_note_ok_amplitude _ _ _ Hw).
Qed.

(** Adding waves of one length sample by sample: the length stays, the
    bounds add up. *)
Lemma foldl_zip_add_shape (ws : list (list Z)) (a : list Z) (n B M : Z) :
  0 <= M ->
  Z.of_nat (length a) = n ->
  Forall (fun z => - B <= z <= B) a ->
  Forall (fun w => Z.of_nat (length w) = n
                   /\ Forall (fun z => - M <= z <= M) w) ws ->
  Z.of_nat (length (foldl (zip_with Z.add) a ws)) = n
  /\ Forall (fun z => - (B + M * Z.of_nat (length ws)) <= z
                      <= B + M * Z.of_nat (length ws))
            (foldl (zip_with Z.add) a ws).
Proof.
  intros HM. revert a B. induction ws as [|w ws IH]; intros a B Hlen Ha Hws.
  - split; [exact Hlen|]. simpl. rewrite Z.mul_0_r, Z.add_0_r. exact Ha.
  - apply Forall_cons in Hws as [[Hw Hwb] Hws]. cbn [foldl].
    destruct (IH (zip_with Z.add a w) (B + M)) as [Hl Hb]; [| |exact Hws|].
    + rewrite length_zip_with. lia.
    + rewrite Forall_lookup. intros i z Hz.
      rewrite lookup_zip_with in Hz.
      destruct (a !! i) as [x|] eqn:Hx; [|discriminate].
      destruct (w !! i) as [y|] eqn:Hy; [|discriminate].
      injection Hz as <-.
      rewrite Forall_lookup in Ha. specialize (Ha i x Hx).
      rewrite Forall_lookup in Hwb. specialize (Hwb i y Hy). lia.
    + split; [exact Hl|]. eapply Forall_impl; [exact Hb|].
      intros z Hz. simpl in Hz |- *.
      replace (B + M * Z.of_nat (S (length ws)))
        with (B + M + M * Z.of_nat (length ws)) by lia.
      exact Hz.
Qed.

Lemma forallb_same_length (w0 : list Z) (rest : list (list Z)) (n : Z) :
  Z.of_nat (length w0) = n ->
  Forall (fun w => Z.of_nat (length w) = n) rest ->
  forallb (fun w => Nat.eqb (length w) (length w0)) rest = true.
Proof.
  intros H0 Hrest. apply forallb_forall. intros w Hw.
  apply list_elem_of_In in Hw. rewrite Forall_forall in Hrest.
  specialize (Hrest w Hw). apply Nat.eqb_eq. lia.
Qed.

(** What generate_melody returns in terms of the waves it creates. *)
Lemma generate_melody_sum_aux (melody_str : unicode) (ws : list (list Z)) :
  note_waves (findall melody_str) = ok ws ->
  ws <> [] ->
  exists total : list Z,
    combine_waves ws = ok (Samples total)
    /\ Z.of_nat (length total) = SOUND_ARRAY_LEN
    /\ Forall (fun z => - (MAX_AMPLITUDE * Z.of_nat (length ws)) <= z
                        <= MAX_AMPLITUDE * Z.of_nat (length ws)) total
    /\ generate_melody melody_str = ok (Some (wrap16 <$> total)).
Proof.
  intros Hws Hne. destruct ws as [|w0 rest]; [contradiction|].
  destruct (note_waves_shape _ _ Hws) as [_ Hshape].
  apply Forall_cons in Hshape as [[Hl0 Hb0] Hrest].
  destruct (foldl_zip_add_shape rest w0 SOUND_ARRAY_LEN MAX_AMPLITUDE
              MAX_AMPLITUDE) as [Hlen Hbound];
    [discriminate | exact Hl0 | exact Hb0 | exact Hrest |].
  exists (foldl (zip_with Z.add) w0 rest). split; [|split; [exact Hlen|split]].
  - unfold combine_waves.
    rewrite (forallb_same_length w0 rest SOUND_ARRAY_LEN Hl0); [reflexivity|].
    eapply Forall_impl; [exact Hrest|]. intros w [Hw _]. exact Hw.
  - eapply Forall_impl; [exact Hbound|]. intros z Hz. simpl in Hz |- *.
    replace (MAX_AMPLITUDE * Z.of_nat (S (length rest)))
      with (MAX_AMPLITUDE + MAX_AMPLITUDE * Z.of_nat (length rest)) by lia.
    exact Hz.
  - unfold generate_melody. rewrite (melody_loop_waves _ None _ Hws).
    cbn [foldl]. change (melody_step None w0) with (Some w0).
    rewrite foldl_melody_step.
    rewrite <- foldl_int16_add_wrapped. rewrite wrap16_fmap_id; [reflexivity|].
    eapply Forall_impl; [exact Hb0|]. intros z Hz. cbv beta in Hz |- *.
    change MAX_AMPLITUDE with 8192 in Hz. lia.
Qed.

(** X21. generate_melody returns (a wave or None) exactly when every match
    of the pattern is playable: its note is in the table and its duration
    text converts.  Otherwise it raises. *)
Theorem generate_melody_ok_iff (melody_str : unicode) :
  is_ok (generate_melody melody_str) <-> Forall playable (findall melody_str).
Proof.
  rewrite <- note_waves_ok_iff. unfold generate_melody. split.
  - apply melody_loop_ok_waves.
  - intros [ws Hws]. rewrite (melody_loop_waves _ None _ Hws).
    eexists; reflexivity.
Qed.

Lemma generate_melody_ok_iff_witness :
  Forall playable (findall (str "a4 2s c#4"))
  /\ is_ok (generate_melody (str "a4 2s c#4")).
Proof.
  assert (H : Forall playable (findall (str "a4 2s c#4"))).
  { change (findall (str "a4 2s c#4"))
      with [(str "a4", str " 2s"); (str "c#4", @nil N)].
    repeat constructor; eexists; vm_compute; reflexivity. }
  split; [exact H | exact (proj2 (generate_melody_ok_iff (str "a4 2s c#4")) H)].
Defined.

Lemma melody_loop_app_good (good tail : list (unicode * unicode))
    (c : option (list Z)) :
  Forall playable good ->
  exists c' : option (list Z),
    melody_loop (good ++ tail) c = melody_loop tail c'.
Proof.
  intros Hgood. revert c.
  induction Hgood as [|[note duration] good [Hnote [d Hd]] _ IH]; intros c.
  - exists c. reflexivity.
  - cbn [app]. rewrite melody_loop_cons. cbn [fst snd] in Hnote, Hd.
    destruct (proj2 (create_note_is_ok (utf8 note) d) Hnote) as [w Hw].
    rewrite Hd. cbn [bind]. rewrite Hw. cbn [bind]. apply IH.
Qed.

(** X22. The first match that is not playable decides the exception: after
    playable matches, a duration text that does not convert raises float's
    ValueError, and otherwise a note missing from the table raises KeyError
    with its name; later matches are never looked at. *)
Theorem generate_melody_first_error (melody_str note duration : unicode)
    (good rest : list (unicode * unicode)) :
  findall melody_str = good ++ (note, duration) :: rest ->
  Forall playable good ->
  (forall e : exn, note_duration duration = raise e ->
                   generate_melody melody_str = raise e)
  /\ (is_ok (note_duration duration) -> NOTES !! utf8 note = None ->
      generate_melody melody_str = raise (KeyError (utf8 note))).
Proof.
  intros Hfind Hgood. unfold generate_melody. rewrite Hfind.
  destruct (melody_loop_app_good good ((note, duration) :: rest) None Hgood)
    as [c' ->].
  rewrite melody_loop_cons. split.
  - intros e ->. reflexivity.
  - intros [d ->] Hnote. cbn [bind].
    rewrite (create_note_unknown _ _ Hnote). reflexivity.
Qed.

Lemma generate_melody_first_error_witness :
  generate_melody (str "a4 1s b9 c4 .s") = raise (KeyError "b9")
  /\ generate_melody (str "a4 1s c4 .s b9")
     = raise (ValueError "could not convert string to float").
Proof.
  assert (Hgood : Forall playable [(str "a4", str " 1s")]).
  { repeat constructor; eexists; vm_compute; reflexivity. }
  split.
  - apply (proj2 (generate_melody_first_error (str "a4 1s b9 c4 .s")
                    (str "b9") [] [(str "a4", str " 1s")]
                    [(str "c4", str " .s")] eq_refl Hgood)).
    + eexists. reflexivity.
    + vm_compute. reflexivity.
  - apply (proj1 (generate_melody_first_error (str "a4 1s c4 .s b9")
                    (str "c4") (str " .s") [(str "a4", str " 1s")]
                    [(str "b9", [])] eq_refl Hgood)).
    vm_compute. reflexivity.
Defined.

Lemma note_waves_nil_inv (items : list (unicode * unicode)) :
  note_waves items = ok [] -> items = [].
Proof.
  destruct items as [|[note duration] rest]; [reflexivity|].
  rewrite note_waves_cons. intros H.
  apply bind_ok_inv in H as (d & _ & H).
  apply bind_ok_inv in H as (w & _ & H).
  apply bind_ok_inv in H as (tail & _ & H). discriminate H.
Qed.

(** X23. Every wave generate_melody returns has 220500 samples, all within
    the int16 range, however many notes the melody has and whatever their
    durations. *)
Theorem generate_melody_wave_shape (melody_str : unicode) (wave : list Z) :
  generate_melody melody_str = ok (Some wave) ->
  Z.of_nat (length wave) = 220500
  /\ Forall (fun z => -32768 <= z <= 32767) wave.
Proof.
  intros Hgen.
  destruct (melody_loop_ok_waves (findall melody_str) None) as [ws Hws].
  { exists (Some wave). exact Hgen. }
  assert (Hne : ws <> []).
  { intros ->. apply note_waves_nil_inv in Hws.
    unfold generate_melody in Hgen. rewrite Hws in Hgen. discriminate Hgen. }
  destruct (generate_melody_sum_aux melody_str ws Hws Hne)
    as (total & _ & Hlen & _ & Hgen').
  rewrite Hgen' in Hgen. apply ok_inj in Hgen. injection Hgen as <-.
  split.
  - rewrite length_fmap. exact Hlen.
  - apply Forall_fmap, Forall_forall. intros z _. apply wrap16_range.
Qed.

Lemma generate_melody_wave_shape_witness :
  exists wave : list Z,
    generate_melody (str "g3 .5s e3") = ok (Some wave)
    /\ Z.of_nat (length wave) = 220500
    /\ Forall (fun z => -32768 <= z <= 32767) wave.
Proof.
  assert (H : Forall playable (findall (str "g3 .5s e3"))).
  { change (findall (str "g3 .5s e3"))
      with [(str "g3", str " .5s"); (str "e3", @nil N)].
    repeat constructor; eexists; vm_compute; reflexivity. }
  destruct (proj2 (note_waves_ok_iff _) H) as [ws Hws].
  assert (Hne : ws <> []).
  { intros ->. apply note_waves_nil_inv in Hws. discriminate Hws. }
  destruct (generate_melody_sum_aux _ ws Hws Hne) as (total & _ & _ & _ & Hgen).
  eexists. split; [exact Hgen|].
  exact (generate_melody_wave_shape _ _ Hgen).
Defined.

(** X24. generate_melody and combine_waves: the melody wave is the exact
    sample-by-sample sum of the note waves (what combine_waves returns for
    them) reduced to 16 bits, and for melodies of up to three notes nothing
    wraps: the two are equal. *)
Theorem generate_melody_is_wrapped_sum
    (melody_str : unicode) (ws : list (list Z)) :
  note_waves (findall melody_str) = ok ws ->
  ws <> [] ->
  exists total : list Z,
    combine_waves ws = ok (Samples total)
    /\ generate_melody melody_str = ok (Some (wrap16 <$> total))
    /\ ((length ws <= 3)%nat -> generate_melody melody_str = ok (Some total)).
Proof.
  intros Hws Hne.
  destruct (generate_melody_sum_aux melody_str ws Hws Hne)
    as (total & Hsum & _ & Hbound & Hgen).
  exists total. split; [exact Hsum|]. split; [exact Hgen|].
  intros H3. rewrite Hgen. do 2 f_equal. apply wrap16_fmap_id.
  eapply Forall_impl; [exact Hbound|]. intros z Hz. cbv beta in Hz |- *.
  change MAX_AMPLITUDE with 8192 in Hz. lia.
Qed.

Lemma generate_melody_is_wrapped_sum_witness :
  exists (ws : list (list Z)) (total : list Z),
    note_waves (findall (str "c4 e4 g4")) = ok ws
    /\ combine_waves ws = ok (Samples total)
    /\ generate_melody (str "c4 e4 g4") = ok (Some (wrap16 <$> total))
    /\ ((length ws <= 3)%nat ->
        generate_melody (str "c4 e4 g4") = ok (Some total)).
Proof.
  assert (H : Forall playable (findall (str "c4 e4 g4"))).
  { change (findall (str "c4 e4 g4"))
      with [(str "c4", @nil N); (str "e4", @nil N); (str "g4", @nil N)].
    repeat constructor; eexists; vm_compute; reflexivity. }
  destruct (proj2 (note_waves_ok_iff _) H) as [ws Hws].
  assert (Hne : ws <> []).
  { intros ->. apply note_waves_nil_inv in Hws. discriminate Hws. }
  destruct (generate_melody_is_wrapped_sum (str "c4 e4 g4") ws Hws Hne)
    as (total & Hsum & Hgen & H3).
  exists ws, total. auto.
Defined.

(** ** combine_waves *)

Lemma foldl_zip_add_lookup (ws : list (list Z)) (a : list Z) (n i : nat) (x : Z) :
  length a = n ->
  Forall (fun w => length w = n) ws ->
  a !! i = Some x ->
  foldl (zip_with Z.add) a ws !! i = Some (x + column_sum i ws).
Proof.
  revert a x. induction ws as [|w ws IH]; intros a x Hlen Hws Hx.
  - simpl. rewrite Z.add_0_r. exact Hx.
  - apply Forall_cons in Hws as [Hw Hws]. cbn [foldl].
    destruct (lookup_lt_is_Some_2 w i) as [y Hy].
    { rewrite Hw, <- Hlen. exact (lookup_lt_Some _ _ _ Hx). }
    rewrite (IH (zip_with Z.add a w) (x + y)).
    + f_equal. unfold column_sum. cbn [foldr]. rewrite Hy. simpl. lia.
    + rewrite length_zip_with. lia.
    + exact Hws.
    + rewrite lookup_zip_with, Hx, Hy. reflexivity.
Qed.

Lemma foldl_zip_add_length (ws : list (list Z)) (a : list Z) (n : nat) :
  length a = n ->
  Forall (fun w => length w = n) ws ->
  length (foldl (zip_with Z.add) a ws) = n.
Proof.
  revert a. induction ws as [|w ws IH]; intros a Hlen Hws; [exact Hlen|].
  apply Forall_cons in Hws as [Hw Hws]. cbn [foldl].
  apply IH; [rewrite length_zip_with; lia | exact Hws].
Qed.

(** X25. On a nonempty list of waves of one common length n, combine_waves
    returns n samples, and sample i is the sum of the i-th samples of all
    the waves (so the order of the waves does not matter). *)
Theorem combine_waves_column_sums (waves : list (list Z)) (n : nat) :
  waves <> [] ->
  Forall (fun w => length w = n) waves ->
  exists total : list Z,
    combine_waves waves = ok (Samples total)
    /\ length total = n
    /\ forall i : nat, (i < n)%nat -> total !! i = Some (column_sum i waves).
Proof.
  intros Hne Hlen. destruct waves as [|w0 rest]; [contradiction|].
  apply Forall_cons in Hlen as [H0 Hrest].
  exists (foldl (zip_with Z.add) w0 rest). split; [|split].
  - unfold combine_waves.
    rewrite (forallb_same_length w0 rest (Z.of_nat n)); [reflexivity | lia |].
    eapply Forall_impl; [exact Hrest|]. intros w Hw. simpl in Hw |- *. lia.
  - exact (foldl_zip_add_length rest w0 n H0 Hrest).
  - intros i Hi.
    destruct (lookup_lt_is_Some_2 w0 i) as [x Hx]; [lia|].
    rewrite (foldl_zip_add_lookup rest w0 n i x H0 Hrest Hx).
    unfold column_sum. cbn [foldr]. rewrite Hx. reflexivity.
Qed.

Lemma combine_waves_column_sums_witness :
  exists total : list Z,
    combine_waves [[1; 2; 3]; [10; 20; 30]; [-1; -2; -3]] = ok (Samples total)
    /\ length total = 3%nat
    /\ forall i : nat, (i < 3)%nat ->
         total !! i
         = Some (column_sum i [[1; 2; 3]; [10; 20; 30]; [-1; -2; -3]]).
Proof.
  apply (combine_waves_column_sums
           [[1; 2; 3]; [10; 20; 30]; [-1; -2; -3]] 3);
    [discriminate | repeat constructor].
Defined.

(** ** Which duration texts convert *)

Lemma drop_last_snoc (s : unicode) (c : N) : drop_last (s ++ [c]) = s.
Proof.
  induction s as [|x s IH]; [reflexivity|].
  simpl. rewrite IH. destruct s; reflexivity.
Qed.

Lemma lstrip_digits (d rest : unicode) :
  all_in class_digit d = true -> stops float_space rest = true ->
  lstrip (d ++ rest) = d ++ rest.
Proof.
  intros Hd Hrest. destruct d as [|c d]; simpl in *.
  - destruct rest as [|c rest]; [reflexivity|]. simpl in *.
    destruct (float_space c); [discriminate | reflexivity].
  - apply andb_prop in Hd as [Hc _].
    rewrite (digit_not_float_space c Hc). reflexivity.
Qed.

Lemma read_digits_run (d rest : unicode) (acc : Z) (n : nat) :
  all_in class_digit d = true -> stops class_digit rest = true ->
  exists v : Z,
    read_digits acc n (d ++ rest) = (v, (n + length d)%nat, rest).
Proof.
  revert acc n. induction d as [|c d IH]; intros acc n Hd Hrest; simpl in *.
  - exists acc. rewrite Nat.add_0_r.
    destruct rest as [|c rest]; [reflexivity|]. simpl in *.
    destruct (class_digit c); [discriminate | reflexivity].
  - apply andb_prop in Hd as [Hc Hd]. rewrite Hc.
    destruct (IH (10 * acc + digit_value c) (S n) Hd Hrest) as [v Hv].
    exists v. rewrite Hv. do 2 f_equal. lia.
Qed.

(** [float] on digits, a point, digits. *)
Lemma py_float_pointed (d1 d2 : unicode) :
  all_in class_digit d1 = true -> all_in class_digit d2 = true ->
  is_ok (py_float (d1 ++ str "." ++ d2))
  <-> (length d1 + length d2)%nat <> 0%nat.
Proof.
  intros Hd1 Hd2. unfold py_float.
  rewrite (lstrip_digits d1 (str "." ++ d2) Hd1 eq_refl).
  destruct (read_digits_run d1 (str "." ++ d2) 0 0 Hd1 eq_refl) as [v1 ->].
  change (str "." ++ d2) with (46%N :: d2). cbv beta iota.
  change (class_lit "." 46) with true. cbv iota.
  destruct (read_digits_run d2 [] v1 0 Hd2 eq_refl) as [v2 Hv2].
  rewrite app_nil_r in Hv2. rewrite Hv2. cbn [lstrip].
  simpl (0 + _)%nat.
  destruct (length d1 + length d2)%nat.
  - split; [intros [q Hq]; discriminate Hq | intros H; contradiction H; reflexivity].
  - split; [intros _; discriminate | intros _; eexists; reflexivity].
Qed.

(** [float] on digits alone. *)
Lemma py_float_digits (d : unicode) :
  all_in class_digit d = true ->
  is_ok (py_float d) <-> length d <> 0%nat.
Proof.
  intros Hd.
  replace (py_float d) with (py_float (d ++ []))
    by (rewrite app_nil_r; reflexivity).
  unfold py_float.
  rewrite (lstrip_digits d [] Hd eq_refl).
  destruct (read_digits_run d [] 0 0 Hd eq_refl) as [v ->].
  cbn [lstrip]. simpl (0 + _)%nat. rewrite Nat.add_0_r.
  destruct (length d).
  - split; [intros [q Hq]; discriminate Hq | intros H; contradiction H; reflexivity].
  - split; [intros _; discriminate | intros _; eexists; reflexivity].
Qed.

(** The leading whitespace character: [float] strips it, or, for the
    separators 28 to 31, stops at it. *)
Lemma py_float_leading_space (w : N) (num : unicode) :
  class_space w = true ->
  (float_space w = true /\ py_float (w :: num) = py_float num)
  \/ (float_space w = false
      /\ py_float (w :: num)
         = raise (ValueError "could not convert string to float")).
Proof.
  intros Hw. destruct (float_space w) eqn:Hf.
  - left. split; [reflexivity|]. unfold py_float. cbn [lstrip]. rewrite Hf.
    reflexivity.
  - right. split; [reflexivity|]. unfold py_float. cbn [lstrip]. rewrite Hf.
    cbn [read_digits]. rewrite (space_not_digit w Hw), (space_not_point w Hw).
    cbn [lstrip]. rewrite Hf. reflexivity.
Qed.

Lemma note_duration_converts_aux (w : N) (d1 dot d2 : unicode) :
  class_space w = true ->
  all_in class_digit d1 = true ->
  dot = [] \/ dot = str "." ->
  all_in class_digit d2 = true ->
  (is_ok (note_duration (w :: d1 ++ dot ++ d2 ++ str "s"))
   <-> float_space w = true
       /\ (length d1 + length d2)%nat <> 0%nat)
  /\ (~ is_ok (note_duration (w :: d1 ++ dot ++ d2 ++ str "s")) ->
      note_duration (w :: d1 ++ dot ++ d2 ++ str "s")
      = raise (ValueError "could not convert string to float")).
Proof.
  intros Hw Hd1 Hdot Hd2.
  assert (Hdrop : note_duration (w :: d1 ++ dot ++ d2 ++ str "s")
                  = py_float (w :: d1 ++ dot ++ d2)).
  { change (note_duration (w :: d1 ++ dot ++ d2 ++ str "s"))
      with (py_float (drop_last (w :: d1 ++ dot ++ d2 ++ str "s"))).
    f_equal.
    replace (w :: d1 ++ dot ++ d2 ++ str "s")
      with ((w :: d1 ++ dot ++ d2) ++ [115%N])
      by (simpl; rewrite <- !app_assoc; reflexivity).
    apply drop_last_snoc. }
  rewrite Hdrop. split.
  - destruct (py_float_leading_space w (d1 ++ dot ++ d2) Hw)
      as [[Hf ->] | [Hf ->]].
    + destruct Hdot as [-> | ->].
      * change (d1 ++ [] ++ d2) with (d1 ++ d2).
        rewrite py_float_digits by (rewrite all_in_app, Hd1, Hd2; reflexivity).
        rewrite length_app. tauto.
      * rewrite (py_float_pointed d1 d2 Hd1 Hd2). tauto.
    + split; [intros [q Hq]; discriminate Hq | intros [Hf' _]; congruence].
  - intros Hnot. unfold py_float in *.
    destruct (read_digits 0 0 (lstrip (w :: d1 ++ dot ++ d2)))
      as [[int_part n1] s1].
    destruct (match s1 with
              | c :: s2 =>
                  if class_lit "." c then read_digits int_part 0 s2
                  else (int_part, 0%nat, s1)
              | [] => (int_part, 0%nat, s1)
              end) as [[mantissa n2] s3].
    destruct (lstrip s3); [|reflexivity].
    destruct (n1 + n2)%nat; [reflexivity|].
    contradiction Hnot. eexists; reflexivity.
Qed.

(** X26. Which duration texts convert.  For a duration as the pattern
    takes it (whitespace character w, digits d1, optional point, digits d2,
    's'), the conversion of line 202 succeeds exactly when w is a character
    that float strips (not one of the separators 28 to 31) and there is at
    least one digit; in every other case float raises ValueError. *)
Theorem note_duration_converts (w : N) (d1 dot d2 : unicode) :
  class_space w = true ->
  all_in class_digit d1 = true ->
  dot = [] \/ dot = str "." ->
  all_in class_digit d2 = true ->
  (is_ok (note_duration (w :: d1 ++ dot ++ d2 ++ str "s"))
   <-> float_space w = true
       /\ (length d1 + length d2)%nat <> 0%nat)
  /\ (~ is_ok (note_duration (w :: d1 ++ dot ++ d2 ++ str "s")) ->
      note_duration (w :: d1 ++ dot ++ d2 ++ str "s")
      = raise (ValueError "could not convert string to float")).
Proof. exact (note_duration_converts_aux w d1 dot d2). Qed.

Lemma note_duration_converts_witness :
  (is_ok (note_duration (str " 12.5s"))
   <-> float_space 32 = true /\ 3%nat <> 0%nat)
  /\ (~ is_ok (note_duration (str " 12.5s")) ->
      note_duration (str " 12.5s")
      = raise (ValueError "could not convert string to float")).
Proof.
  apply (note_duration_converts 32%N (str "12") (str ".") (str "5"));
    first [reflexivity | right; reflexivity].
Defined.

(** X27. A duration without any digit stops the melody: on a string that
    starts with a note token followed by a whitespace character, an optional
    point and 's', generate_melody raises float's ValueError, whether or not
    the note is in the table and whatever follows. *)
Theorem generate_melody_blank_duration
    (tok : unicode) (w : N) (dot rest : unicode) :
  note_token tok ->
  class_space w = true ->
  dot = [] \/ dot = str "." ->
  generate_melody (tok ++ w :: dot ++ str "s" ++ rest)
  = raise (ValueError "could not convert string to float").
Proof.
  intros Htok Hw Hdot. unfold generate_melody.
  pose proof (pattern_with_duration tok w [] dot [] rest
                Htok Hw eq_refl Hdot eq_refl) as Hpat.
  replace ([] ++ dot ++ [] ++ str "s" ++ rest)
    with (dot ++ str "s" ++ rest) in Hpat
    by (destruct Hdot as [-> | ->]; reflexivity).
  rewrite (findall_match _ _ _ _ Hpat), melody_loop_cons.
  destruct (note_duration_converts_aux w [] dot [] Hw eq_refl
              Hdot eq_refl) as [Hiff Hraise].
  rewrite Hraise; [reflexivity|].
  intros Hok. apply Hiff in Hok as [_ Hlen]. contradiction Hlen. reflexivity.
Qed.

Lemma generate_melody_blank_duration_witness :
  generate_melody (str "e9 s a4 1s")
  = raise (ValueError "could not convert string to float").
Proof.
  apply (generate_melody_blank_duration (str "e9") 32%N [] (str " a4 1s")).
  - exists 101%N, [], 57%N. repeat split. left. reflexivity.
  - reflexivity.
  - left. reflexivity.
Defined.
